(** * SourceProviderCodeCache: a shallow embedding

    The generated-code provider of ZombieBox (class
    [SourceProviderCodeCache]): cleaning the output root, writing the
    base application, the extensions' sources and the [define] module,
    and keeping the list of written files.

    Conventions of the embedding:
    - JavaScript strings are [string]s (byte strings; a non-ASCII
      character is its UTF-8 bytes);
    - a JavaScript number is an integer [Z] (the safe integers, printed
      in decimal); fractions, [NaN] and the infinities are outside the
      embedding;
    - a plain object is the list of its own enumerable entries in the
      order [Object.keys] gives them: the keys that are array indices
      first, in ascending order, then the other keys in the order they
      were added in; an object the code builds is built in that order,
      an object the code is given is any list of entries;
    - paths are POSIX paths; the file system is a finite map from
      absolute paths (lists of segments) to entries, regular files and
      directories, the way the code addresses it through [fs] and
      [fs-extra]; a path is looked up by the segments [path.normalize]
      leaves of it, and one with a trailing separator names a
      directory only; symbolic links, permissions and failing devices
      are not modelled;
    - a method of the class is a function from the instance state to an
      outcome: the state it returns in, or the state it threw in. *)

From Stdlib Require Import ZArith Ascii String DecimalString.
From stdpp Require Import base option list strings gmap fin_maps.

Set Warnings "-register-all".

Local Open Scope string_scope.
Local Open Scope list_scope.

(** ** Strings and arrays of strings *)

Module Js.

Definition nl : string := String "010"%char "".
Definition tab : string := String "009"%char "".

(** [Array.prototype.join] on strings. *)
Fixpoint join (sep : string) (l : list string) : string :=
  match l with
  | [] => ""
  | [x] => x
  | x :: r => x +:+ sep +:+ join sep r
  end.

(** [String.prototype.split] with a single-character separator: always
    at least one piece. *)
Fixpoint split (c : ascii) (s : string) : list string :=
  match s with
  | EmptyString => [""]
  | String a r =>
      if Ascii.eqb a c then "" :: split c r
      else match split c r with
           | x :: t => String a x :: t
           | [] => [String a ""]
           end
  end.

(** [Array.prototype.includes] on strings. *)
Definition includes (x : string) (l : list string) : bool :=
  existsb (String.eqb x) l.

(** [new Set(iterable)]: a set keeps its members in insertion order and
    ignores a member it already has; [Array.from] lists them in that
    order. *)
Definition Set_add (s : list string) (x : string) : list string :=
  if includes x s then s else s ++ [x].

Definition Set_from (l : list string) : list string :=
  fold_left Set_add l [].

(** What is before the suffix [t] of [s], when [s] ends with [t]. *)
Fixpoint stripSuffix (s t : string) : option string :=
  if String.eqb s t then Some ""
  else match s with
       | String a r => String a <$> stripSuffix r t
       | EmptyString => None
       end.

(** [s.endsWith(t)] *)
Definition endsWith (s t : string) : bool :=
  match stripSuffix s t with Some _ => true | None => false end.

(** [s.charAt(0)] *)
Definition charAt0 (s : string) : string :=
  match s with
  | EmptyString => ""
  | String a _ => String a ""
  end.

End Js.

(** ** JSON-like values *)

Inductive value : Type :=
| VUndefined
| VNull
| VBool (b : bool)
| VNumber (n : Z)
| VString (s : string)
| VFunction (text : string)
| VArray (items : list value)
| VObject (entries : list (string * value)).

(** [typeof value] *)
Definition typeof (v : value) : string :=
  match v with
  | VUndefined => "undefined"
  | VBool _ => "boolean"
  | VNumber _ => "number"
  | VString _ => "string"
  | VFunction _ => "function"
  | VNull | VArray _ | VObject _ => "object"
  end.

Definition isNull (v : value) : bool :=
  match v with VNull => true | _ => false end.

(** [Number.prototype.toString] on a safe integer: its decimal
    digits, after a minus sign when it is negative. *)
Definition numberToString (n : Z) : string :=
  NilZero.string_of_int (Z.to_int n).

(** ** [JSON.stringify] *)

Module Json.

Definition dquote : string := String (ascii_of_N 34) "".

Definition hexDigit (n : N) : ascii :=
  ascii_of_N (if (n <? 10)%N then 48 + n else 87 + n).

(** One character inside a quoted string. *)
Definition escapeChar (a : ascii) : string :=
  let n := N_of_ascii a in
  if (n =? 34)%N then String "\"%char dquote
  else if (n =? 92)%N then "\\"
  else if (n =? 8)%N then "\b"
  else if (n =? 12)%N then "\f"
  else if (n =? 10)%N then "\n"
  else if (n =? 13)%N then "\r"
  else if (n =? 9)%N then "\t"
  else if (n <? 32)%N then
    "\u00" +:+ String (hexDigit (n / 16)) (String (hexDigit (n mod 16)) "")
  else String a "".

Fixpoint escape (s : string) : string :=
  match s with
  | EmptyString => ""
  | String a r => escapeChar a +:+ escape r
  end.

Definition quote (s : string) : string :=
  dquote +:+ escape s +:+ dquote.

(** [None] is the [undefined] that [JSON.stringify] returns for
    [undefined] and for a function. Inside an array such an item is
    written [null]; inside an object the entry is left out. *)
Fixpoint stringify (v : value) : option string :=
  match v with
  | VUndefined | VFunction _ => None
  | VNull => Some "null"
  | VBool b => Some (if b then "true" else "false")
  | VNumber n => Some (numberToString n)
  | VString s => Some (quote s)
  | VArray items =>
      Some ("[" +:+
            Js.join "," (map (fun x => default "null" (stringify x)) items)
            +:+ "]")
  | VObject entries =>
      Some ("{" +:+
            Js.join ","
              (omap (fun kv => match stringify (snd kv) with
                               | Some t => Some (quote (fst kv) +:+ ":" +:+ t)
                               | None => None
                               end) entries)
            +:+ "}")
  end.

End Json.

(** ** Type inference and printing of the [define] module

    The local functions of [generateDefines]. *)

Module Defines.

(** [getGCCType], with [getArrayContentsType] as its array case. *)
Fixpoint getGCCType (v : value) : string :=
  let jsType := typeof v in
  if String.eqb jsType "function" then "Function"
  else if negb (String.eqb jsType "object") then jsType
  else if isNull v then "null"
  else match v with
       | VArray array =>
           "Array<" +:+
           (if (length array =? 0)%nat then "*"
            else Js.join "|" (Js.Set_from (map getGCCType array)))
           +:+ ">"
       | _ => "Object"
       end.

Definition getArrayContentsType (array : list value) : string :=
  if (length array =? 0)%nat then "*"
  else Js.join "|" (Js.Set_from (map getGCCType array)).

Definition printTypeTag (type : string) : string :=
  if String.eqb type "Object" then "@struct"
  else "@const {" +:+ type +:+ "}".

Definition printJsdoc (tags : list string) : string :=
  Js.join Js.nl (["/**"] ++ map (fun tag => " * " +:+ tag) tags ++ [" */"; ""]).

Definition indent (s : string) : string :=
  Js.tab +:+ Js.join (Js.nl +:+ Js.tab) (Js.split "010"%char s).

(** [value.toString()] where [printValue] calls it: on a number and on
    a function (its source text); no other value comes with the tags
    [number] and [Function]. *)
Definition toString (v : value) : string :=
  match v with
  | VNumber n => numberToString n
  | VFunction text => text
  | VString s => s
  | VBool b => if b then "true" else "false"
  | _ => ""
  end.

(** [printValue], with [printObject] as its ['Object'] case, which is
    reached with a plain object only (the entries [Object.keys] walks).
    The template literal around the call turns the [undefined] of
    [JSON.stringify] into the text [undefined]. *)
Fixpoint printValue (type : string) (v : value) {struct v} : string :=
  if String.eqb type "Object" then
    Js.join Js.nl
      ["{";
       indent
         (Js.join ("," +:+ Js.nl +:+ Js.nl)
            (match v with
             | VObject entries =>
                 map (fun kv =>
                        printJsdoc [printTypeTag (getGCCType (snd kv))] +:+
                        fst kv +:+ ": " +:+
                        printValue (getGCCType (snd kv)) (snd kv))
                     entries
             | _ => []
             end));
       "}"]
  else if String.eqb type "number" || String.eqb type "Function" then
    toString v
  else default "undefined" (Json.stringify v).

Definition printObject (object : value) : string := printValue "Object" object.

(** The text written to [define.js]. *)
Definition content (define : list (string * value)) : string :=
  Js.join (Js.nl +:+ Js.nl)
    (map (fun kv =>
            let type := getGCCType (snd kv) in
            printJsdoc [printTypeTag type] +:+
            "export const " +:+ fst kv +:+ " = " +:+
            printValue type (snd kv) +:+ ";")
         define).

End Defines.

(** ** Paths: Node's [path] module (POSIX flavour) *)

Module Path.

(** One step of [normalizeString]: the segments kept so far are held
    last first. *)
Definition step (allowAboveRoot : bool) (acc : list string) (seg : string)
  : list string :=
  if String.eqb seg "" || String.eqb seg "." then acc
  else if String.eqb seg ".." then
    match acc with
    | last :: rest =>
        if String.eqb last ".." then
          (if allowAboveRoot then ".." :: acc else acc)
        else rest
    | [] => if allowAboveRoot then [".."] else []
    end
  else seg :: acc.

Definition normalizeSegments (allowAboveRoot : bool) (segs : list string)
  : list string :=
  rev (fold_left (step allowAboveRoot) segs []).

Definition isAbsolute (p : string) : bool :=
  match p with
  | String a _ => Ascii.eqb a "/"%char
  | EmptyString => false
  end.

(** [path.normalize] *)
Definition normalize (p : string) : string :=
  if String.eqb p "" then "."
  else
    let absolute := isAbsolute p in
    let trailingSeparator := Js.endsWith p "/" in
    let body :=
      Js.join "/" (normalizeSegments (negb absolute) (Js.split "/"%char p)) in
    if String.eqb body "" then
      (if absolute then "/" else if trailingSeparator then "./" else ".")
    else
      let body' := if trailingSeparator then body +:+ "/" else body in
      if absolute then "/" +:+ body' else body'.

(** [path.join] of two arguments *)
Definition join (a b : string) : string :=
  if String.eqb a "" then
    (if String.eqb b "" then "." else normalize b)
  else if String.eqb b "" then normalize a
  else normalize (a +:+ "/" +:+ b).

(** The segments an absolute path names, [.] and [..] resolved (at the
    top [..] stays at the top, as the operating system has it). *)
Definition segments (p : string) : list string :=
  normalizeSegments false (Js.split "/"%char p).

Definition isSlash (a : ascii) : bool := Ascii.eqb a "/"%char.

Fixpoint dropWhile {A} (f : A -> bool) (l : list A) : list A :=
  match l with
  | x :: r => if f x then dropWhile f r else l
  | [] => []
  end.

(** [path.dirname]: scanning from the end down to index 1, past the
    trailing separators and past the last segment, up to the separator
    before it. *)
Definition dirname (p : string) : string :=
  match p with
  | EmptyString => "."
  | String first body =>
      let hasRoot := isSlash first in
      let fromEnd := rev (list_ascii_of_string body) in
      let pastSlashes := dropWhile isSlash fromEnd in
      let pastSegment := dropWhile (fun a => negb (isSlash a)) pastSlashes in
      match pastSegment with
      | [] => if hasRoot then "/" else "."
      | _ :: before =>
          if hasRoot && (length before =? 0)%nat then "//"
          else String first (string_of_list_ascii (rev before))
      end
  end.

Fixpoint stripCommon (xs ys : list string) : list string * list string :=
  match xs, ys with
  | x :: xs', y :: ys' =>
      if String.eqb x y then stripCommon xs' ys' else (xs, ys)
  | _, _ => (xs, ys)
  end.

(** [path.relative] of two absolute paths: one [..] for each segment of
    [from] below the common prefix, then what is left of [to]. *)
Definition relative (from to : string) : string :=
  let '(up, down) := stripCommon (segments from) (segments to) in
  Js.join "/" (map (fun _ => "..") up ++ down).

End Path.

(** ** The file system, as [fs] and [fs-extra] show it *)

Inductive entry : Type :=
| EFile (content : string)
| EDir.

Global Instance entry_eq_dec : EqDecision entry.
Proof. solve_decision. Defined.

Inductive error : Type := ENOENT | ENOTDIR | EISDIR | EEXIST.

Inductive result (A : Type) : Type :=
| Ok (a : A)
| Fail (e : error).
Arguments Ok {A} a.
Arguments Fail {A} e.

Module Fs.

(** The paths given are absolute, as the path helper resolves them (a
    path that is not is read from the top directory). The top
    directory is always there; every other path is a key of the map. *)
Definition lookup (fs : gmap (list string) entry) (k : list string)
  : option entry :=
  match k with
  | [] => Some EDir
  | _ => fs !! k
  end.

(** [below dir k]: what is left of [k] under [dir]. *)
Fixpoint below (dir k : list string) : option (list string) :=
  match dir, k with
  | [], _ => Some k
  | d :: dir', x :: k' => if String.eqb d x then below dir' k' else None
  | _ :: _, [] => None
  end.

Definition childName (dir : list string) (kv : list string * entry)
  : option string :=
  match below dir kv.1 with
  | Some [n] => Some n
  | _ => None
  end.

(** The error for a key that is not there: [ENOTDIR] when a regular
    file is on the way to it, [ENOENT] otherwise. *)
Fixpoint missing (fs : gmap (list string) entry) (above todo : list string)
  : error :=
  match todo with
  | [] => ENOENT
  | seg :: rest =>
      match lookup fs above with
      | Some (EFile _) => ENOTDIR
      | Some EDir => missing fs (above ++ [seg]) rest
      | None => ENOENT
      end
  end.

(** What the path [p] names, as a system call finds it. A path with a
    trailing separator names a directory only: on a regular file it
    fails with [ENOTDIR]. *)
Definition named (p : string) (fs : gmap (list string) entry) : result entry :=
  match lookup fs (Path.segments p) with
  | Some (EFile content) =>
      if Js.endsWith p "/" then Fail ENOTDIR else Ok (EFile content)
  | Some EDir => Ok EDir
  | None => Fail (missing fs [] (Path.segments p))
  end.

(** [fs.existsSync]: whether [fs.statSync] would succeed. *)
Definition existsSync (p : string) (fs : gmap (list string) entry) : bool :=
  match named p fs with
  | Ok _ => true
  | Fail _ => false
  end.

(** [fse.pathExistsSync] is [fs.existsSync]. *)
Definition pathExistsSync := existsSync.

(** The names in a directory, in the order the map lists them. *)
Definition readdirSync (p : string) (fs : gmap (list string) entry)
  : result (list string) :=
  match named p fs with
  | Ok EDir => Ok (omap (childName (Path.segments p)) (map_to_list fs))
  | Ok (EFile _) => Fail ENOTDIR
  | Fail e => Fail e
  end.

Definition statSync (p : string) (fs : gmap (list string) entry)
  : result entry :=
  named p fs.

Definition isFile (e : entry) : bool :=
  match e with EFile _ => true | EDir => false end.

Definition unlinkSync (p : string) (fs : gmap (list string) entry)
  : result (gmap (list string) entry) :=
  match named p fs with
  | Ok (EFile _) => Ok (delete (Path.segments p) fs)
  | Ok EDir => Fail EISDIR
  | Fail e => Fail e
  end.

(** [fse.removeSync]: the entry and all that is below it; nothing to do
    when it is not there. *)
Definition removeSync (p : string) (fs : gmap (list string) entry)
  : gmap (list string) entry :=
  filter (fun kv => below (Path.segments p) kv.1 = None) fs.

(** [fse.ensureDirSync]: every directory on the way, top down; a
    regular file on the way is [ENOTDIR], one at the path itself
    [EEXIST]. *)
Fixpoint mkdirs (above todo : list string) (fs : gmap (list string) entry)
  : result (gmap (list string) entry) :=
  match todo with
  | [] => Ok fs
  | seg :: rest =>
      let here := above ++ [seg] in
      match fs !! here with
      | Some (EFile _) =>
          Fail (match rest with [] => EEXIST | _ => ENOTDIR end)
      | Some EDir => mkdirs here rest fs
      | None => mkdirs here rest (<[here := EDir]> fs)
      end
  end.

Definition ensureDirSync (p : string) (fs : gmap (list string) entry)
  : result (gmap (list string) entry) :=
  mkdirs [] (Path.segments p) fs.

Definition parent (k : list string) : list string := removelast k.

(** [fs.writeFileSync(p, content, 'utf-8')]: creates the file or
    replaces its content; the directory it is in must exist, and the
    path must not name a directory, nor end with a separator. *)
Definition writeFileSync (p content : string) (fs : gmap (list string) entry)
  : result (gmap (list string) entry) :=
  let k := Path.segments p in
  match k with
  | [] => Fail EISDIR
  | _ =>
      match lookup fs (parent k) with
      | None => Fail (missing fs [] (parent k))
      | Some (EFile _) => Fail ENOTDIR
      | Some EDir =>
          match fs !! k with
          | Some EDir => Fail EISDIR
          | Some (EFile _) =>
              if Js.endsWith p "/" then Fail ENOTDIR
              else Ok (<[k := EFile content]> fs)
          | None =>
              if Js.endsWith p "/" then Fail EISDIR
              else Ok (<[k := EFile content]> fs)
          end
      end
  end.

(** [fs.readFileSync(p, 'utf-8')] where it succeeds: the content of
    the regular file [p] names. *)
Definition readFile (p : string) (fs : gmap (list string) entry)
  : option string :=
  match named p fs with
  | Ok (EFile content) => Some content
  | _ => None
  end.

End Fs.

(** ** Plain objects with string values *)

Module Obj.

Definition keys (o : list (string * string)) : list string := map fst o.

Definition isDigit (a : ascii) : bool :=
  (48 <=? N_of_ascii a)%N && (N_of_ascii a <=? 57)%N.

(** The number a string of decimal digits writes, after [acc]. *)
Fixpoint digitsValue (acc : N) (s : string) : option N :=
  match s with
  | EmptyString => Some acc
  | String a r =>
      if isDigit a then digitsValue (10 * acc + (N_of_ascii a - 48))%N r
      else None
  end.

(** The array index a key is, if it is one: a canonical numeric string
    (decimal digits, no leading zero but in [0] itself) of a value
    below 2^32 - 1. *)
Definition arrayIndex (k : string) : option N :=
  match k with
  | EmptyString => None
  | String a r =>
      if Ascii.eqb a "0" && negb (String.eqb r "") then None
      else match digitsValue 0 k with
           | Some n => if (n <? 4294967295)%N then Some n else None
           | None => None
           end
  end.

(** A key the object has keeps its place and takes the new value; a
    new key goes last. *)
Fixpoint put (k v : string) (o : list (string * string))
  : list (string * string) :=
  match o with
  | [] => [(k, v)]
  | (k', v') :: r =>
      if String.eqb k' k then (k, v) :: r else (k', v') :: put k v r
  end.

(** A new array index goes among the array indices, before the first
    greater one and before the other keys. *)
Fixpoint insertIndex (n : N) (k v : string) (o : list (string * string))
  : list (string * string) :=
  match o with
  | [] => [(k, v)]
  | (k', v') :: r =>
      match arrayIndex k' with
      | Some m =>
          if (m <? n)%N then (k', v') :: insertIndex n k v r
          else (k, v) :: o
      | None => (k, v) :: o
      end
  end.

(** [Object.assign(o, {[k]: v})] on a plain object [o] and a string
    [v]. The assignment to [__proto__] reaches the setter of
    [Object.prototype], which ignores a string: the object stays as it
    is. A key the object has keeps its place and takes the new value;
    a new key goes where [Object.keys] lists it: an array index among
    the array indices, in ascending order, any other key last. *)
Definition set (k v : string) (o : list (string * string))
  : list (string * string) :=
  if String.eqb k "__proto__" then o
  else
    match arrayIndex k with
    | Some n =>
        if Js.includes k (keys o) then put k v o else insertIndex n k v o
    | None => put k v o
    end.

End Obj.

(** [Array.prototype.findIndex] and [splice(start, 1)] *)
Fixpoint findIndexFrom (f : string -> bool) (l : list string) (i : Z) : Z :=
  match l with
  | [] => (-1)%Z
  | x :: r => if f x then i else findIndexFrom f r (i + 1)%Z
  end.

Definition findIndex (f : string -> bool) (l : list string) : Z :=
  findIndexFrom f l 0%Z.

Definition splice1 (start : Z) (l : list string) : list string :=
  let len := Z.of_nat (length l) in
  let actualStart :=
    if (start <? 0)%Z then Z.max (len + start) 0 else Z.min start len in
  take (Z.to_nat actualStart) l ++ drop (Z.to_nat actualStart + 1) l.

(** ** The collaborators of the provider *)

Module Project.
Record t : Type := { name : string; src : string; entry : string }.
End Project.

Module BuildConfig.
Record t : Type :=
  { project : Project.t;
    generatedCode : string;
    define : list (string * value) }.
End BuildConfig.

Module Platform.
Record t : Type := { getName : string }.
End Platform.

Module Extension.
Record t : Type :=
  { getName : string;
    generateCode : BuildConfig.t -> list (string * string) }.
End Extension.

Module AddonLoader.
Record t : Type :=
  { getPlatforms : list Platform.t;
    getExtensions : list Extension.t }.
End AddonLoader.

(** The events of [ISourceProvider] and what [emit] has sent. *)
Inductive eventName : Type := EVENT_CHANGED | EVENT_ANY.

Inductive eventArg : Type :=
| ArgEvent (e : eventName)
| ArgPath (filename : string).

Record emission : Type :=
  { emittedEvent : eventName; emittedArgs : list eventArg }.

Module PathHelper.
Record t : Type := { resolveAbsolutePath : string -> string }.
End PathHelper.

Module TemplateHelper.
Record t : Type := { render : string -> value -> string }.
End TemplateHelper.

(** ** The provider *)

Module SourceProviderCodeCache.

(** What the constructor stores. *)
Record t : Type :=
  { _pathHelper : PathHelper.t;
    _templateHelper : TemplateHelper.t;
    _buildConfig : BuildConfig.t;
    _packageJson : value;
    _addonLoader : AddonLoader.t }.

Definition _root (this : t) : string :=
  PathHelper.resolveAbsolutePath (_pathHelper this)
    (BuildConfig.generatedCode (_buildConfig this)).

(** What changes while the provider lives: the disk, the list of
    written files, and the events sent to the listeners. *)
Record state : Type :=
  { disk : gmap (list string) entry;
    _files : list string;
    emitted : list emission }.

Definition setDisk (d : gmap (list string) entry) (st : state) : state :=
  {| disk := d; _files := _files st; emitted := emitted st |}.

Definition setFiles (l : list string) (st : state) : state :=
  {| disk := disk st; _files := l; emitted := emitted st |}.

Definition emit (e : eventName) (args : list eventArg) (st : state) : state :=
  {| disk := disk st; _files := _files st;
     emitted := emitted st ++ [{| emittedEvent := e; emittedArgs := args |}] |}.

(** A call returns in a state or throws in one. *)
Inductive outcome : Type :=
| Returned (st : state)
| Threw (e : error) (st : state).

Definition andThen (o : outcome) (k : state -> outcome) : outcome :=
  match o with
  | Returned st => k st
  | Threw e st => Threw e st
  end.

Notation "c ;;; k" := (andThen c k) (at level 61, left associativity).

(** A file-system call on the disk of the state. *)
Definition onDisk
  (f : gmap (list string) entry -> result (gmap (list string) entry))
  (st : state) : outcome :=
  match f (disk st) with
  | Ok d => Returned (setDisk d st)
  | Fail e => Threw e st
  end.

(** [array.forEach(body)] where [body] may throw. *)
Fixpoint forEach {A} (body : A -> state -> outcome) (l : list A) (st : state)
  : outcome :=
  match l with
  | [] => Returned st
  | x :: r => body x st ;;; forEach body r
  end.

Definition _writeFile (this : t) (src content : string) (st : state)
  : outcome :=
  let filename := Path.join (_root this) src in
  let dir := Path.dirname filename in
  (if Fs.existsSync dir (disk st) then Returned st
   else onDisk (Fs.ensureDirSync dir) st) ;;;
  onDisk (Fs.writeFileSync filename content) ;;;
  (fun st =>
     Returned
       (if Js.includes filename (_files st) then st
        else setFiles (_files st ++ [filename]) st)) ;;;
  (fun st => Returned (emit EVENT_CHANGED [ArgPath filename] st)) ;;;
  (fun st =>
     Returned (emit EVENT_ANY [ArgEvent EVENT_CHANGED; ArgPath filename] st)).

Definition _writeSources (this : t) (sources : list (string * string))
  : state -> outcome :=
  forEach (fun kv => _writeFile this kv.1 kv.2) sources.

Definition _resolveAddonRelativeSources
  (addon : Extension.t) (sources : list (string * string))
  : list (string * string) :=
  fold_left
    (fun result kv =>
       let addonRelativePath := Path.join (Extension.getName addon) kv.1 in
       Obj.set addonRelativePath kv.2 result)
    sources [].

(** The listener [_setupExtensions] registers on each extension for
    [AbstractExtension.EVENT_GENERATED]. *)
Definition onGenerated (this : t) (extension : Extension.t)
  (sources : list (string * string)) : state -> outcome :=
  _writeSources this (_resolveAddonRelativeSources extension sources).

Definition cleanEntry (this : t) (filename : string) (st : state) : outcome :=
  if String.eqb (Js.charAt0 filename) "." then Returned st
  else
    let src := Path.join (_root this) filename in
    match Fs.statSync src (disk st) with
    | Fail e => Threw e st
    | Ok e =>
        if Fs.isFile e then onDisk (Fs.unlinkSync src) st
        else Returned (setDisk (Fs.removeSync src (disk st)) st)
    end.

Definition clean (this : t) (st : state) : outcome :=
  if negb (Fs.pathExistsSync (_root this) (disk st)) then Returned st
  else
    match Fs.readdirSync (_root this) (disk st) with
    | Fail e => Threw e st
    | Ok files =>
        forEach (cleanEntry this) files st ;;;
        (fun st => Returned (setFiles [] st))
    end.

(** PC is a special platform that can't be detected properly and should
    be the last in the list. *)
Definition pcLast (platformNames : list string) : list string :=
  if Js.includes "pc" platformNames then
    splice1 (findIndex (fun name => String.eqb name "pc") platformNames)
      platformNames ++ ["pc"]
  else platformNames.

(** The platform names as [generateBaseApp] orders them. *)
Definition platformNames (this : t) : list string :=
  pcLast (map Platform.getName (AddonLoader.getPlatforms (_addonLoader this))).

Definition mainPath (this : t) : string :=
  let config := _buildConfig this in
  let resolve := PathHelper.resolveAbsolutePath (_pathHelper this) in
  Path.join (Project.name (BuildConfig.project config))
    (Path.relative
       (resolve (Project.src (BuildConfig.project config)))
       (resolve (Project.entry (BuildConfig.project config)))).

(** [s.replace(/\.js$/, '')] *)
Definition stripJs (s : string) : string :=
  default s (Js.stripSuffix s ".js").

(** The path the entry template is rendered with. *)
Definition appPath (this : t) : string := stripJs (mainPath this).

Definition render (this : t) : string -> value -> string :=
  TemplateHelper.render (_templateHelper this).

Definition baseApplicationText (this : t) : string :=
  render this "base-application.js.tpl"
    (VObject [("platforms", VArray (map VString (platformNames this)))]).

Definition appText (this : t) : string :=
  render this "app.js.tpl" (VObject [("path", VString (appPath this))]).

Definition packageInfoText (this : t) : string :=
  render this "package-info.js.tpl" (VObject [("config", _packageJson this)]).

Definition generateBaseApp (this : t) (st : state) : outcome :=
  _writeFile this "base-application.js" (baseApplicationText this) st ;;;
  _writeFile this "app.js" (appText this) ;;;
  _writeFile this "package-info.js" (packageInfoText this).

Definition generateExtensionsCode (this : t) : state -> outcome :=
  forEach
    (fun extension =>
       let sources :=
         _resolveAddonRelativeSources extension
           (Extension.generateCode extension (_buildConfig this)) in
       _writeSources this sources)
    (AddonLoader.getExtensions (_addonLoader this)).

Definition generateDefines (this : t) : state -> outcome :=
  _writeFile this "define.js"
    (Defines.content (BuildConfig.define (_buildConfig this))).

Definition buildCode (this : t) (st : state) : outcome :=
  clean this st ;;;
  generateBaseApp this ;;;
  generateExtensionsCode this ;;;
  generateDefines this.

(** A session: the calls made on one provider, in order. *)
Inductive call : Type :=
| CallClean
| CallBuildCode
| CallGenerateBaseApp
| CallGenerateExtensionsCode
| CallGenerateDefines
| Generated (extension : Extension.t) (sources : list (string * string)).

Definition perform (this : t) (c : call) : state -> outcome :=
  match c with
  | CallClean => clean this
  | CallBuildCode => buildCode this
  | CallGenerateBaseApp => generateBaseApp this
  | CallGenerateExtensionsCode => generateExtensionsCode this
  | CallGenerateDefines => generateDefines this
  | Generated extension sources => onGenerated this extension sources
  end.

(** The state a call leaves, whether it returned or threw. *)
Definition stateOf (o : outcome) : state :=
  match o with
  | Returned st => st
  | Threw _ st => st
  end.

Definition returned (o : outcome) : bool :=
  match o with Returned _ => true | Threw _ _ => false end.

Definition session (this : t) (calls : list call) (st : state) : state :=
  fold_left (fun st c => stateOf (perform this c st)) calls st.

(** A new provider on a disk: nothing written, nothing emitted. *)
Definition initial (d : gmap (list string) entry) : state :=
  {| disk := d; _files := []; emitted := [] |}.

End SourceProviderCodeCache.

(** ** A sample project *)

Module Sample.
Import SourceProviderCodeCache.

Definition foo : Extension.t :=
  {| Extension.getName := "foo";
     Extension.generateCode := fun _ => [("bar.js", "content")] |}.

Definition provider : t :=
  {| _pathHelper :=
       {| PathHelper.resolveAbsolutePath := fun p => Path.join "/project" p |};
     _templateHelper :=
       {| TemplateHelper.render :=
            fun template context =>
              template +:+ " " +:+ default "" (Json.stringify context) |};
     _buildConfig :=
       {| BuildConfig.project :=
            {| Project.name := "app";
               Project.src := "src";
               Project.entry := "src/main.js" |};
          BuildConfig.generatedCode := "out";
          BuildConfig.define :=
            [("FOO", VNumber 1);
             ("BAR", VString "x");
             ("BAZ", VArray [VNumber 1; VString "a"; VNull])] |};
     _packageJson := VObject [("name", VString "app")];
     _addonLoader :=
       {| AddonLoader.getPlatforms :=
            [{| Platform.getName := "tizen" |};
             {| Platform.getName := "pc" |};
             {| Platform.getName := "webos" |}];
          AddonLoader.getExtensions := [foo] |} |}.

(** An output root with a hidden directory, a visible directory and a
    visible file in it. *)
Definition populated : gmap (list string) entry :=
  list_to_map
    [(["project"], EDir);
     (["project"; "out"], EDir);
     (["project"; "out"; ".git"], EDir);
     (["project"; "out"; ".git"; "HEAD"], EFile "ref");
     (["project"; "out"; ".keep"], EFile "");
     (["project"; "out"; "old"], EDir);
     (["project"; "out"; "old"; "a.js"], EFile "a");
     (["project"; "out"; "stale.js"], EFile "s")].

(** A disk on which the output root is yet to be made. *)
Definition bare : gmap (list string) entry :=
  list_to_map [(["project"], EDir)].

End Sample.

Module SampleRuns.
Import SourceProviderCodeCache.

(** The sample project built once, and built again. *)
Definition once : state :=
  stateOf (buildCode Sample.provider (initial Sample.populated)).

Definition twice : state := stateOf (buildCode Sample.provider once).

(** A notification of [foo] that reaches above the output root. *)
Definition stray : call := Generated Sample.foo [("../../stray.js", "x")].

End SampleRuns.

(** ** Specification-side definitions *)

(** The members of a list, each once, in the order of their first
    occurrence. *)
Fixpoint firstOccurrences (l : list string) : list string :=
  match l with
  | [] => []
  | x :: r => x :: filter (fun y => y ≠ x) (firstOccurrences r)
  end.

(** A plain name: one segment of a path, other than [.] and [..]. *)
Fixpoint hasSlash (s : string) : bool :=
  match s with
  | EmptyString => false
  | String a r => Path.isSlash a || hasSlash r
  end.

Definition plain (s : string) : Prop :=
  s ≠ "" ∧ s ≠ "." ∧ s ≠ ".." ∧ hasSlash s = false.

Import SourceProviderCodeCache.

(** The entry module as a path relative to the source root, its
    trailing [.js] stripped. *)
Definition entryRelativePath (this : t) : string :=
  let resolve := PathHelper.resolveAbsolutePath (_pathHelper this) in
  stripJs
    (Path.relative
       (resolve (Project.src (BuildConfig.project (_buildConfig this))))
       (resolve (Project.entry (BuildConfig.project (_buildConfig this))))).

(** The content of the file at a key of the disk, if a file is there. *)
Definition fileAt (d : gmap (list string) entry) (k : list string)
  : option string :=
  match Fs.lookup d k with
  | Some (EFile content) => Some content
  | _ => None
  end.

(** Where [_writeFile] puts the source [src]. *)
Definition filenameOf (this : t) (src : string) : string :=
  Path.join (_root this) src.

Definition keyOf (this : t) (src : string) : list string :=
  Path.segments (filenameOf this src).

(** The content last written at a key by a list of writes, first to
    last. *)
Fixpoint lastWritten (this : t) (writes : list (string * string))
  (k : list string) : option string :=
  match writes with
  | [] => None
  | kv :: r =>
      match lastWritten this r k with
      | Some content => Some content
      | None => if decide (keyOf this kv.1 = k) then Some kv.2 else None
      end
  end.

(** The two events of one write. *)
Definition eventsOf (this : t) (writes : list (string * string))
  : list emission :=
  flat_map
    (fun kv =>
       [{| emittedEvent := EVENT_CHANGED;
           emittedArgs := [ArgPath (filenameOf this kv.1)] |};
        {| emittedEvent := EVENT_ANY;
           emittedArgs :=
             [ArgEvent EVENT_CHANGED; ArgPath (filenameOf this kv.1)] |}])
    writes.

(** [st'] is [st] after the writes [writes] and nothing else that shows
    in a file, in the list of written files or in the events. *)
Definition wrote (this : t) (writes : list (string * string))
  (st st' : state) : Prop :=
  (∀ k, fileAt (disk st') k
        = match lastWritten this writes k with
          | Some content => Some content
          | None => fileAt (disk st) k
          end) ∧
  _files st'
  = fold_left Js.Set_add (map (fun kv => filenameOf this kv.1) writes)
      (_files st) ∧
  emitted st' = emitted st ++ eventsOf this writes.

(** The writes of the three generation steps of a build. *)
Definition baseAppWrites (this : t) : list (string * string) :=
  [("base-application.js", baseApplicationText this);
   ("app.js", appText this);
   ("package-info.js", packageInfoText this)].

Definition extensionWrites (this : t) : list (string * string) :=
  flat_map
    (fun extension =>
       _resolveAddonRelativeSources extension
         (Extension.generateCode extension (_buildConfig this)))
    (AddonLoader.getExtensions (_addonLoader this)).

Definition definesWrites (this : t) : list (string * string) :=
  [("define.js", Defines.content (BuildConfig.define (_buildConfig this)))].

Definition buildWrites (this : t) : list (string * string) :=
  baseAppWrites this ++ extensionWrites this ++ definesWrites this.

(** The calls that write and never clean. *)
Definition writeOnly (c : call) : Prop :=
  match c with
  | CallClean | CallBuildCode => False
  | _ => True
  end.

Global Instance writeOnly_dec c : Decision (writeOnly c).
Proof. destruct c; simpl; apply _. Defined.

(** The paths of the [EVENT_CHANGED] events among the events sent. *)
Definition changedPaths (events : list emission) : list string :=
  omap
    (fun e =>
       match emittedEvent e, emittedArgs e with
       | EVENT_CHANGED, [ArgPath filename] => Some filename
       | _, _ => None
       end)
    events.

Global Instance plain_dec s : Decision (plain s).
Proof. unfold plain. apply _. Defined.

(** The directories a key lies in, the top directory apart. *)
Definition properPrefixes (k : list string) : list (list string) :=
  map (fun i => take i k) (seq 1 (length k - 1)).

(** A disk as a file system has it: every name is a plain name, and
    every entry lies in directories. *)
Definition wellFormed (d : gmap (list string) entry) : Prop :=
  map_Forall
    (fun k _ =>
       Forall plain k ∧
       Forall (fun q => d !! q = Some EDir) (properPrefixes k))
    d.

Global Instance wellFormed_dec d : Decision (wellFormed d).
Proof. unfold wellFormed. apply _. Defined.

(** [k] is a visible entry at the top of the directory [R], or lies
    below one. *)
Definition visibleUnder (R k : list string) : bool :=
  match Fs.below R k with
  | Some (n :: _) => negb (String.eqb (Js.charAt0 n) ".")
  | _ => false
  end.

(** [k] is, or lies below, a visible entry of [R] with a name in
    [names]. *)
Definition removedBy (R : list string) (names : list string)
  (k : list string) : bool :=
  match Fs.below R k with
  | Some (n :: _) =>
      Js.includes n names && negb (String.eqb (Js.charAt0 n) ".")
  | _ => false
  end.

(** Every entry of [d] is an entry of the same kind, file or directory,
    of [e]. *)
Definition sameKind (d e : gmap (list string) entry) : Prop :=
  ∀ k x, d !! k = Some x →
         ∃ y, e !! k = Some y ∧ Fs.isFile y = Fs.isFile x.


(** [s.includes(c)] for a character [c]. *)
Fixpoint hasChar (c : ascii) (s : string) : bool :=
  match s with
  | EmptyString => false
  | String a r => Ascii.eqb a c || hasChar c r
  end.

(** The paths the writes [writes] are written at. *)
Definition filenamesOf (this : t) (writes : list (string * string))
  : list string :=
  map (fun kv => filenameOf this kv.1) writes.

(** A path in the form [path.join] leaves an absolute path without a
    trailing separator in: a separator before each of its segments. *)
Definition canonical (p : string) : Prop :=
  p = "/" +:+ Js.join "/" (Path.segments p).

(** A key [Object.keys] lists where it was added: no array index, and
    not [__proto__]. *)
Definition ordinaryKey (k : string) : Prop :=
  k ≠ "__proto__" ∧ Obj.arrayIndex k = None.

Global Instance ordinaryKey_dec k : Decision (ordinaryKey k).
Proof. unfold ordinaryKey. apply _. Defined.

(** The order [Object.keys] gives: the array indices first, in
    ascending order, then the other keys. *)
Definition keyBefore (k k' : string) : Prop :=
  match Obj.arrayIndex k, Obj.arrayIndex k' with
  | Some a, Some b => (a <= b)%N
  | None, Some _ => False
  | _, _ => True
  end.

Fixpoint keysOrdered (l : list string) : Prop :=
  match l with
  | [] => True
  | k :: r => Forall (keyBefore k) r ∧ keysOrdered r
  end.

(** The writes a call makes when nothing throws, after its [clean] if
    it has one. *)
Definition plannedWrites (this : t) (c : call) : list (string * string) :=
  match c with
  | CallClean => []
  | CallBuildCode => buildWrites this
  | CallGenerateBaseApp => baseAppWrites this
  | CallGenerateExtensionsCode => extensionWrites this
  | CallGenerateDefines => definesWrites this
  | Generated extension sources =>
      _resolveAddonRelativeSources extension sources
  end.

(** The state a call writes from: the state [clean] leaves for the
    calls that clean first. *)
Definition afterClean (this : t) (c : call) (st : state) : state :=
  match c with
  | CallClean | CallBuildCode => stateOf (clean this st)
  | _ => st
  end.

(** The [clean] of the call [c], made in the state [st], found the
    output root and returned; the calls with a [clean] are [clean]
    itself and [buildCode]. *)
Definition cleaned (this : t) (c : call) (st : state) : bool :=
  match c with
  | CallClean | CallBuildCode =>
      Fs.pathExistsSync (_root this) (disk st) && returned (clean this st)
  | _ => false
  end.

(** The paths a call made in the state [st] has written, in order:
    those of the [EVENT_CHANGED] events it has sent. *)
Definition writtenBy (this : t) (c : call) (st : state) : list string :=
  changedPaths
    (drop (length (emitted st)) (emitted (stateOf (perform this c st)))).

(** The paths written since the most recent [clean] that found the
    output root and returned, after the calls [calls] made from the
    state [st]: [since] are those written before these calls. *)
Fixpoint writtenSinceClean (this : t) (calls : list call) (st : state)
  (since : list string) : list string :=
  match calls with
  | [] => since
  | c :: calls' =>
      writtenSinceClean this calls' (stateOf (perform this c st))
        ((if cleaned this c st then [] else since) ++ writtenBy this c st)
  end.

Module SampleMore.

(** An extension named as the hidden file [.keep] of the sample root. *)
Definition hidden : Extension.t :=
  {| Extension.getName := ".keep";
     Extension.generateCode := fun _ => [("x.js", "x")] |}.

(** The sample project with that extension after [foo]. *)
Definition failing : t :=
  {| _pathHelper := _pathHelper Sample.provider;
     _templateHelper := _templateHelper Sample.provider;
     _buildConfig := _buildConfig Sample.provider;
     _packageJson := _packageJson Sample.provider;
     _addonLoader :=
       {| AddonLoader.getPlatforms :=
            AddonLoader.getPlatforms (_addonLoader Sample.provider);
          AddonLoader.getExtensions := [Sample.foo; hidden] |} |}.

(** The sample project with its entry module beside the source root. *)
Definition outside : t :=
  {| _pathHelper := _pathHelper Sample.provider;
     _templateHelper := _templateHelper Sample.provider;
     _buildConfig :=
       {| BuildConfig.project :=
            {| Project.name := "app";
               Project.src := "src";
               Project.entry := "lib/main.js" |};
          BuildConfig.generatedCode := "out";
          BuildConfig.define := [] |};
     _packageJson := _packageJson Sample.provider;
     _addonLoader := _addonLoader Sample.provider |}.

(** A disk on which the output root is a regular file. *)
Definition blocked : gmap (list string) entry :=
  list_to_map [(["project"], EDir); (["project"; "out"], EFile "")].

(** The sample project with a path helper that leaves a separator at
    the end of the paths it resolves. *)
Definition slashed : t :=
  {| _pathHelper :=
       {| PathHelper.resolveAbsolutePath :=
            fun p => Path.join "/project" p +:+ "/" |};
     _templateHelper := _templateHelper Sample.provider;
     _buildConfig := _buildConfig Sample.provider;
     _packageJson := _packageJson Sample.provider;
     _addonLoader := _addonLoader Sample.provider |}.

End SampleMore.
(** * Properties *)

(** ** Sets of tags *)

Lemma includes_true x l : Js.includes x l = true ↔ x ∈ l.
Proof.
  unfold Js.includes. rewrite existsb_exists. split.
  - intros (y & Hy & Heq). apply String.eqb_eq in Heq. subst.
    by apply list_elem_of_In.
  - intros H. exists x. split; [by apply list_elem_of_In | apply String.eqb_refl].
Qed.

Lemma includes_false x l : Js.includes x l = false ↔ x ∉ l.
Proof.
  rewrite <- includes_true. destruct (Js.includes x l); split; congruence.
Qed.

Lemma filter_all {A} (P : A → Prop) `{!∀ x, Decision (P x)} (l : list A) :
  (∀ x, x ∈ l → P x) → filter P l = l.
Proof.
  induction l as [|y r IH]; intros Hall; [done|].
  rewrite filter_cons_True by (apply Hall; left).
  f_equal. apply IH. intros x Hx. apply Hall. by right.
Qed.

Lemma firstOccurrences_elem x l : x ∈ firstOccurrences l ↔ x ∈ l.
Proof.
  induction l as [|y r IH]; simpl; [done|].
  rewrite !elem_of_cons, list_elem_of_filter, IH.
  destruct (decide (x = y)); tauto.
Qed.

Lemma firstOccurrences_NoDup l : NoDup (firstOccurrences l).
Proof.
  induction l as [|y r IH]; simpl; [constructor|].
  constructor.
  - rewrite list_elem_of_filter. tauto.
  - by apply NoDup_filter.
Qed.

Lemma Set_add_fold l acc :
  fold_left Js.Set_add l acc
  = acc ++ filter (fun y => y ∉ acc) (firstOccurrences l).
Proof.
  revert acc. induction l as [|x r IH]; intros acc; simpl.
  - by rewrite app_nil_r.
  - rewrite IH. unfold Js.Set_add.
    destruct (Js.includes x acc) eqn:Hx.
    + apply includes_true in Hx.
      rewrite filter_cons_False by tauto.
      rewrite list_filter_filter. f_equal.
      apply list_filter_iff. intros y. split; [|tauto].
      intros Hy. split; [done|]. intros ->. done.
    + apply includes_false in Hx.
      rewrite filter_cons_True by done.
      rewrite <- app_assoc. simpl. do 2 f_equal.
      rewrite list_filter_filter. apply list_filter_iff. intros y.
      rewrite elem_of_app, list_elem_of_singleton. tauto.
Qed.

Lemma Set_from_firstOccurrences l : Js.Set_from l = firstOccurrences l.
Proof.
  unfold Js.Set_from. rewrite Set_add_fold. simpl.
  apply filter_all. intros x _. apply not_elem_of_nil.
Qed.

(** ** Type inference *)

Lemma getGCCType_array array :
  Defines.getGCCType (VArray array)
  = "Array<" +:+ Defines.getArrayContentsType array +:+ ">".
Proof. reflexivity. Qed.

(** C5: the inferred tag of a value, shape by shape: [Function] for a
    function, [null] for null, [Array<*>] for the empty array,
    [Array<T>] for any other array with [T] the element tags joined by
    a pipe, each tag once, [Object] for a plain object, and the
    [typeof] tag for the other primitives. *)
Theorem getGCCType_by_shape :
  (∀ text, Defines.getGCCType (VFunction text) = "Function") ∧
  Defines.getGCCType VNull = "null" ∧
  Defines.getGCCType (VArray []) = "Array<*>" ∧
  (∀ x array,
      ∃ tags,
        Defines.getGCCType (VArray (x :: array))
        = "Array<" +:+ Js.join "|" tags +:+ ">" ∧
        NoDup tags ∧
        ∀ tag, tag ∈ tags ↔ tag ∈ map Defines.getGCCType (x :: array)) ∧
  (∀ entries, Defines.getGCCType (VObject entries) = "Object") ∧
  Defines.getGCCType VUndefined = "undefined" ∧
  (∀ b, Defines.getGCCType (VBool b) = "boolean") ∧
  (∀ n, Defines.getGCCType (VNumber n) = "number") ∧
  (∀ s, Defines.getGCCType (VString s) = "string") ∧
  (∀ v, match v with
        | VUndefined | VBool _ | VNumber _ | VString _ =>
            Defines.getGCCType v = typeof v
        | _ => True
        end).
Proof.
  repeat split; try reflexivity.
  - intros x array.
    exists (firstOccurrences (map Defines.getGCCType (x :: array))).
    split; [|split].
    + rewrite getGCCType_array. unfold Defines.getArrayContentsType.
      cbn [length Nat.eqb]. by rewrite Set_from_firstOccurrences.
    + apply firstOccurrences_NoDup.
    + intros tag. apply firstOccurrences_elem.
  - intros v. by destruct v.
Qed.

(** The element type of a non-empty array lists the tags of its
    elements in the order of their first occurrence. *)
Lemma getArrayContentsType_first_occurrence x array :
  Defines.getArrayContentsType (x :: array)
  = Js.join "|" (firstOccurrences (map Defines.getGCCType (x :: array))).
Proof.
  unfold Defines.getArrayContentsType. cbn [length Nat.eqb].
  by rewrite Set_from_firstOccurrences.
Qed.


(** ** The order of the platforms *)






(** ** Paths *)

Lemma split_nonempty c s : Js.split c s ≠ [].
Proof.
  destruct s as [|a r]; simpl; [done|].
  destruct (Ascii.eqb a c); [done|]. by destruct (Js.split c r).
Qed.

Lemma split_plain s : hasSlash s = false → Js.split "/" s = [s].
Proof.
  induction s as [|a r IH]; simpl; [done|].
  intros H. apply orb_false_iff in H as [Ha Hr].
  unfold Path.isSlash in Ha. rewrite Ha, (IH Hr). done.
Qed.

Lemma split_app a b :
  Js.split "/" (a +:+ "/" +:+ b) = Js.split "/" a ++ Js.split "/" b.
Proof.
  induction a as [|c a IH]; simpl; [done|].
  destruct (Ascii.eqb c "/"); simpl.
  - by rewrite <- IH.
  - change (String.app a (String "/" b)) with (a +:+ "/" +:+ b).
    rewrite IH.
    destruct (Js.split "/" a) as [|x t] eqn:Hs; [by apply split_nonempty in Hs|].
    done.
Qed.

Lemma split_no_slash s : Forall (fun x => hasSlash x = false) (Js.split "/" s).
Proof.
  induction s as [|a r IH]; simpl; [by repeat constructor|].
  destruct (Ascii.eqb a "/") eqn:Ha.
  - by constructor.
  - destruct (Js.split "/" r) as [|x t].
    + constructor; [|done]. simpl. unfold Path.isSlash. by rewrite Ha.
    + apply Forall_cons in IH as [Hx Ht]. constructor; [|done].
      simpl. unfold Path.isSlash. by rewrite Ha.
Qed.

Lemma split_join l :
  l ≠ [] → Forall (fun x => hasSlash x = false) l →
  Js.split "/" (Js.join "/" l) = l.
Proof.
  induction l as [|x [|y r] IH]; intros Hne Hall; [done| |].
  - simpl. apply split_plain. by apply Forall_cons in Hall as [? _].
  - apply Forall_cons in Hall as [Hx Hall].
    change (Js.join "/" (x :: y :: r)) with (x +:+ "/" +:+ Js.join "/" (y :: r)).
    rewrite split_app, (split_plain x Hx), IH; done.
Qed.

Lemma step_plain b acc seg : plain seg → Path.step b acc seg = seg :: acc.
Proof.
  intros (H1 & H2 & H3 & _). unfold Path.step.
  destruct (String.eqb_spec seg ""); [done|].
  destruct (String.eqb_spec seg "."); [done|].
  destruct (String.eqb_spec seg ".."); done.
Qed.

Lemma fold_step_plain b l acc :
  Forall plain l → fold_left (Path.step b) l acc = rev l ++ acc.
Proof.
  revert acc. induction l as [|x r IH]; intros acc Hall; [done|].
  apply Forall_cons in Hall as [Hx Hall]. simpl.
  rewrite step_plain, IH by done. by rewrite <- app_assoc.
Qed.

Lemma normalizeSegments_plain b l :
  Forall plain l → Path.normalizeSegments b l = l.
Proof.
  intros Hall. unfold Path.normalizeSegments.
  rewrite fold_step_plain by done. by rewrite app_nil_r, rev_involutive.
Qed.

Lemma normalizeSegments_snoc b l f :
  plain f → Path.normalizeSegments b (l ++ [f]) = Path.normalizeSegments b l ++ [f].
Proof.
  intros Hf. unfold Path.normalizeSegments.
  rewrite fold_left_app. simpl. by rewrite step_plain.
Qed.

Lemma step_keeps_plain acc seg :
  hasSlash seg = false → Forall plain acc → Forall plain (Path.step false acc seg).
Proof.
  intros Hs Hacc. unfold Path.step.
  destruct (String.eqb_spec seg ""); [done|].
  destruct (String.eqb_spec seg "."); [done|]. simpl.
  destruct (String.eqb_spec seg "..").
  - destruct acc as [|x acc]; [done|].
    destruct (String.eqb x ".."); [done|]. by apply Forall_cons in Hacc as [_ ?].
  - by constructor.
Qed.

Lemma normalizeSegments_gives_plain l :
  Forall (fun x => hasSlash x = false) l →
  Forall plain (Path.normalizeSegments false l).
Proof.
  intros Hall. unfold Path.normalizeSegments.
  apply Forall_rev.
  assert (Hgen : ∀ acc, Forall plain acc →
                        Forall plain (fold_left (Path.step false) l acc)).
  { induction Hall as [|x r Hx Hr IH]; intros acc Hacc; [done|].
    simpl. apply IH. by apply step_keeps_plain. }
  apply Hgen. constructor.
Qed.

Lemma segments_plain p : Forall plain (Path.segments p).
Proof. apply normalizeSegments_gives_plain, split_no_slash. Qed.

Lemma stripSuffix_cons c s t :
  Js.stripSuffix (String c s) t
  = if String.eqb (String c s) t then Some ""
    else String c <$> Js.stripSuffix s t.
Proof. reflexivity. Qed.

Lemma stripSuffix_slash_plain s :
  hasSlash s = false → Js.stripSuffix s "/" = None.
Proof.
  induction s as [|a r IH]; [done|].
  simpl hasSlash. intros H. apply orb_false_iff in H as [Ha Hr].
  rewrite stripSuffix_cons, (IH Hr).
  destruct (String.eqb_spec (String a r) "/") as [Heq|_]; [|done].
  injection Heq as -> ->. done.
Qed.

Lemma string_length_app a b :
  String.length (a +:+ b) = (String.length a + String.length b)%nat.
Proof. induction a as [|c a IH]; simpl; [done | by rewrite IH]. Qed.

Lemma endsWith_app a b t :
  b ≠ "" → t ≠ "" → (String.length t <= String.length b)%nat →
  Js.endsWith (a +:+ b) t = Js.endsWith b t.
Proof.
  intros Hb Ht Hlen. induction a as [|c a IH]; [done|].
  unfold Js.endsWith in *.
  change (String c a +:+ b) with (String c (a +:+ b)).
  rewrite stripSuffix_cons.
  destruct (String.eqb_spec (String c (a +:+ b)) t) as [Heq|_].
  - exfalso. apply (f_equal String.length) in Heq.
    simpl in Heq. rewrite string_length_app in Heq. lia.
  - rewrite <- IH. by destruct (Js.stripSuffix (a +:+ b) t).
Qed.

Lemma join_nonempty l x :
  x ≠ "" → Js.join "/" (l ++ [x]) ≠ "".
Proof.
  intros Hx. induction l as [|y [|z r] IH]; simpl in *.
  - done.
  - by destruct y.
  - by destruct y.
Qed.

Lemma endsWith_slash_join l x :
  plain x → Js.endsWith (Js.join "/" (l ++ [x])) "/" = false.
Proof.
  intros Hx. pose proof Hx as (Hne & _ & _ & Hs).
  induction l as [|y r IH].
  - simpl. unfold Js.endsWith. by rewrite stripSuffix_slash_plain.
  - destruct (r ++ [x]) as [|z t] eqn:Hr; [by destruct r|].
    change (Js.join "/" ((y :: r) ++ [x])) with (Js.join "/" (y :: r ++ [x])).
    rewrite Hr. change (Js.join "/" (y :: z :: t)) with (y +:+ "/" +:+ Js.join "/" (z :: t)).
    rewrite <- Hr in *.
    assert (Hj := join_nonempty r x Hne).
    change (y +:+ "/" +:+ Js.join "/" (r ++ [x]))
      with (y +:+ ("/" +:+ Js.join "/" (r ++ [x]))).
    rewrite endsWith_app; [|done|done|simpl; lia].
    destruct (Js.join "/" (r ++ [x])) as [|c w] eqn:Hw; [done|].
    unfold Js.endsWith in *.
    change ("/" +:+ String c w) with (String "/" (String c w)).
    rewrite stripSuffix_cons.
    destruct (String.eqb_spec (String "/" (String c w)) "/"); [done|].
    by destruct (Js.stripSuffix (String c w) "/").
Qed.

Lemma stripSuffix_app a t : Js.stripSuffix (a +:+ t) t = Some a.
Proof.
  induction a as [|c a IH].
  - simpl. destruct t; simpl; [done|].
    by rewrite Ascii.eqb_refl, String.eqb_refl.
  - change (String c a +:+ t) with (String c (a +:+ t)).
    rewrite stripSuffix_cons, IH.
    destruct (String.eqb_spec (String c (a +:+ t)) t) as [Heq|_]; [|done].
    apply (f_equal String.length) in Heq. simpl in Heq.
    rewrite string_length_app in Heq. lia.
Qed.

Lemma endsWith_suffix a t : Js.endsWith (a +:+ t) t = true.
Proof. unfold Js.endsWith. by rewrite stripSuffix_app. Qed.

Lemma isAbsolute_join y r :
  plain y → Path.isAbsolute (Js.join "/" (y :: r)) = false.
Proof.
  intros (Hne & _ & _ & Hs). destruct y as [|c y]; [done|].
  simpl in Hs. apply orb_false_iff in Hs as [Hc _].
  destruct r; simpl; exact Hc.
Qed.

Lemma normalize_plain_relative l x :
  Forall plain (l ++ [x]) →
  Path.normalize (Js.join "/" (l ++ [x])) = Js.join "/" (l ++ [x]).
Proof.
  intros Hall.
  assert (Hx : plain x).
  { apply Forall_app in Hall as [_ Hx]. by apply Forall_cons in Hx as [? _]. }
  assert (Hne : Js.join "/" (l ++ [x]) ≠ "") by (apply join_nonempty, Hx).
  assert (Hslash : Forall (fun s => hasSlash s = false) (l ++ [x])).
  { eapply Forall_impl; [exact Hall|]. by intros s (_ & _ & _ & ?). }
  unfold Path.normalize.
  destruct (String.eqb_spec (Js.join "/" (l ++ [x])) ""); [done|].
  rewrite endsWith_slash_join by done.
  rewrite split_join by (done || by destruct l).
  assert (Habs : Path.isAbsolute (Js.join "/" (l ++ [x])) = false).
  { destruct l as [|y r]; [apply (isAbsolute_join x []), Hx|].
    apply isAbsolute_join. by apply Forall_cons in Hall as [? _]. }
  rewrite Habs. simpl negb. rewrite normalizeSegments_plain by done.
  destruct (String.eqb_spec (Js.join "/" (l ++ [x])) ""); done.
Qed.

Lemma stripCommon_prefix xs rest : Path.stripCommon xs (xs ++ rest) = ([], rest).
Proof.
  induction xs as [|x xs IH]; simpl; [by destruct rest|].
  by rewrite String.eqb_refl.
Qed.

Lemma join_cons_nonempty x l :
  l ≠ [] → Js.join "/" (x :: l) = x +:+ "/" +:+ Js.join "/" l.
Proof. by destruct l. Qed.

(** C7, as stated, fails on the sample project: the path rendered is
    [app/main], the entry module relative to the source root is
    [main]. *)
Lemma appPath_not_relative :
  appPath Sample.provider = "app/main" ∧
  entryRelativePath Sample.provider = "main" ∧
  appPath Sample.provider ≠ entryRelativePath Sample.provider.
Proof. repeat split; vm_compute; congruence. Qed.

(** ** The file system *)

Lemma normalize_absolute_join root n :
  Path.isAbsolute root = true → plain n →
  Path.join root n = "/" +:+ Js.join "/" (Path.segments root ++ [n]).
Proof.
  intros Habs Hn. pose proof Hn as (Hne & _ & _ & Hs).
  destruct root as [|c root]; [done|].
  unfold Path.join.
  destruct (String.eqb_spec (String c root) ""); [done|].
  destruct (String.eqb_spec n ""); [done|].
  unfold Path.normalize.
  destruct (String.eqb_spec (String c root +:+ "/" +:+ n) ""); [done|].
  change (Path.isAbsolute (String c root +:+ "/" +:+ n))
    with (Path.isAbsolute (String c root)).
  rewrite Habs. simpl negb.
  assert (Hend : Js.endsWith (String c root +:+ "/" +:+ n) "/" = false).
  { rewrite endsWith_app; [|done|done|simpl; lia].
    rewrite (endsWith_app "/" n);
      [|done|done|destruct n; [done|simpl; lia]].
    unfold Js.endsWith. by rewrite stripSuffix_slash_plain. }
  rewrite Hend, split_app, (split_plain n Hs), normalizeSegments_snoc by done.
  fold (Path.segments (String c root)).
  destruct (String.eqb_spec (Js.join "/" (Path.segments (String c root) ++ [n])) "")
    as [He|_]; [by apply join_nonempty in He|].
  reflexivity.
Qed.

Lemma segments_slash_join N :
  Forall plain N → Path.segments ("/" +:+ Js.join "/" N) = N.
Proof.
  intros Hall. destruct (decide (N = [])) as [->|Hne]; [done|].
  unfold Path.segments.
  change ("/" +:+ Js.join "/" N) with ("" +:+ "/" +:+ Js.join "/" N).
  rewrite split_app, split_join; [|done|].
  - change (Js.split "/" "" ++ N) with ("" :: N).
    unfold Path.normalizeSegments. simpl fold_left.
    change (Path.step false [] "") with (@nil string).
    by apply normalizeSegments_plain.
  - eapply Forall_impl; [exact Hall|]. by intros s (_ & _ & _ & ?).
Qed.

Lemma segments_join_plain root n :
  Path.isAbsolute root = true → plain n →
  Path.segments (Path.join root n) = Path.segments root ++ [n].
Proof.
  intros Habs Hn. rewrite normalize_absolute_join by done.
  apply segments_slash_join. apply Forall_app. split.
  - apply segments_plain.
  - by constructor.
Qed.

Lemma join_plain_no_slash root n :
  Path.isAbsolute root = true → plain n →
  Js.endsWith (Path.join root n) "/" = false.
Proof.
  intros Habs Hn. rewrite normalize_absolute_join by done.
  pose proof (join_nonempty (Path.segments root) n (proj1 Hn)) as Hne.
  rewrite endsWith_app; [by apply endsWith_slash_join|done|done|].
  destruct (Js.join "/" (Path.segments root ++ [n])); [done|simpl; lia].
Qed.

(** What a path names is the entry at its segments, but for a regular
    file under a path with a trailing separator. *)
Lemma named_dir (p : string) (d : gmap (list string) entry) :
  Fs.lookup d (Path.segments p) = Some EDir → Fs.named p d = Ok EDir.
Proof. intros H. unfold Fs.named. by rewrite H. Qed.

Lemma named_at (p : string) (d : gmap (list string) entry) (e : entry) :
  Fs.lookup d (Path.segments p) = Some e →
  Js.endsWith p "/" = false →
  Fs.named p d = Ok e.
Proof. intros H Hend. unfold Fs.named. rewrite H, Hend. by destruct e. Qed.

Lemma named_Ok (p : string) (d : gmap (list string) entry) (e : entry) :
  Fs.named p d = Ok e →
  Fs.lookup d (Path.segments p) = Some e ∧
  (Fs.isFile e = true → Js.endsWith p "/" = false).
Proof.
  unfold Fs.named.
  destruct (Fs.lookup d (Path.segments p)) as [[c|]|]; [|by intros [= <-]|done].
  destruct (Js.endsWith p "/"); [done|]. by intros [= <-].
Qed.

Lemma named_missing (p : string) (d : gmap (list string) entry) :
  Fs.lookup d (Path.segments p) = None → Fs.existsSync p d = false.
Proof. intros H. unfold Fs.existsSync, Fs.named. by rewrite H. Qed.

Lemma existsSync_true (p : string) (d : gmap (list string) entry) :
  Fs.existsSync p d = true → ∃ e, Fs.named p d = Ok e.
Proof.
  unfold Fs.existsSync. destruct (Fs.named p d) as [e|]; [by exists e|done].
Qed.

Lemma fileAt_insert_file d k content k' :
  k ≠ [] →
  fileAt (<[k := EFile content]> d) k'
  = if decide (k = k') then Some content else fileAt d k'.
Proof.
  intros Hk. unfold fileAt, Fs.lookup.
  destruct k' as [|x k'].
  - by rewrite decide_False.
  - destruct (decide (k = x :: k')) as [->|Hne].
    + by rewrite lookup_insert_eq.
    + by rewrite lookup_insert_ne.
Qed.

Lemma fileAt_insert_dir d k k' :
  d !! k = None → fileAt (<[k := EDir]> d) k' = fileAt d k'.
Proof.
  intros Hk. unfold fileAt, Fs.lookup. destruct k' as [|x k']; [done|].
  destruct (decide (k = x :: k')) as [->|Hne].
  - by rewrite lookup_insert_eq, Hk.
  - by rewrite lookup_insert_ne.
Qed.

Lemma mkdirs_files above todo d d' :
  Fs.mkdirs above todo d = Ok d' → ∀ k, fileAt d' k = fileAt d k.
Proof.
  revert above d. induction todo as [|seg rest IH]; intros above d H k.
  - by injection H as ->.
  - simpl in H. destruct (d !! (above ++ [seg])) as [[c|]|] eqn:Hd.
    + by destruct rest.
    + by apply (IH _ _ H).
    + rewrite (IH _ _ H). by apply fileAt_insert_dir.
Qed.

Lemma writeFileSync_ok p content d d' :
  Fs.writeFileSync p content d = Ok d' →
  Path.segments p ≠ [] ∧ d' = <[Path.segments p := EFile content]> d.
Proof.
  unfold Fs.writeFileSync.
  destruct (Path.segments p) as [|x k]; [done|].
  destruct (Fs.lookup d (Fs.parent (x :: k))) as [[c|]|]; try done.
  destruct (d !! (x :: k)) as [[c|]|]; try done;
    destruct (Js.endsWith p "/"); try done;
    intros H; by injection H as <-.
Qed.

(** ** Writes *)

Lemma andThen_assoc o f g : o ;;; f ;;; g = o ;;; (fun st => f st ;;; g).
Proof. by destruct o. Qed.

Lemma forEach_app {A} (body : A → state → outcome) l1 l2 st :
  forEach body (l1 ++ l2) st = forEach body l1 st ;;; forEach body l2.
Proof.
  revert st. induction l1 as [|x l1 IH]; intros st; [done|].
  simpl. destruct (body x st) as [st1|e st1]; simpl; [apply IH | done].
Qed.

Lemma lastWritten_app this w1 w2 k :
  lastWritten this (w1 ++ w2) k
  = match lastWritten this w2 k with
    | Some content => Some content
    | None => lastWritten this w1 k
    end.
Proof.
  induction w1 as [|kv w1 IH]; simpl.
  - by destruct (lastWritten this w2 k).
  - rewrite IH. by destruct (lastWritten this w2 k).
Qed.

Lemma wrote_nil this st st' :
  (∀ k, fileAt (disk st') k = fileAt (disk st) k) →
  _files st' = _files st → emitted st' = emitted st →
  wrote this [] st st'.
Proof.
  intros Hd Hf He. split; [exact Hd|]. split; [exact Hf|].
  by rewrite He, app_nil_r.
Qed.

Lemma wrote_refl this st : wrote this [] st st.
Proof. by apply wrote_nil. Qed.

Lemma wrote_app this w1 w2 st st1 st2 :
  wrote this w1 st st1 → wrote this w2 st1 st2 → wrote this (w1 ++ w2) st st2.
Proof.
  intros (Hd1 & Hf1 & He1) (Hd2 & Hf2 & He2). split; [|split].
  - intros k. rewrite Hd2, lastWritten_app, Hd1.
    by destruct (lastWritten this w2 k).
  - by rewrite Hf2, Hf1, map_app, fold_left_app.
  - rewrite He2, He1. unfold eventsOf.
    by rewrite flat_map_app, app_assoc.
Qed.

(** One call of [_writeFile]: it writes its file and returns, or it
    throws before any file is written. *)
Lemma writeFile_outcome this src content st :
  match _writeFile this src content st with
  | Returned st' => wrote this [(src, content)] st st'
  | Threw _ st' => wrote this [] st st'
  end.
Proof.
  unfold _writeFile.
  set (filename := Path.join (_root this) src).
  set (dir := Path.dirname filename).
  assert (Hdir :
    match (if Fs.existsSync dir (disk st) then Returned st
           else onDisk (Fs.ensureDirSync dir) st) with
    | Returned st1 | Threw _ st1 => wrote this [] st st1
    end).
  { destruct (Fs.existsSync dir (disk st)); [apply wrote_refl|].
    unfold onDisk. destruct (Fs.ensureDirSync dir (disk st)) as [d1|e] eqn:Hmk;
      [|apply wrote_refl].
    apply wrote_nil; try done. intros k. simpl.
    by apply (mkdirs_files _ _ _ _ Hmk). }
  destruct (if Fs.existsSync dir (disk st) then Returned st
            else onDisk (Fs.ensureDirSync dir) st) as [st1|e st1];
    simpl; [|exact Hdir].
  unfold onDisk.
  destruct (Fs.writeFileSync filename content (disk st1)) as [d2|e] eqn:Hw;
    simpl; [|exact Hdir].
  apply writeFileSync_ok in Hw as [Hk ->].
  destruct Hdir as (Hd & Hf & He). simpl in Hd, Hf, He.
  rewrite app_nil_r in He.
  split; [|split].
  - intros k. simpl lastWritten. unfold keyOf, filenameOf. fold filename.
    rewrite <- Hd.
    destruct (Js.includes filename (_files st1)); simpl.
    all: rewrite fileAt_insert_file by done.
    all: by destruct (decide (Path.segments filename = k)).
  - simpl. unfold filenameOf, Js.Set_add. fold filename. rewrite <- Hf.
    by destruct (Js.includes filename (_files st1)).
  - unfold eventsOf, filenameOf. simpl. fold filename. rewrite <- He.
    destruct (Js.includes filename (_files st1)); simpl;
      by rewrite <- app_assoc.
Qed.

Lemma writeFileSync_no_slash p content d d' :
  Fs.writeFileSync p content d = Ok d' → Js.endsWith p "/" = false.
Proof.
  unfold Fs.writeFileSync.
  destruct (Path.segments p) as [|x k]; [done|].
  destruct (Fs.lookup d (Fs.parent (x :: k))) as [[c|]|]; try done.
  destruct (d !! (x :: k)) as [[c|]|]; try done;
    by destruct (Js.endsWith p "/").
Qed.

(** A path [_writeFile] has written at has no trailing separator. *)
Lemma writeFile_no_slash this src content st st' :
  _writeFile this src content st = Returned st' →
  Js.endsWith (filenameOf this src) "/" = false.
Proof.
  unfold _writeFile. fold (filenameOf this src).
  destruct (if Fs.existsSync (Path.dirname (filenameOf this src)) (disk st)
            then Returned st
            else onDisk (Fs.ensureDirSync (Path.dirname (filenameOf this src)))
                   st) as [st1|e st1]; [|done].
  cbn [andThen]. unfold onDisk at 1.
  destruct (Fs.writeFileSync (filenameOf this src) content (disk st1))
    as [d2|e] eqn:Hw; [|done].
  intros _. by apply writeFileSync_no_slash in Hw.
Qed.

(** Reading a path is reading the file at its segments, but for a
    path with a trailing separator, which names no file. *)
Lemma readFile_fileAt p d :
  Fs.readFile p d
  = if Js.endsWith p "/" then None else fileAt d (Path.segments p).
Proof.
  unfold Fs.readFile, Fs.named, fileAt.
  destruct (Fs.lookup d (Path.segments p)) as [[c|]|];
    by destruct (Js.endsWith p "/").
Qed.

Lemma readFile_filename this src d :
  Js.endsWith (filenameOf this src) "/" = false →
  Fs.readFile (filenameOf this src) d = fileAt d (keyOf this src).
Proof. intros H. by rewrite readFile_fileAt, H. Qed.

(** A run of writes: all of them when it returns, the first few of them
    when it throws. *)
Lemma forEach_writes this l st :
  match forEach (fun kv => _writeFile this kv.1 kv.2) l st with
  | Returned st' => wrote this l st st'
  | Threw _ st' => ∃ done rest, l = done ++ rest ∧ wrote this done st st'
  end.
Proof.
  revert st. induction l as [|[src content] l IH]; intros st.
  - apply wrote_refl.
  - simpl. pose proof (writeFile_outcome this src content st) as H1.
    destruct (_writeFile this src content st) as [st1|e st1]; simpl.
    + specialize (IH st1).
      destruct (forEach _ l st1) as [st2|e st2].
      * apply (wrote_app this [(src, content)] l _ _ _ H1 IH).
      * destruct IH as (done & rest & -> & Hw).
        exists ((src, content) :: done), rest. split; [done|].
        apply (wrote_app this [(src, content)] done _ _ _ H1 Hw).
    + exists [], ((src, content) :: l). by split.
Qed.

Lemma generateExtensionsCode_writes this st :
  generateExtensionsCode this st
  = forEach (fun kv => _writeFile this kv.1 kv.2) (extensionWrites this) st.
Proof.
  unfold generateExtensionsCode, extensionWrites. revert st.
  induction (AddonLoader.getExtensions (_addonLoader this)) as [|x l IH];
    intros st; [done|].
  simpl. rewrite forEach_app. unfold _writeSources at 1.
  destruct (forEach _ (_resolveAddonRelativeSources x _) st); simpl; [|done].
  apply IH.
Qed.

Lemma generating_writes this st :
  generateBaseApp this st ;;; generateExtensionsCode this ;;;
  generateDefines this
  = forEach (fun kv => _writeFile this kv.1 kv.2) (buildWrites this) st.
Proof.
  unfold buildWrites. rewrite forEach_app.
  unfold generateBaseApp, generateDefines, baseAppWrites, definesWrites.
  simpl forEach.
  destruct (_writeFile this "base-application.js" _ st) as [s1|e s1];
    simpl; [|reflexivity].
  destruct (_writeFile this "app.js" _ s1) as [s2|e s2]; simpl; [|reflexivity].
  destruct (_writeFile this "package-info.js" _ s2) as [s3|e s3];
    simpl; [|reflexivity].
  rewrite forEach_app, generateExtensionsCode_writes.
  destruct (forEach _ (extensionWrites this) s3) as [s4|e s4];
    simpl; [|reflexivity].
  by destruct (_writeFile this "define.js" _ s4).
Qed.

Lemma lastWritten_none this writes k :
  k ∉ map (fun kv => keyOf this kv.1) writes → lastWritten this writes k = None.
Proof.
  induction writes as [|kv r IH]; [done|].
  simpl. rewrite not_elem_of_cons. intros [Hne Hr].
  rewrite (IH Hr). by rewrite decide_False.
Qed.

Lemma lastWritten_some this writes kv :
  kv ∈ writes → is_Some (lastWritten this writes (keyOf this kv.1)).
Proof.
  induction writes as [|kv' r IH]; intros Hin.
  - by apply elem_of_nil in Hin.
  - simpl. apply elem_of_cons in Hin as [->|Hin].
    + destruct (lastWritten this r (keyOf this kv'.1)); [done|].
      by rewrite decide_True.
    + destruct (IH Hin) as [c ->]. done.
Qed.

Lemma lastWritten_last this writes src content :
  lastWritten this (writes ++ [(src, content)]) (keyOf this src) = Some content.
Proof. rewrite lastWritten_app. simpl. by rewrite decide_True. Qed.

Lemma buildCode_unfold this st :
  buildCode this st
  = clean this st ;;; forEach (fun kv => _writeFile this kv.1 kv.2) (buildWrites this).
Proof.
  unfold buildCode. destruct (clean this st) as [sa|e sa]; simpl; [|done].
  apply generating_writes.
Qed.

(** ** Cleaning a root that is not there *)

(** C9: when the output root does not exist, [clean] returns without
    throwing and leaves the disk, and the whole state, as it was. *)
Theorem clean_missing_root (this : t) (st : state) :
  Fs.pathExistsSync (_root this) (disk st) = false →
  clean this st = Returned st.
Proof. intros H. unfold clean. by rewrite H. Qed.

Lemma clean_missing_root_witness :
  clean Sample.provider (initial Sample.bare) = Returned (initial Sample.bare).
Proof.
  apply (clean_missing_root Sample.provider (initial Sample.bare)).
  vm_compute. reflexivity.
Defined.

(** ** The [define] module *)



(** ** The sources of an extension *)

Lemma elem_of_Obj_put k v o kv :
  kv ∈ Obj.put k v o → kv = (k, v) ∨ kv ∈ o.
Proof.
  induction o as [|[k' v'] r IH]; simpl.
  - rewrite list_elem_of_singleton. tauto.
  - destruct (String.eqb k' k); rewrite !elem_of_cons; tauto.
Qed.

Lemma keys_Obj_put k v o k' :
  k' ∈ Obj.keys (Obj.put k v o) ↔ k' = k ∨ k' ∈ Obj.keys o.
Proof.
  unfold Obj.keys. induction o as [|[k1 v1] r IH]; simpl.
  - rewrite list_elem_of_singleton, elem_of_nil. tauto.
  - destruct (String.eqb_spec k1 k) as [->|Hne]; simpl;
      rewrite !elem_of_cons; [tauto|]. rewrite IH. tauto.
Qed.

Lemma elem_of_insertIndex n k v o kv :
  kv ∈ Obj.insertIndex n k v o ↔ kv = (k, v) ∨ kv ∈ o.
Proof.
  induction o as [|[k' v'] r IH]; simpl.
  - rewrite list_elem_of_singleton, elem_of_nil. tauto.
  - destruct (Obj.arrayIndex k') as [m|]; [destruct (m <? n)%N|];
      rewrite !elem_of_cons, ?IH; tauto.
Qed.

Lemma keys_insertIndex n k v o k' :
  k' ∈ Obj.keys (Obj.insertIndex n k v o) ↔ k' = k ∨ k' ∈ Obj.keys o.
Proof.
  unfold Obj.keys. induction o as [|[k1 v1] r IH]; simpl.
  - rewrite list_elem_of_singleton, elem_of_nil. tauto.
  - destruct (Obj.arrayIndex k1) as [m|]; [destruct (m <? n)%N|];
      simpl; rewrite !elem_of_cons, ?IH; simpl; tauto.
Qed.

Lemma elem_of_Obj_set k v o kv :
  kv ∈ Obj.set k v o → kv = (k, v) ∨ kv ∈ o.
Proof.
  unfold Obj.set. destruct (String.eqb k "__proto__"); [tauto|].
  destruct (Obj.arrayIndex k) as [n|];
    [destruct (Js.includes k (Obj.keys o))|].
  - apply elem_of_Obj_put.
  - apply elem_of_insertIndex.
  - apply elem_of_Obj_put.
Qed.

(** The keys after [Object.assign(o, {[k]: v})]: those of [o], and [k]
    unless it is [__proto__]. *)
Lemma keys_Obj_set k v o k' :
  k' ∈ Obj.keys (Obj.set k v o) ↔
  (k' = k ∧ k ≠ "__proto__") ∨ k' ∈ Obj.keys o.
Proof.
  unfold Obj.set. destruct (String.eqb_spec k "__proto__") as [->|Hne].
  - tauto.
  - destruct (Obj.arrayIndex k) as [n|];
      [destruct (Js.includes k (Obj.keys o))|];
      rewrite ?keys_Obj_put, ?keys_insertIndex; tauto.
Qed.

Lemma resolve_keys addon sources path :
  path ∈ Obj.keys (_resolveAddonRelativeSources addon sources) ↔
  path ≠ "__proto__" ∧
  ∃ filePath, filePath ∈ Obj.keys sources ∧
              path = Path.join (Extension.getName addon) filePath.
Proof.
  unfold _resolveAddonRelativeSources.
  assert (Hgen : ∀ acc,
    path ∈ Obj.keys
             (fold_left
                (fun result kv =>
                   Obj.set (Path.join (Extension.getName addon) kv.1) kv.2
                     result) sources acc) ↔
    path ∈ Obj.keys acc ∨
    (path ≠ "__proto__" ∧
     ∃ filePath, filePath ∈ Obj.keys sources ∧
                 path = Path.join (Extension.getName addon) filePath)).
  { induction sources as [|[k v] r IH]; intros acc; simpl.
    - split; [tauto|]. intros [H|(_ & f & Hf & _)]; [done|].
      by apply elem_of_nil in Hf.
    - rewrite IH, keys_Obj_set. split.
      + intros [[[-> Hne]|H]|(Hne & f & Hf & ->)]; [right|by left|right].
        * split; [done|]. exists k. split; [apply elem_of_cons; by left | done].
        * split; [done|]. exists f. split; [apply elem_of_cons; by right | done].
      + intros [H|(Hne & f & Hf & ->)]; [tauto|].
        apply elem_of_cons in Hf as [->|Hf]; [tauto|].
        right. split; [done|]. by exists f. }
  rewrite Hgen. unfold Obj.keys at 1. simpl. rewrite elem_of_nil.
  split; [intros [[]|H]; exact H | tauto].
Qed.

Lemma resolve_entries addon sources path content :
  (path, content) ∈ _resolveAddonRelativeSources addon sources →
  ∃ filePath, (filePath, content) ∈ sources ∧
              path = Path.join (Extension.getName addon) filePath.
Proof.
  unfold _resolveAddonRelativeSources.
  assert (Hgen : ∀ acc,
    (path, content) ∈
      fold_left
        (fun result kv =>
           Obj.set (Path.join (Extension.getName addon) kv.1) kv.2 result)
        sources acc →
    (path, content) ∈ acc ∨
    ∃ filePath, (filePath, content) ∈ sources ∧
                path = Path.join (Extension.getName addon) filePath).
  { induction sources as [|[k v] r IH]; intros acc; simpl; [tauto|].
    intros H. apply IH in H as [H|(f & Hf & ->)].
    - apply elem_of_Obj_set in H as [H|H]; [|tauto].
      injection H as -> ->. right. exists k.
      split; [apply elem_of_cons; by left | done].
    - right. exists f. split; [apply elem_of_cons; by right | done]. }
  intros H. apply Hgen in H as [H|H]; [by apply elem_of_nil in H | exact H].
Qed.

Lemma forEach_writes_done this l st :
  ∃ done rest,
    l = done ++ rest ∧
    wrote this done st
      (stateOf (forEach (fun kv => _writeFile this kv.1 kv.2) l st)) ∧
    (returned (forEach (fun kv => _writeFile this kv.1 kv.2) l st) = true →
     rest = []).
Proof.
  pose proof (forEach_writes this l st) as H.
  destruct (forEach _ l st) as [st'|e st']; simpl.
  - exists l, []. rewrite app_nil_r. split; [done|]. split; [exact H|done].
  - destruct H as (done & rest & -> & Hw). exists done, rest.
    split; [done|]. split; [exact Hw|]. intros Hf. discriminate.
Qed.

Lemma wrote_files_grow this done st st' :
  wrote this done st st' →
  ∃ added, _files st' = _files st ++ added ∧
           (NoDup (_files st) → NoDup (_files st')).
Proof.
  intros (_ & Hf & _). rewrite Set_add_fold in Hf.
  eexists. split; [exact Hf|]. intros Hnd. rewrite Hf.
  apply NoDup_app. split; [done|]. split.
  - intros x Hx Hx'. apply list_elem_of_filter in Hx' as [Hx' _]. done.
  - apply NoDup_filter, firstOccurrences_NoDup.
Qed.

(** ** The list of written files *)

Lemma cleanEntry_files this filename st :
  _files (stateOf (cleanEntry this filename st)) = _files st ∧
  emitted (stateOf (cleanEntry this filename st)) = emitted st.
Proof.
  unfold cleanEntry.
  destruct (String.eqb (Js.charAt0 filename) "."); [done|].
  destruct (Fs.statSync _ (disk st)) as [e|err]; [|done].
  destruct (Fs.isFile e); [|done].
  unfold onDisk. by destruct (Fs.unlinkSync _ (disk st)).
Qed.

Lemma forEach_cleanEntry_files this names st :
  _files (stateOf (forEach (cleanEntry this) names st)) = _files st ∧
  emitted (stateOf (forEach (cleanEntry this) names st)) = emitted st.
Proof.
  revert st. induction names as [|n r IH]; intros st; [done|].
  simpl. pose proof (cleanEntry_files this n st) as [Hf He].
  destruct (cleanEntry this n st) as [st1|err st1]; simpl in *.
  - destruct (IH st1) as [Hf1 He1]. by rewrite Hf1, He1.
  - done.
Qed.

Lemma clean_files this st :
  (_files (stateOf (clean this st)) = [] ∨
   _files (stateOf (clean this st)) = _files st) ∧
  emitted (stateOf (clean this st)) = emitted st.
Proof.
  unfold clean.
  destruct (Fs.pathExistsSync (_root this) (disk st)); simpl; [|tauto].
  destruct (Fs.readdirSync (_root this) (disk st)) as [names|err]; [|tauto].
  pose proof (forEach_cleanEntry_files this names st) as [Hf He].
  destruct (forEach (cleanEntry this) names st) as [st1|err st1]; simpl in *.
  - tauto.
  - split; [by right | done].
Qed.

Lemma clean_returned_files this st st' :
  clean this st = Returned st' →
  Fs.pathExistsSync (_root this) (disk st) = true →
  _files st' = [] ∧ emitted st' = emitted st.
Proof.
  unfold clean. intros H Hex. rewrite Hex in H. simpl in H.
  destruct (Fs.readdirSync (_root this) (disk st)) as [names|err]; [|done].
  pose proof (forEach_cleanEntry_files this names st) as [Hf He].
  destruct (forEach (cleanEntry this) names st) as [st1|err st1];
    simpl in *; [|done].
  injection H as <-. done.
Qed.

Lemma generateBaseApp_writes this st :
  generateBaseApp this st
  = forEach (fun kv => _writeFile this kv.1 kv.2) (baseAppWrites this) st.
Proof.
  unfold generateBaseApp, baseAppWrites. simpl forEach.
  destruct (_writeFile this "base-application.js" _ st) as [s1|e s1];
    simpl; [|reflexivity].
  destruct (_writeFile this "app.js" _ s1) as [s2|e s2]; simpl; [|reflexivity].
  by destruct (_writeFile this "package-info.js" _ s2).
Qed.

Lemma generateDefines_writes this st :
  generateDefines this st
  = forEach (fun kv => _writeFile this kv.1 kv.2) (definesWrites this) st.
Proof.
  unfold generateDefines, definesWrites. simpl forEach.
  by destruct (_writeFile this "define.js" _ st).
Qed.

(** A call that only writes leaves the state of some list of writes. *)
Lemma writeOnly_wrote this c st :
  writeOnly c → ∃ done, wrote this done st (stateOf (perform this c st)).
Proof.
  intros Hc. destruct c as [| | | | |extension sources]; try done; simpl.
  - rewrite generateBaseApp_writes.
    destruct (forEach_writes_done this (baseAppWrites this) st)
      as (done & _ & _ & Hw & _). by exists done.
  - rewrite generateExtensionsCode_writes.
    destruct (forEach_writes_done this (extensionWrites this) st)
      as (done & _ & _ & Hw & _). by exists done.
  - rewrite generateDefines_writes.
    destruct (forEach_writes_done this (definesWrites this) st)
      as (done & _ & _ & Hw & _). by exists done.
  - destruct (forEach_writes_done this
                (_resolveAddonRelativeSources extension sources) st)
      as (done & _ & _ & Hw & _). by exists done.
Qed.

Lemma session_writeOnly_wrote this calls st :
  Forall writeOnly calls → ∃ done, wrote this done st (session this calls st).
Proof.
  revert st. induction calls as [|c r IH]; intros st Hall.
  - exists []. apply wrote_refl.
  - apply Forall_cons in Hall as [Hc Hr]. simpl.
    destruct (writeOnly_wrote this c st Hc) as (d1 & H1).
    destruct (IH (stateOf (perform this c st)) Hr) as (d2 & H2).
    exists (d1 ++ d2). by apply (wrote_app this d1 d2 _ _ _ H1 H2).
Qed.

Lemma wrote_NoDup this done st st' :
  wrote this done st st' → NoDup (_files st) → NoDup (_files st').
Proof.
  intros Hw. destruct (wrote_files_grow this done st st' Hw) as (_ & _ & H).
  exact H.
Qed.

Lemma perform_NoDup this c st :
  NoDup (_files st) → NoDup (_files (stateOf (perform this c st))).
Proof.
  intros Hnd.
  assert (Hclean : ∀ s, NoDup (_files s) →
                        NoDup (_files (stateOf (clean this s)))).
  { intros s Hs. destruct (clean_files this s) as [[H|H] _]; rewrite H;
      [constructor | done]. }
  destruct (decide (writeOnly c)) as [Hc|Hc].
  - destruct (writeOnly_wrote this c st Hc) as (done & Hw).
    by apply (wrote_NoDup this done st _ Hw).
  - destruct c; try (exfalso; by apply Hc).
    + by apply Hclean.
    + cbn [perform]. rewrite buildCode_unfold. specialize (Hclean st Hnd).
      destruct (clean this st) as [sa|e sa]; cbn [andThen stateOf] in *;
        [|done].
      destruct (forEach_writes_done this (buildWrites this) sa)
        as (done & _ & _ & Hw & _).
      by apply (wrote_NoDup this done sa _ Hw).
Qed.

Lemma session_NoDup this calls st :
  NoDup (_files st) → NoDup (_files (session this calls st)).
Proof.
  revert st. induction calls as [|c r IH]; intros st Hnd; [done|].
  simpl. apply IH. by apply perform_NoDup.
Qed.

Lemma changedPaths_eventsOf this writes :
  changedPaths (eventsOf this writes)
  = map (fun kv => filenameOf this kv.1) writes.
Proof.
  induction writes as [|kv r IH]; [done|].
  unfold eventsOf in *. simpl. unfold changedPaths in *. simpl.
  by rewrite IH.
Qed.

(** ** Cleaning *)

Lemma below_Some R k rest : Fs.below R k = Some rest ↔ k = R ++ rest.
Proof.
  revert k. induction R as [|d R IH]; intros k; simpl.
  - split; [by intros [= ->] | by intros ->].
  - destruct k as [|x k]; [done|].
    destruct (String.eqb_spec d x) as [->|Hne].
    + rewrite IH. split; [by intros -> | by intros [= ->]].
    + split; [done | intros [= ? ?]; done].
Qed.

Lemma below_snoc R n k rest :
  Fs.below (R ++ [n]) k = Some rest ↔ Fs.below R k = Some (n :: rest).
Proof. rewrite !below_Some, <- app_assoc. done. Qed.

Lemma below_snoc_None R n k :
  Fs.below (R ++ [n]) k = None ↔ ∀ rest, Fs.below R k ≠ Some (n :: rest).
Proof.
  split.
  - intros H rest Hr. apply below_snoc in Hr. congruence.
  - intros H. destruct (Fs.below (R ++ [n]) k) as [rest|] eqn:Hb; [|done].
    apply below_snoc in Hb. by apply H in Hb.
Qed.

Lemma wellFormed_plain d k e : wellFormed d → d !! k = Some e → Forall plain k.
Proof. intros Hwf Hk. by destruct (Hwf k e Hk). Qed.

Lemma wellFormed_ancestor d q x rest e :
  wellFormed d → d !! (q ++ x :: rest) = Some e → q ≠ [] →
  d !! q = Some EDir.
Proof.
  intros Hwf Hk Hq. destruct (Hwf _ _ Hk) as [_ Hanc].
  rewrite Forall_forall in Hanc. apply Hanc.
  unfold properPrefixes. apply list_elem_of_fmap.
  exists (length q). split.
  - by rewrite take_app_length.
  - apply elem_of_seq. rewrite length_app. simpl.
    destruct q; [done|]. simpl. lia.
Qed.

Lemma childName_Some R kv n :
  Fs.childName R kv = Some n ↔ kv.1 = R ++ [n].
Proof.
  unfold Fs.childName. destruct (Fs.below R kv.1) as [rest|] eqn:Hb.
  - apply below_Some in Hb. rewrite Hb.
    destruct rest as [|m [|m' rest]]; split; try done.
    + intros H. apply (f_equal length) in H.
      rewrite app_nil_r, length_app in H. simpl in H. lia.
    + by intros [= ->].
    + intros H. apply app_inv_head in H. by injection H as ->.
    + intros H. apply app_inv_head in H. done.
  - split; [done|]. intros H. apply below_Some in H. congruence.
Qed.

Lemma readdir_names_elem (R : list string) (d : gmap (list string) entry) n :
  n ∈ omap (Fs.childName R) (map_to_list d) ↔ is_Some (d !! (R ++ [n])).
Proof.
  rewrite list_elem_of_omap. split.
  - intros ([k e] & Hin & Hc). apply childName_Some in Hc. simpl in Hc.
    subst k. apply elem_of_map_to_list in Hin. by exists e.
  - intros [e He]. exists (R ++ [n], e). split.
    + by apply elem_of_map_to_list.
    + by apply childName_Some.
Qed.

Lemma readdir_names_NoDup (R : list string) (d : gmap (list string) entry) :
  NoDup (omap (Fs.childName R) (map_to_list d)).
Proof.
  pose proof (NoDup_fst_map_to_list d) as Hnd.
  induction (map_to_list d) as [|kv l IH]; [constructor|].
  simpl in Hnd. apply NoDup_cons in Hnd as [Hk Hnd]. simpl.
  destruct (Fs.childName R kv) as [n|] eqn:Hc; [|by apply IH].
  constructor; [|by apply IH].
  intros Hin. apply list_elem_of_omap in Hin as (kv' & Hin' & Hc').
  apply childName_Some in Hc, Hc'. apply Hk.
  apply list_elem_of_fmap. exists kv'. split; [congruence | done].
Qed.

Lemma Fs_lookup_nonempty (d : gmap (list string) entry) k :
  k ≠ [] → Fs.lookup d k = d !! k.
Proof. by destruct k. Qed.

Lemma includes_app x l1 l2 :
  Js.includes x (l1 ++ l2) = Js.includes x l1 || Js.includes x l2.
Proof. unfold Js.includes. apply existsb_app. Qed.

Lemma removedBy_nil R k : removedBy R [] k = false.
Proof.
  unfold removedBy. by destruct (Fs.below R k) as [[|n rest]|].
Qed.

Lemma removedBy_snoc_hidden R names n k :
  String.eqb (Js.charAt0 n) "." = true →
  removedBy R (names ++ [n]) k = removedBy R names k.
Proof.
  intros Hn. unfold removedBy.
  destruct (Fs.below R k) as [[|m rest]|]; [done| |done].
  rewrite includes_app. simpl.
  destruct (String.eqb_spec m n) as [->|_].
  - rewrite Hn. simpl. by rewrite !andb_false_r.
  - by rewrite !orb_false_r.
Qed.

Lemma removedBy_snoc_visible R names n k :
  String.eqb (Js.charAt0 n) "." = false →
  removedBy R (names ++ [n]) k
  = removedBy R names k ||
    match Fs.below (R ++ [n]) k with Some _ => true | None => false end.
Proof.
  intros Hn. unfold removedBy.
  destruct (Fs.below R k) as [[|m rest]|] eqn:Hb.
  - assert (Fs.below (R ++ [n]) k = None) as ->; [|done].
    apply below_snoc_None. congruence.
  - rewrite includes_app. simpl.
    destruct (String.eqb_spec m n) as [->|Hne].
    + assert (Fs.below (R ++ [n]) k = Some rest) as -> by by apply below_snoc.
      rewrite Hn. simpl. by rewrite !orb_true_r.
    + assert (Fs.below (R ++ [n]) k = None) as ->.
      { apply below_snoc_None. congruence. }
      by rewrite !orb_false_r.
  - assert (Fs.below (R ++ [n]) k = None) as ->; [|done].
    apply below_snoc_None. congruence.
Qed.

(** Removing one visible entry, a file or a directory with all below
    it. *)
Lemma cleanEntry_visible this d0 names n st :
  wellFormed d0 →
  Path.isAbsolute (_root this) = true →
  String.eqb (Js.charAt0 n) "." = false →
  n ∉ names →
  is_Some (d0 !! (Path.segments (_root this) ++ [n])) →
  (∀ k, disk st !! k
        = if removedBy (Path.segments (_root this)) names k then None
          else d0 !! k) →
  ∃ st',
    cleanEntry this n st = Returned st' ∧
    (∀ k, disk st' !! k
          = if removedBy (Path.segments (_root this)) (names ++ [n]) k
            then None else d0 !! k) ∧
    _files st' = _files st ∧ emitted st' = emitted st.
Proof.
  intros Hwf Habs Hvis Hnew [e He] Hinv.
  set (R := Path.segments (_root this)) in *.
  assert (Hplain : plain n).
  { pose proof (wellFormed_plain _ _ _ Hwf He) as H.
    apply Forall_app in H as [_ H]. by apply Forall_cons in H as [? _]. }
  assert (Hkey : Path.segments (Path.join (_root this) n) = R ++ [n])
    by by apply segments_join_plain.
  assert (Hne : R ++ [n] ≠ []) by (by destruct R).
  assert (Hhere : disk st !! (R ++ [n]) = Some e).
  { rewrite Hinv. unfold removedBy.
    assert (Fs.below R (R ++ [n]) = Some [n]) as -> by by apply below_Some.
    by rewrite (proj2 (includes_false _ _) Hnew), He. }
  assert (Hstep : ∀ d' : gmap (list string) entry,
    (∀ k, d' !! k = match Fs.below (R ++ [n]) k with
                    | Some _ => None
                    | None => disk st !! k
                    end) →
    ∀ k, d' !! k = if removedBy R (names ++ [n]) k then None else d0 !! k).
  { intros d' Hd' k. rewrite Hd', removedBy_snoc_visible, Hinv by done.
    destruct (Fs.below (R ++ [n]) k); [by rewrite orb_true_r|].
    by rewrite orb_false_r. }
  assert (Hnamed : Fs.named (Path.join (_root this) n) (disk st) = Ok e).
  { apply named_at; [|by apply join_plain_no_slash].
    by rewrite Hkey, (Fs_lookup_nonempty _ _ Hne). }
  unfold cleanEntry. rewrite Hvis. unfold Fs.statSync. rewrite Hnamed.
  destruct e as [content|]; simpl.
  - unfold onDisk, Fs.unlinkSync. rewrite Hnamed, Hkey.
    eexists. split; [reflexivity|]. split; [|done].
    apply Hstep. intros k. simpl.
    destruct (Fs.below (R ++ [n]) k) as [rest|] eqn:Hb.
    + apply below_Some in Hb. subst k. destruct rest as [|x rest].
      * rewrite app_nil_r. apply lookup_delete_eq.
      * rewrite lookup_delete_ne.
        2:{ intros H. apply (f_equal length) in H.
            rewrite !length_app in H. simpl in H. lia. }
        rewrite Hinv. destruct (removedBy R names _); [done|].
        destruct (d0 !! ((R ++ [n]) ++ x :: rest)) as [e'|] eqn:He'; [|done].
        pose proof (wellFormed_ancestor _ _ _ _ _ Hwf He' Hne) as Hdir.
        congruence.
    + apply lookup_delete_ne. intros <-.
      assert (Fs.below (R ++ [n]) (R ++ [n]) = Some []) as Hb'.
      { apply below_Some. by rewrite app_nil_r. }
      congruence.
  - eexists. split; [reflexivity|]. split; [|done].
    apply Hstep. intros k. simpl. unfold Fs.removeSync. rewrite Hkey.
    destruct (Fs.below (R ++ [n]) k) as [rest|] eqn:Hb.
    + apply map_lookup_filter_None_2. right. intros x _ Hp. simpl in Hp.
      congruence.
    + destruct (disk st !! k) as [x|] eqn:Hk.
      * by apply map_lookup_filter_Some_2.
      * apply map_lookup_filter_None_2. by left.
Qed.

Lemma clean_loop this d0 todo :
  wellFormed d0 →
  Path.isAbsolute (_root this) = true →
  ∀ names st,
    NoDup todo →
    (∀ n, n ∈ todo →
          (n ∉ names) ∧
          is_Some (d0 !! (Path.segments (_root this) ++ [n]))) →
    (∀ k, disk st !! k
          = if removedBy (Path.segments (_root this)) names k then None
            else d0 !! k) →
    ∃ st',
      forEach (cleanEntry this) todo st = Returned st' ∧
      (∀ k, disk st' !! k
            = if removedBy (Path.segments (_root this)) (names ++ todo) k
              then None else d0 !! k) ∧
      _files st' = _files st ∧ emitted st' = emitted st.
Proof.
  intros Hwf Habs. induction todo as [|n todo IH]; intros names st Hnd Htodo Hinv.
  - exists st. rewrite app_nil_r. by repeat split.
  - apply NoDup_cons in Hnd as [Hn Hnd].
    destruct (Htodo n) as [Hnew Hsome]; [apply elem_of_cons; by left|].
    assert (Hnext : ∃ st1,
      cleanEntry this n st = Returned st1 ∧
      (∀ k, disk st1 !! k
            = if removedBy (Path.segments (_root this)) (names ++ [n]) k
              then None else d0 !! k) ∧
      _files st1 = _files st ∧ emitted st1 = emitted st).
    { destruct (String.eqb (Js.charAt0 n) ".") eqn:Hvis.
      - exists st. unfold cleanEntry. rewrite Hvis.
        split; [done|]. split; [|done].
        intros k. by rewrite removedBy_snoc_hidden.
      - by apply (cleanEntry_visible this d0 names n st). }
    destruct Hnext as (st1 & Hrun & Hinv1 & Hf1 & He1).
    destruct (IH (names ++ [n]) st1 Hnd) as (st' & Hrun' & Hinv' & Hf' & He').
    + intros m Hm. destruct (Htodo m) as [Hm1 Hm2];
        [apply elem_of_cons; by right|].
      split; [|done]. rewrite elem_of_app, list_elem_of_singleton.
      intros [H| ->]; done.
    + exact Hinv1.
    + exists st'. simpl. rewrite Hrun. simpl.
      split; [exact Hrun'|]. split.
      * intros k. rewrite Hinv'. by rewrite <- app_assoc.
      * by rewrite Hf', He'.
Qed.

(** What [clean] does when the output root is a directory. *)
Lemma clean_spec (this : t) (st : state) :
  wellFormed (disk st) →
  Path.isAbsolute (_root this) = true →
  Fs.lookup (disk st) (Path.segments (_root this)) = Some EDir →
  ∃ st',
    clean this st = Returned st' ∧
    (∀ k, disk st' !! k
          = if visibleUnder (Path.segments (_root this)) k then None
            else disk st !! k) ∧
    (∀ n e, disk st !! (Path.segments (_root this) ++ [n]) = Some e →
            disk st' !! (Path.segments (_root this) ++ [n])
            = if String.eqb (Js.charAt0 n) "." then Some e else None) ∧
    _files st' = [] ∧
    emitted st' = emitted st.
Proof.
  intros Hwf Habs Hroot.
  set (R := Path.segments (_root this)) in *.
  set (names := omap (Fs.childName R) (map_to_list (disk st))).
  destruct (clean_loop this (disk st) names Hwf Habs [] st)
    as (st1 & Hrun & Hinv & Hf & He).
  { apply readdir_names_NoDup. }
  { intros n Hn. split; [apply not_elem_of_nil|].
    by apply readdir_names_elem. }
  { intros k. by rewrite removedBy_nil. }
  assert (Hall : ∀ k, disk st1 !! k
                      = if visibleUnder R k then None else disk st !! k).
  { intros k. rewrite Hinv. simpl. fold R.
    unfold removedBy, visibleUnder.
    destruct (Fs.below R k) as [[|n rest]|] eqn:Hb; [done| |done].
    destruct (String.eqb (Js.charAt0 n) "."); simpl;
      [by rewrite andb_false_r|].
    rewrite andb_true_r.
    destruct (Js.includes n names) eqn:Hin; [done|].
    apply includes_false in Hin.
    destruct (disk st !! k) as [e|] eqn:Hk; [|done].
    exfalso. apply Hin. apply readdir_names_elem.
    apply below_Some in Hb. subst k. destruct rest as [|x rest].
    - by exists e.
    - exists EDir.
      change (R ++ n :: x :: rest) with (R ++ [n] ++ x :: rest) in Hk.
      rewrite app_assoc in Hk.
      apply (wellFormed_ancestor _ _ _ _ _ Hwf Hk). by destruct R. }
  exists (setFiles [] st1). split; [|split; [|split; [|split]]].
  - unfold clean, Fs.pathExistsSync, Fs.existsSync, Fs.readdirSync.
    rewrite (named_dir _ _ Hroot). simpl negb. cbv iota.
    fold R names. by rewrite Hrun.
  - exact Hall.
  - intros n e Hn. simpl. rewrite Hall. unfold visibleUnder.
    assert (Fs.below R (R ++ [n]) = Some [n]) as -> by by apply below_Some.
    by destruct (String.eqb (Js.charAt0 n) ".").
  - done.
  - exact He.
Qed.

(** The three ways of [clean]: the root is not found and [clean]
    returns at once; the root is a directory; the root is a regular
    file and [readdirSync] throws. *)
Lemma clean_cases (this : t) (st : state) :
  (Fs.pathExistsSync (_root this) (disk st) = false ∧
   clean this st = Returned st) ∨
  (Fs.pathExistsSync (_root this) (disk st) = true ∧
   Fs.lookup (disk st) (Path.segments (_root this)) = Some EDir) ∨
  (Fs.pathExistsSync (_root this) (disk st) = true ∧
   (∃ content,
       Fs.lookup (disk st) (Path.segments (_root this))
       = Some (EFile content)) ∧
   Js.endsWith (_root this) "/" = false ∧
   clean this st = Threw ENOTDIR st).
Proof.
  unfold clean, Fs.pathExistsSync, Fs.existsSync, Fs.readdirSync, Fs.named.
  destruct (Fs.lookup (disk st) (Path.segments (_root this)))
    as [[content|]|] eqn:Hroot.
  - destruct (Js.endsWith (_root this) "/"); [by left|].
    right. right. split; [done|]. split; [by exists content | done].
  - right. by left.
  - by left.
Qed.

(** C2: on a well-formed disk whose output root, an absolute path, is
    a directory, [clean] returns; every visible entry at the top of the
    root is gone, a file or a directory with all that was below it;
    every entry whose name begins with a dot is as it was, with all
    below it, and so is everything outside the root; the list of
    written files is empty. *)
Theorem clean_removes_visible (this : t) (st : state) :
  wellFormed (disk st) →
  Path.isAbsolute (_root this) = true →
  Fs.lookup (disk st) (Path.segments (_root this)) = Some EDir →
  ∃ st',
    clean this st = Returned st' ∧
    (∀ k, disk st' !! k
          = if visibleUnder (Path.segments (_root this)) k then None
            else disk st !! k) ∧
    (∀ n e, disk st !! (Path.segments (_root this) ++ [n]) = Some e →
            disk st' !! (Path.segments (_root this) ++ [n])
            = if String.eqb (Js.charAt0 n) "." then Some e else None) ∧
    _files st' = [] ∧
    emitted st' = emitted st.
Proof. apply clean_spec. Qed.

Lemma clean_removes_visible_witness :
  ∃ st',
    clean Sample.provider (initial Sample.populated) = Returned st' ∧
    (∀ k, disk st' !! k
          = if visibleUnder (Path.segments (_root Sample.provider)) k then None
            else disk (initial Sample.populated) !! k) ∧
    (∀ n e,
        disk (initial Sample.populated)
          !! (Path.segments (_root Sample.provider) ++ [n]) = Some e →
        disk st' !! (Path.segments (_root Sample.provider) ++ [n])
        = if String.eqb (Js.charAt0 n) "." then Some e else None) ∧
    _files st' = [] ∧
    emitted st' = emitted (initial Sample.populated).
Proof.
  apply (clean_removes_visible Sample.provider (initial Sample.populated)).
  - apply (bool_decide_unpack (wellFormed _)). vm_compute. exact I.
  - vm_compute. reflexivity.
  - vm_compute. reflexivity.
Defined.

(** ** The properties on the sample project *)


(** ** The directory of a written file *)

Lemma normalize_absolute_shape p :
  Path.isAbsolute p = true →
  Js.endsWith (Path.normalize p) "/" = false →
  Path.normalize p = "/" +:+ Js.join "/" (Path.segments p) ∧
  Path.segments p ≠ [].
Proof.
  intros Habs. unfold Path.normalize.
  destruct (String.eqb_spec p "") as [->|_]; [done|].
  rewrite Habs. simpl negb. fold (Path.segments p).
  destruct (String.eqb_spec (Js.join "/" (Path.segments p)) "") as [He|Hne].
  - intros H. by vm_compute in H.
  - destruct (Js.endsWith p "/").
    + intros H. exfalso.
      change ("/" +:+ (Js.join "/" (Path.segments p) +:+ "/"))
        with (("/" +:+ Js.join "/" (Path.segments p)) +:+ "/") in H.
      by rewrite endsWith_suffix in H.
    + intros _. split; [done|]. intros Hnil. apply Hne. by rewrite Hnil.
Qed.

Lemma join_absolute root src :
  Path.isAbsolute root = true →
  ∃ p, Path.isAbsolute p = true ∧ Path.join root src = Path.normalize p.
Proof.
  intros Habs. unfold Path.join.
  destruct root as [|c root]; [done|].
  destruct (String.eqb_spec (String c root) ""); [done|].
  destruct (String.eqb src "").
  - by exists (String c root).
  - by exists (String c root +:+ "/" +:+ src).
Qed.

(** A path [_writeFile] can write at is a separator before each of its
    segments. *)
Lemma filename_shape root src :
  Path.isAbsolute root = true →
  Js.endsWith (Path.join root src) "/" = false →
  Path.join root src = "/" +:+ Js.join "/" (Path.segments (Path.join root src)) ∧
  Path.segments (Path.join root src) ≠ [].
Proof.
  intros Habs Hend.
  destruct (join_absolute root src Habs) as (p & Hp & Hj).
  rewrite Hj in *.
  destruct (normalize_absolute_shape p Hp Hend) as [Hn Hne].
  rewrite Hn at 2 3. rewrite segments_slash_join by apply segments_plain.
  done.
Qed.

Lemma string_app_assoc a b c : (a +:+ b) +:+ c = a +:+ (b +:+ c).
Proof.
  induction a as [|x a IH]; [done|].
  change (String x ((a +:+ b) +:+ c) = String x (a +:+ (b +:+ c))).
  by rewrite IH.
Qed.

Lemma chars_app a b :
  list_ascii_of_string (a +:+ b)
  = list_ascii_of_string a ++ list_ascii_of_string b.
Proof. induction a as [|c a IH]; simpl; [done | by rewrite IH]. Qed.

Lemma dropWhile_segment x l :
  hasSlash x = false →
  Path.dropWhile (fun a => negb (Path.isSlash a))
    (rev (list_ascii_of_string x) ++ l)
  = Path.dropWhile (fun a => negb (Path.isSlash a)) l.
Proof.
  revert l. induction x as [|c x IH]; intros l Hs; [done|].
  simpl in Hs. apply orb_false_iff in Hs as [Hc Hx].
  simpl. rewrite <- app_assoc. rewrite IH by done. simpl. by rewrite Hc.
Qed.

Lemma rev_chars_cons c s :
  rev (list_ascii_of_string (String c s))
  = rev (list_ascii_of_string s) ++ [c].
Proof. reflexivity. Qed.

Lemma dropWhile_slash_segment x l :
  x ≠ "" → hasSlash x = false →
  Path.dropWhile Path.isSlash (rev (list_ascii_of_string x) ++ l)
  = rev (list_ascii_of_string x) ++ l.
Proof.
  intros Hne Hs.
  assert (Hlast : ∃ c y, hasSlash y = false ∧ Path.isSlash c = false ∧
                         rev (list_ascii_of_string x)
                         = c :: rev (list_ascii_of_string y)).
  { clear l. induction x as [|c x IH]; [done|].
    simpl in Hs. apply orb_false_iff in Hs as [Hc Hx].
    destruct x as [|c' x'].
    - exists c, "". by repeat split.
    - destruct IH as (c0 & y & Hy & Hc0 & Hrev); [done..|].
      exists c0, (String c y). repeat split; try done.
      + simpl. by rewrite Hc, Hy.
      + rewrite (rev_chars_cons c (String c' x')), Hrev.
        by rewrite (rev_chars_cons c y). }
  destruct Hlast as (c & y & _ & Hc & ->). simpl. by rewrite Hc.
Qed.

Lemma dirname_join N x :
  Forall plain (N ++ [x]) →
  Path.dirname ("/" +:+ Js.join "/" (N ++ [x])) = "/" +:+ Js.join "/" N.
Proof.
  intros Hall.
  assert (Hx : plain x).
  { apply Forall_app in Hall as [_ H]. by apply Forall_cons in H as [? _]. }
  destruct Hx as (Hxne & _ & _ & Hxs).
  change ("/" +:+ Js.join "/" (N ++ [x])) with (String "/" (Js.join "/" (N ++ [x]))).
  unfold Path.dirname. change (Path.isSlash "/") with true. cbv zeta.
  destruct (decide (N = [])) as [->|HN].
  - simpl Js.join.
    rewrite <- (app_nil_r (rev (list_ascii_of_string x))).
    rewrite dropWhile_slash_segment, dropWhile_segment by done. reflexivity.
  - destruct (exists_last HN) as (N' & y & ->).
    assert (Hj : Js.join "/" ((N' ++ [y]) ++ [x])
                 = Js.join "/" (N' ++ [y]) +:+ ("/" +:+ x)).
    { clear. induction N' as [|z N' IH].
      - reflexivity.
      - change ((z :: N') ++ [y]) with (z :: (N' ++ [y])).
        change ((z :: N' ++ [y]) ++ [x]) with (z :: ((N' ++ [y]) ++ [x])).
        rewrite !join_cons_nonempty by (by destruct N').
        rewrite IH. by rewrite !string_app_assoc. }
    rewrite Hj, chars_app, rev_app_distr.
    change (list_ascii_of_string ("/" +:+ x))
      with ("/"%char :: list_ascii_of_string x).
    simpl rev at 1. rewrite <- !app_assoc.
    rewrite dropWhile_slash_segment, dropWhile_segment by done.
    simpl app. simpl Path.dropWhile.
    assert (Hne : Js.join "/" (N' ++ [y]) ≠ "").
    { apply join_nonempty. apply Forall_app in Hall as [H _].
      apply Forall_app in H as [_ H]. apply Forall_cons in H as [H _].
      apply H. }
    destruct (rev (list_ascii_of_string (Js.join "/" (N' ++ [y]))))
      as [|c0 l0] eqn:Hrev.
    + exfalso. apply Hne. apply (f_equal (@rev ascii)) in Hrev.
      rewrite rev_involutive in Hrev. simpl in Hrev.
      rewrite <- (string_of_list_ascii_of_string (Js.join "/" (N' ++ [y]))).
      by rewrite Hrev.
    + simpl length. cbn [Nat.eqb andb]. rewrite <- Hrev, rev_involutive.
      by rewrite string_of_list_ascii_of_string.
Qed.

(** The directory [_writeFile] makes is the directory the file goes
    in. *)
Lemma segments_dirname root src :
  Path.isAbsolute root = true →
  Js.endsWith (Path.join root src) "/" = false →
  Path.segments (Path.dirname (Path.join root src))
  = Fs.parent (Path.segments (Path.join root src)).
Proof.
  intros Habs Hend.
  destruct (filename_shape root src Habs Hend) as [Hshape Hne].
  pose proof (segments_plain (Path.join root src)) as Hplain.
  destruct (exists_last Hne) as (N & x & HN).
  rewrite HN in Hshape, Hplain. rewrite HN, Hshape.
  rewrite dirname_join by done.
  unfold Fs.parent. rewrite removelast_last.
  apply segments_slash_join. by apply Forall_app in Hplain as [? _].
Qed.

(** ** Well-formed disks *)

Lemma elem_of_properPrefixes q k :
  q ∈ properPrefixes k ↔ q ≠ [] ∧ ∃ x rest, k = q ++ x :: rest.
Proof.
  unfold properPrefixes. rewrite list_elem_of_fmap. split.
  - intros (i & -> & Hi). apply elem_of_seq in Hi.
    assert (Hlt : i < length k) by lia.
    split.
    + intros Hnil. apply (f_equal length) in Hnil.
      rewrite length_take in Hnil. simpl in Hnil. lia.
    + destruct (drop i k) as [|x rest] eqn:Hd.
      * apply (f_equal length) in Hd. rewrite length_drop in Hd.
        simpl in Hd. lia.
      * exists x, rest. by rewrite <- Hd, take_drop.
  - intros (Hq & x & rest & ->). exists (length q). split.
    + by rewrite take_app_length.
    + apply elem_of_seq. rewrite length_app. simpl.
      destruct q; [done|]. simpl. lia.
Qed.

Lemma wellFormed_intro (d : gmap (list string) entry) :
  (∀ k e, d !! k = Some e →
          Forall plain k ∧
          ∀ q x rest, k = q ++ x :: rest → q ≠ [] → d !! q = Some EDir) →
  wellFormed d.
Proof.
  intros H k e Hk. destruct (H k e Hk) as [Hp Ha]. split; [done|].
  apply Forall_forall. intros q Hq.
  apply elem_of_properPrefixes in Hq as (Hne & x & rest & ->).
  by apply (Ha q x rest).
Qed.

Lemma snoc_split {A} (above q rest : list A) seg x :
  above ++ [seg] = q ++ x :: rest →
  (rest = [] ∧ q = above) ∨ ∃ rest', above = q ++ x :: rest'.
Proof.
  intros H. destruct rest as [|y rest _] using rev_ind.
  - left. apply (app_inj_tail above q seg x) in H as [-> _]. done.
  - right. exists rest.
    change (q ++ x :: rest ++ [y]) with (q ++ (x :: rest) ++ [y]) in H.
    rewrite app_assoc in H.
    by apply app_inj_tail in H as [-> _].
Qed.

Lemma wellFormed_insert_dir (d : gmap (list string) entry) above seg :
  wellFormed d → Forall plain (above ++ [seg]) →
  above = [] ∨ d !! above = Some EDir →
  wellFormed (<[above ++ [seg] := EDir]> d).
Proof.
  intros Hwf Hplain Habove. apply wellFormed_intro. intros k e Hk.
  assert (Hanc : ∀ q x rest, above ++ [seg] = q ++ x :: rest → q ≠ [] →
                             d !! q = Some EDir).
  { intros q x rest Heq Hq. apply snoc_split in Heq as [[_ ->]|[rest' ->]].
    - by destruct Habove.
    - destruct Habove as [Hnil|Hd]; [by destruct q|].
      by apply (wellFormed_ancestor _ _ _ _ _ Hwf Hd). }
  assert (Hkeep : ∀ q, d !! q = Some EDir →
                       <[above ++ [seg] := EDir]> d !! q = Some EDir).
  { intros q Hq. destruct (decide (above ++ [seg] = q)) as [<-|Hne].
    - apply lookup_insert_eq.
    - by rewrite lookup_insert_ne. }
  destruct (decide (above ++ [seg] = k)) as [<-|Hne].
  - split; [done|]. intros q x rest Heq Hq. apply Hkeep.
    by apply (Hanc q x rest).
  - rewrite lookup_insert_ne in Hk by done. split.
    + by apply (wellFormed_plain _ _ _ Hwf Hk).
    + intros q x rest -> Hq. apply Hkeep.
      by apply (wellFormed_ancestor _ _ _ _ _ Hwf Hk).
Qed.

Lemma wellFormed_insert_file (d : gmap (list string) entry) k content :
  wellFormed d → Forall plain k → k ≠ [] →
  Fs.lookup d (Fs.parent k) = Some EDir →
  d !! k ≠ Some EDir →
  wellFormed (<[k := EFile content]> d).
Proof.
  intros Hwf Hplain Hk Hparent Hnodir. apply wellFormed_intro.
  intros k' e Hk'.
  assert (Hkeep : ∀ q, d !! q = Some EDir →
                       <[k := EFile content]> d !! q = Some EDir).
  { intros q Hq. rewrite lookup_insert_ne; [done|]. by intros ->. }
  destruct (decide (k = k')) as [<-|Hne].
  - split; [done|]. intros q x rest Heq Hq. apply Hkeep.
    destruct (exists_last Hk) as (above & seg & ->).
    unfold Fs.parent in Hparent. rewrite removelast_last in Hparent.
    apply snoc_split in Heq as [[_ ->]|[rest' ->]].
    + by rewrite Fs_lookup_nonempty in Hparent.
    + rewrite Fs_lookup_nonempty in Hparent by (by destruct q).
      by apply (wellFormed_ancestor _ _ _ _ _ Hwf Hparent).
  - rewrite lookup_insert_ne in Hk' by done. split.
    + by apply (wellFormed_plain _ _ _ Hwf Hk').
    + intros q x rest -> Hq. apply Hkeep.
      by apply (wellFormed_ancestor _ _ _ _ _ Hwf Hk').
Qed.

(** What [mkdirs] leaves when it succeeds. *)
Lemma mkdirs_spec todo : ∀ above (d d' : gmap (list string) entry),
  wellFormed d → Forall plain (above ++ todo) →
  above = [] ∨ d !! above = Some EDir →
  Fs.mkdirs above todo d = Ok d' →
  wellFormed d' ∧
  Fs.lookup d' (above ++ todo) = Some EDir ∧
  (∀ k e, d' !! k = Some e →
          d !! k = Some e ∨
          (e = EDir ∧ k ≠ [] ∧ ∃ rest, above ++ todo = k ++ rest)).
Proof.
  induction todo as [|seg rest IH]; intros above d d' Hwf Hplain Habove Hmk.
  - injection Hmk as <-. rewrite app_nil_r. split; [done|]. split.
    + destruct Habove as [->|H]; [done|].
      destruct above; [done | exact H].
    + intros k e Hk. by left.
  - simpl in Hmk.
    assert (Hassoc : above ++ seg :: rest = (above ++ [seg]) ++ rest)
      by by rewrite <- app_assoc.
    assert (Hhere : Forall plain (above ++ [seg])).
    { rewrite Hassoc in Hplain. by apply Forall_app in Hplain as [? _]. }
    destruct (d !! (above ++ [seg])) as [[c|]|] eqn:Hd; [by destruct rest| |].
    + rewrite Hassoc in *.
      apply (IH (above ++ [seg]) d d' Hwf Hplain (or_intror Hd) Hmk).
    + rewrite Hassoc in *.
      destruct (IH (above ++ [seg]) (<[above ++ [seg] := EDir]> d) d')
        as (Hwf' & Hdir & Hfrom); try done.
      * by apply wellFormed_insert_dir.
      * right. apply lookup_insert_eq.
      * split; [done|]. split; [done|]. intros k e Hk.
        destruct (Hfrom k e Hk) as [Hin|Hnew]; [|by right].
        destruct (decide (above ++ [seg] = k)) as [<-|Hne].
        -- rewrite lookup_insert_eq in Hin. injection Hin as <-.
           right. split; [done|]. split; [by destruct above|]. by exists rest.
        -- rewrite lookup_insert_ne in Hin by done. by left.
Qed.

(** [mkdirs] succeeds when no file is in the way. *)
Lemma mkdirs_ok todo : ∀ above (d : gmap (list string) entry),
  (∀ q rest content, q ≠ [] → above ++ todo = q ++ rest →
                     d !! q ≠ Some (EFile content)) →
  ∃ d', Fs.mkdirs above todo d = Ok d'.
Proof.
  induction todo as [|seg rest IH]; intros above d Hfree; [by exists d|].
  simpl.
  assert (Hassoc : above ++ seg :: rest = (above ++ [seg]) ++ rest)
    by by rewrite <- app_assoc.
  destruct (d !! (above ++ [seg])) as [[c|]|] eqn:Hd.
  - exfalso. apply (Hfree (above ++ [seg]) rest c); [by destruct above|..];
      done.
  - apply IH. intros q rest' c Hq Heq. apply (Hfree q rest' c); congruence.
  - apply IH. intros q rest' c Hq Heq.
    destruct (decide (above ++ [seg] = q)) as [<-|Hne].
    + by rewrite lookup_insert_eq.
    + rewrite lookup_insert_ne by done. apply (Hfree q rest' c); congruence.
Qed.

Lemma writeFileSync_inv (p content : string)
  (d d' : gmap (list string) entry) :
  Fs.writeFileSync p content d = Ok d' →
  Js.endsWith p "/" = false ∧
  Path.segments p ≠ [] ∧
  Fs.lookup d (Fs.parent (Path.segments p)) = Some EDir ∧
  d !! Path.segments p ≠ Some EDir ∧
  d' = <[Path.segments p := EFile content]> d.
Proof.
  unfold Fs.writeFileSync.
  destruct (Path.segments p) as [|x k] eqn:Hk; [done|].
  destruct (Fs.lookup d (Fs.parent (x :: k))) as [[c|]|]; try done.
  destruct (d !! (x :: k)) as [[c|]|] eqn:Hd; try done;
    destruct (Js.endsWith p "/"); try done;
    intros H; injection H as <-; by repeat split.
Qed.

Lemma writeFileSync_ok_when (p content : string)
  (d : gmap (list string) entry) :
  Js.endsWith p "/" = false →
  Path.segments p ≠ [] →
  Fs.lookup d (Fs.parent (Path.segments p)) = Some EDir →
  d !! Path.segments p ≠ Some EDir →
  Fs.writeFileSync p content d
  = Ok (<[Path.segments p := EFile content]> d).
Proof.
  intros Hend Hk Hparent Hnodir. unfold Fs.writeFileSync. rewrite Hend.
  destruct (Path.segments p) as [|x k]; [done|]. rewrite Hparent.
  by destruct (d !! (x :: k)) as [[c|]|].
Qed.

(** A call of [_writeFile] that returns: the directory was there or
    was made, then the file was written. *)
Lemma writeFile_returned this src content st st' :
  _writeFile this src content st = Returned st' →
  ∃ d1,
    (d1 = disk st ∨
     Fs.ensureDirSync (Path.dirname (filenameOf this src)) (disk st) = Ok d1) ∧
    Fs.writeFileSync (filenameOf this src) content d1 = Ok (disk st').
Proof.
  unfold _writeFile, filenameOf.
  set (filename := Path.join (_root this) src).
  set (dir := Path.dirname filename).
  intros H.
  assert (Hdir : ∃ st1,
    (if Fs.existsSync dir (disk st) then Returned st
     else onDisk (Fs.ensureDirSync dir) st) = Returned st1 ∧
    (disk st1 = disk st ∨ Fs.ensureDirSync dir (disk st) = Ok (disk st1))).
  { destruct (Fs.existsSync dir (disk st)).
    - exists st. split; [done | by left].
    - unfold onDisk in *.
      destruct (Fs.ensureDirSync dir (disk st)) as [d1|e]; [|done].
      eexists. split; [done | by right]. }
  destruct Hdir as (st1 & Hrun & Hd1). rewrite Hrun in H. simpl in H.
  unfold onDisk in H.
  destruct (Fs.writeFileSync filename content (disk st1)) as [d2|e] eqn:Hw;
    [|done].
  exists (disk st1). split; [destruct Hd1 as [->|?]; [by left | by right]|].
  simpl in H. destruct (Js.includes filename (_files st1)) in H;
    injection H as <-; done.
Qed.

Lemma writeFile_wellFormed this src content st st' :
  wellFormed (disk st) →
  _writeFile this src content st = Returned st' →
  wellFormed (disk st') ∧ Js.endsWith (filenameOf this src) "/" = false.
Proof.
  intros Hwf H. apply writeFile_returned in H as (d1 & Hdir & Hw).
  apply writeFileSync_inv in Hw as (Hend & Hk & Hparent & Hnodir & ->).
  split; [|done].
  assert (Hwf1 : wellFormed d1).
  { destruct Hdir as [->|Hmk]; [done|].
    unfold Fs.ensureDirSync in Hmk.
    apply (mkdirs_spec _ [] _ _ Hwf) in Hmk as [? _]; [done| |by left].
    apply segments_plain. }
  apply wellFormed_insert_file; try done. apply segments_plain.
Qed.

Lemma forEach_writes_wellFormed this writes : ∀ st st',
  wellFormed (disk st) →
  forEach (fun kv => _writeFile this kv.1 kv.2) writes st = Returned st' →
  wellFormed (disk st') ∧
  ∀ kv, kv ∈ writes → Js.endsWith (filenameOf this kv.1) "/" = false.
Proof.
  induction writes as [|[src content] r IH]; intros st st' Hwf H.
  - injection H as <-. split; [done|]. intros kv Hkv.
    by apply elem_of_nil in Hkv.
  - simpl in H.
    destruct (_writeFile this src content st) as [st1|e st1] eqn:H1; [|done].
    simpl in H.
    destruct (writeFile_wellFormed this src content st st1 Hwf H1)
      as [Hwf1 Hend].
    destruct (IH st1 st' Hwf1 H) as [Hwf' Hall]. split; [done|].
    intros kv Hkv. apply elem_of_cons in Hkv as [->|Hkv]; [done|].
    by apply Hall.
Qed.

(** Writing once more a file of a disk [e]: on a disk whose entries are
    entries of [e], the write returns, and the entries still are. *)
Lemma writeFile_again (this : t) (e : gmap (list string) entry)
  (src content : string) (st : state) :
  Path.isAbsolute (_root this) = true →
  wellFormed e →
  wellFormed (disk st) →
  sameKind (disk st) e →
  Js.endsWith (filenameOf this src) "/" = false →
  (∃ c, e !! keyOf this src = Some (EFile c)) →
  ∃ st',
    _writeFile this src content st = Returned st' ∧
    wellFormed (disk st') ∧ sameKind (disk st') e.
Proof.
  intros Habs Hwfe Hwf Hsame Hend [c Hfile].
  unfold keyOf in Hfile.
  set (filename := filenameOf this src) in *.
  set (k := Path.segments filename) in *.
  destruct (filename_shape (_root this) src Habs Hend) as [_ Hk].
  fold (filenameOf this src) in Hk. fold filename k in Hk.
  pose proof (segments_dirname (_root this) src Habs Hend) as Hdirname.
  fold (filenameOf this src) in Hdirname. fold filename k in Hdirname.
  assert (Hanc : ∀ q x rest, k = q ++ x :: rest → q ≠ [] →
                             e !! q = Some EDir).
  { intros q x rest Heq Hq. rewrite Heq in Hfile.
    by apply (wellFormed_ancestor _ _ _ _ _ Hwfe Hfile). }
  destruct (exists_last Hk) as (p & seg & Hsplit).
  assert (Hparent : Fs.parent k = p).
  { unfold Fs.parent. by rewrite Hsplit, removelast_last. }
  assert (Hup : ∀ q rest, q ≠ [] → p = q ++ rest → e !! q = Some EDir).
  { intros q rest Hq ->. apply (Hanc q (hd seg (rest ++ [seg]))
                                  (tl (rest ++ [seg]))); [|done].
    rewrite Hsplit, <- app_assoc. f_equal. by destruct rest. }
  assert (Hdir : ∃ d1,
    (if Fs.existsSync (Path.dirname filename) (disk st) then Returned st
     else onDisk (Fs.ensureDirSync (Path.dirname filename)) st)
    = Returned (setDisk d1 st) ∧
    wellFormed d1 ∧ sameKind d1 e ∧ Fs.lookup d1 p = Some EDir).
  { destruct (Fs.existsSync (Path.dirname filename) (disk st)) eqn:Hex.
    - exists (disk st). split; [by destruct st|]. split; [done|].
      split; [done|].
      apply existsSync_true in Hex as [x Hx].
      apply named_Ok in Hx as [Hx _]. rewrite Hdirname, Hparent in Hx.
      destruct (decide (p = [])) as [->|Hp]; [done|].
      rewrite Fs_lookup_nonempty in * by done.
      destruct (Hsame p x Hx) as (y & Hy & Hkind).
      rewrite (Hup p [] Hp) in Hy by (by rewrite app_nil_r).
      injection Hy as <-. by destruct x.
    - unfold onDisk, Fs.ensureDirSync. rewrite Hdirname, Hparent.
      destruct (mkdirs_ok p [] (disk st)) as [d1 Hmk].
      { intros q rest c' Hq Heq Hx.
        destruct (Hsame q _ Hx) as (y & Hy & Hkind).
        rewrite (Hup q rest Hq Heq) in Hy. by injection Hy as <-. }
      rewrite Hmk. exists d1. split; [done|].
      apply mkdirs_spec in Hmk as (Hwf1 & Hp1 & Hfrom);
        [|done|apply Forall_app; split; [done|]|by left].
      2:{ pose proof (segments_plain filename) as Hpl. fold k in Hpl.
          rewrite Hsplit in Hpl. by apply Forall_app in Hpl as [? _]. }
      split; [done|]. split; [|done].
      intros k' x Hx. destruct (Hfrom k' x Hx) as [Hold|(-> & Hne & rest & Heq)].
      + by apply Hsame.
      + exists EDir. split; [|done]. by apply (Hup k' rest). }
  destruct Hdir as (d1 & Hrun & Hwf1 & Hsame1 & Hp1).
  assert (Hnodir : d1 !! k ≠ Some EDir).
  { intros Hd. destruct (Hsame1 k _ Hd) as (y & Hy & Hkind).
    rewrite Hfile in Hy. by injection Hy as <-. }
  assert (Hw : Fs.writeFileSync filename content d1
               = Ok (<[k := EFile content]> d1)).
  { apply writeFileSync_ok_when; try done. fold k. by rewrite Hparent. }
  unfold _writeFile. fold (filenameOf this src). fold filename.
  rewrite Hrun. cbn [andThen]. unfold onDisk at 1. cbn [disk setDisk].
  rewrite Hw. cbn [andThen].
  eexists. split; [reflexivity|].
  assert (Hdisk : ∀ s : state,
             disk (emit EVENT_ANY [ArgEvent EVENT_CHANGED; ArgPath filename]
                     (emit EVENT_CHANGED [ArgPath filename]
                        (if Js.includes filename (_files s) then s
                         else setFiles (_files s ++ [filename]) s)))
             = disk s).
  { intros s. by destruct (Js.includes filename (_files s)). }
  rewrite Hdisk. cbn [disk setDisk]. split.
  - apply wellFormed_insert_file; try done.
    + apply segments_plain.
    + by rewrite Hparent.
  - intros k' x Hx. destruct (decide (k = k')) as [<-|Hne].
    + rewrite lookup_insert_eq in Hx. injection Hx as <-. by exists (EFile c).
    + rewrite lookup_insert_ne in Hx by done. by apply Hsame1.
Qed.

Lemma forEach_writes_again (this : t) (e : gmap (list string) entry)
  (writes : list (string * string)) :
  Path.isAbsolute (_root this) = true →
  wellFormed e →
  (∀ kv, kv ∈ writes →
         Js.endsWith (filenameOf this kv.1) "/" = false ∧
         ∃ c, e !! keyOf this kv.1 = Some (EFile c)) →
  ∀ st,
    wellFormed (disk st) → sameKind (disk st) e →
    ∃ st', forEach (fun kv => _writeFile this kv.1 kv.2) writes st
           = Returned st'.
Proof.
  intros Habs Hwfe. induction writes as [|[src content] r IH];
    intros Hall st Hwf Hsame; [by exists st|].
  destruct (Hall (src, content)) as [Hend Hfile]; [apply elem_of_cons; by left|].
  destruct (writeFile_again this e src content st Habs Hwfe Hwf Hsame Hend Hfile)
    as (st1 & Hrun & Hwf1 & Hsame1).
  destruct (IH (fun kv Hkv => Hall kv (list_elem_of_further _ _ _ Hkv))
              st1 Hwf1 Hsame1) as (st' & Hrun').
  exists st'. simpl. rewrite Hrun. exact Hrun'.
Qed.

(** ** Building again *)

Lemma visibleUnder_extend R q x rest :
  visibleUnder R q = true → visibleUnder R (q ++ x :: rest) = true.
Proof.
  unfold visibleUnder.
  destruct (Fs.below R q) as [[|n r]|] eqn:Hb; try done.
  apply below_Some in Hb. subst q. intros Hn.
  assert (Fs.below R ((R ++ n :: r) ++ x :: rest) = Some (n :: r ++ x :: rest))
    as ->; [|done].
  apply below_Some. by rewrite <- app_assoc.
Qed.

(** [clean] returns when the output root is absent or a directory;
    what is left is well formed and was there before. *)
Lemma clean_returns (this : t) (st : state) :
  wellFormed (disk st) →
  Path.isAbsolute (_root this) = true →
  Fs.pathExistsSync (_root this) (disk st) = false ∨
  Fs.lookup (disk st) (Path.segments (_root this)) = Some EDir →
  ∃ st',
    clean this st = Returned st' ∧
    wellFormed (disk st') ∧
    (∀ k e, disk st' !! k = Some e → disk st !! k = Some e).
Proof.
  intros Hwf Habs [Hmissing|Hdir].
  - exists st. split; [|done]. unfold clean. by rewrite Hmissing.
  - destruct (clean_spec this st Hwf Habs Hdir) as (st' & Hrun & Hall & _).
    exists st'. split; [done|].
    assert (Hsub : ∀ k e, disk st' !! k = Some e →
                          visibleUnder (Path.segments (_root this)) k = false ∧
                          disk st !! k = Some e).
    { intros k e Hk. rewrite Hall in Hk.
      by destruct (visibleUnder (Path.segments (_root this)) k). }
    split; [|intros k e Hk; by apply Hsub].
    apply wellFormed_intro. intros k e Hk.
    destruct (Hsub k e Hk) as [Hvis Hk0]. split.
    + by apply (wellFormed_plain _ _ _ Hwf Hk0).
    + intros q x rest -> Hq. rewrite Hall.
      destruct (visibleUnder (Path.segments (_root this)) q) eqn:Hvq.
      * apply (visibleUnder_extend _ _ x rest) in Hvq. congruence.
      * by apply (wellFormed_ancestor _ _ _ _ _ Hwf Hk0).
Qed.

Lemma clean_returned_wellFormed (this : t) (st st' : state) :
  wellFormed (disk st) →
  Path.isAbsolute (_root this) = true →
  clean this st = Returned st' →
  wellFormed (disk st') ∧
  (∀ k e, disk st' !! k = Some e → disk st !! k = Some e).
Proof.
  intros Hwf Habs Hrun.
  destruct (clean_cases this st)
    as [[Hex _]|[[_ Hroot]|(_ & _ & _ & Hthrow)]].
  - destruct (clean_returns this st Hwf Habs (or_introl Hex))
      as (st'' & Hrun' & H).
    rewrite Hrun in Hrun'. by injection Hrun' as <-.
  - destruct (clean_returns this st Hwf Habs (or_intror Hroot))
      as (st'' & Hrun' & H).
    rewrite Hrun in Hrun'. by injection Hrun' as <-.
  - by rewrite Hthrow in Hrun.
Qed.

Lemma forEach_writes_no_slash this writes : ∀ st st',
  forEach (fun kv => _writeFile this kv.1 kv.2) writes st = Returned st' →
  ∀ kv, kv ∈ writes → Js.endsWith (filenameOf this kv.1) "/" = false.
Proof.
  induction writes as [|[src content] r IH]; intros st st' H kv Hkv.
  - by apply elem_of_nil in Hkv.
  - simpl in H.
    destruct (_writeFile this src content st) as [st1|e st1] eqn:H1; [|done].
    simpl in H. apply elem_of_cons in Hkv as [->|Hkv].
    + by apply (writeFile_no_slash this src content st st1).
    + by apply (IH st1 st').
Qed.

Lemma buildCode_no_slash this st st' :
  buildCode this st = Returned st' →
  ∀ kv, kv ∈ buildWrites this →
        Js.endsWith (filenameOf this kv.1) "/" = false.
Proof.
  intros H. rewrite buildCode_unfold in H.
  destruct (clean this st) as [sa|e sa]; [|done]. cbn [andThen] in H.
  by apply (forEach_writes_no_slash this _ sa st').
Qed.

(** The content of a file of the build after [buildCode] returned. *)
Lemma buildCode_content this st st' k :
  buildCode this st = Returned st' →
  is_Some (lastWritten this (buildWrites this) k) →
  fileAt (disk st') k = lastWritten this (buildWrites this) k.
Proof.
  intros H [c Hc]. rewrite buildCode_unfold in H.
  destruct (clean this st) as [sa|e sa]; [|done]. cbn [andThen] in H.
  pose proof (forEach_writes this (buildWrites this) sa) as Hw.
  rewrite H in Hw. destruct Hw as (Hd & _).
  by rewrite Hd, Hc.
Qed.

(** After a build on a well-formed disk, the same build returns. *)
Lemma buildCode_returns_again (this : t) (st0 st1 : state) :
  wellFormed (disk st0) →
  Path.isAbsolute (_root this) = true →
  buildCode this st0 = Returned st1 →
  ∃ st2, buildCode this st1 = Returned st2.
Proof.
  intros Hwf0 Habs H1. pose proof H1 as Hbuild.
  rewrite buildCode_unfold in H1.
  destruct (clean this st0) as [sa|e sa] eqn:Hclean; [|done].
  cbn [andThen] in H1.
  destruct (clean_returned_wellFormed this st0 sa Hwf0 Habs Hclean)
    as [Hwfa _].
  destruct (forEach_writes_wellFormed this _ sa st1 Hwfa H1)
    as [Hwf1 Hstatic].
  assert (Hfiles : ∀ kv, kv ∈ buildWrites this →
                         ∃ c, disk st1 !! keyOf this kv.1 = Some (EFile c)).
  { intros kv Hkv.
    destruct (lastWritten_some this _ kv Hkv) as [c Hc].
    pose proof (buildCode_content this st0 st1 _ Hbuild (mk_is_Some _ _ Hc))
      as Hat.
    rewrite Hc in Hat. unfold fileAt in Hat. exists c.
    destruct (keyOf this kv.1) as [|x k]; [done|]. simpl in Hat.
    by destruct (disk st1 !! (x :: k)) as [[c'|]|]; simplify_eq. }
  assert (Hroot : Fs.lookup (disk st1) (Path.segments (_root this))
                  = Some EDir).
  { destruct (Hfiles ("base-application.js", baseApplicationText this))
      as [c Hc].
    { apply elem_of_app. left. apply elem_of_cons. by left. }
    unfold keyOf, filenameOf in Hc. simpl in Hc.
    rewrite segments_join_plain in Hc;
      [|done|repeat split; vm_compute; congruence].
    destruct (decide (Path.segments (_root this) = [])) as [->|Hne]; [done|].
    rewrite Fs_lookup_nonempty by done.
    by apply (wellFormed_ancestor _ _ _ _ _ Hwf1 Hc). }
  destruct (clean_returns this st1 Hwf1 Habs (or_intror Hroot))
    as (sb & Hcleanb & Hwfb & Hsub).
  destruct (forEach_writes_again this (disk st1) (buildWrites this) Habs Hwf1)
    with (st := sb) as (st2 & Hrun2).
  - intros kv Hkv. split; [by apply Hstatic | by apply Hfiles].
  - done.
  - intros k x Hx. exists x. split; [by apply Hsub | done].
  - exists st2. rewrite buildCode_unfold, Hcleanb. exact Hrun2.
Qed.

(** ** The namespace of an extension *)

Lemma join_split s : Js.join "/" (Js.split "/" s) = s.
Proof.
  induction s as [|a r IH]; [done|]. simpl.
  destruct (Ascii.eqb_spec a "/") as [->|Hne].
  - rewrite join_cons_nonempty by apply split_nonempty. by rewrite IH.
  - destruct (Js.split "/" r) as [|x t] eqn:Hs; [by apply split_nonempty in Hs|].
    rewrite <- IH. by destruct t.
Qed.

Lemma segments_join_plain_list root segs :
  Path.isAbsolute root = true → Forall plain segs → segs ≠ [] →
  Path.segments (Path.join root (Js.join "/" segs)) = Path.segments root ++ segs.
Proof.
  intros Habs Hall Hne.
  destruct (exists_last Hne) as (l & x & ->).
  assert (Hx : plain x).
  { apply Forall_app in Hall as [_ H]. by apply Forall_cons in H as [? _]. }
  assert (Hslash : Forall (fun s => hasSlash s = false) (l ++ [x])).
  { eapply Forall_impl; [exact Hall|]. by intros s (_ & _ & _ & ?). }
  assert (Hj : Js.join "/" (l ++ [x]) ≠ "") by (apply join_nonempty, Hx).
  destruct root as [|c root]; [done|].
  unfold Path.join.
  destruct (String.eqb_spec (String c root) ""); [done|].
  destruct (String.eqb_spec (Js.join "/" (l ++ [x])) ""); [done|].
  unfold Path.normalize.
  destruct (String.eqb_spec (String c root +:+ "/" +:+ Js.join "/" (l ++ [x])) "");
    [done|].
  change (Path.isAbsolute (String c root +:+ "/" +:+ Js.join "/" (l ++ [x])))
    with (Path.isAbsolute (String c root)).
  rewrite Habs. simpl negb.
  assert (Hend : Js.endsWith
                   (String c root +:+ "/" +:+ Js.join "/" (l ++ [x])) "/"
                 = false).
  { rewrite endsWith_app; [|done|done|simpl; lia].
    rewrite (endsWith_app "/" (Js.join "/" (l ++ [x])));
      [|done|done|].
    - by apply endsWith_slash_join.
    - destruct (Js.join "/" (l ++ [x])); [done|simpl; lia]. }
  rewrite Hend, split_app, split_join by (done || by destruct l).
  assert (Hnorm : Path.normalizeSegments false
                    (Js.split "/" (String c root) ++ l ++ [x])
                  = Path.segments (String c root) ++ l ++ [x]).
  { unfold Path.segments, Path.normalizeSegments.
    rewrite fold_left_app, fold_step_plain by done.
    by rewrite rev_app_distr, rev_involutive. }
  rewrite Hnorm.
  destruct (String.eqb_spec
              (Js.join "/" (Path.segments (String c root) ++ l ++ [x])) "")
    as [He|_].
  { exfalso. rewrite app_assoc in He. revert He. apply join_nonempty, Hx. }
  apply segments_slash_join. apply Forall_app. split; [|done].
  apply segments_plain.
Qed.

Lemma join_plain_relative name filePath :
  plain name → Forall plain (Js.split "/" filePath) →
  Path.join name filePath = Js.join "/" (name :: Js.split "/" filePath).
Proof.
  intros Hname Hall.
  assert (Hne : filePath ≠ "").
  { intros ->. simpl in Hall. apply Forall_cons in Hall as [[H _] _]. done. }
  destruct Hname as (Hn & Hrest). unfold Path.join.
  destruct (String.eqb_spec name ""); [done|].
  destruct (String.eqb_spec filePath ""); [done|].
  rewrite <- (join_split filePath) at 1.
  rewrite <- join_cons_nonempty by apply split_nonempty.
  destruct (exists_last (split_nonempty "/" filePath)) as (l & x & Hs).
  rewrite Hs in *.
  change (name :: l ++ [x]) with ((name :: l) ++ [x]).
  apply normalize_plain_relative. simpl. by constructor.
Qed.

(** A source of an extension with a plain name, at a path of plain
    names, is written below the directory of the extension. *)
Lemma keyOf_namespaced this name filePath :
  Path.isAbsolute (_root this) = true →
  plain name → Forall plain (Js.split "/" filePath) →
  keyOf this (Path.join name filePath)
  = Path.segments (_root this) ++ name :: Js.split "/" filePath.
Proof.
  intros Habs Hname Hall. unfold keyOf, filenameOf.
  rewrite (join_plain_relative name filePath) by done.
  apply (segments_join_plain_list (_root this)
           (name :: Js.split "/" filePath) Habs); [|discriminate].
  by constructor.
Qed.

(** C8, as the code has it: the listener of an extension writes the
    files of the mapping it is given, each at its path joined to the
    name of the extension by [path.join], and nothing else: the paths
    written are the paths of the mapping joined to the name, but for a
    joined path [__proto__], which [Object.assign] drops; when it
    returns, the files, the list of written files and the events are
    those of these writes (of the first few of them when it throws); a
    file at any other path keeps its content, no file is removed, and
    the list of written files is only added to: there is no [clean].
    For an absolute root, a plain extension name and paths of plain
    names, and then only, the files written are in the directory of
    the extension, and every file outside it keeps its content: the
    base application, the [define] module and the files of the other
    extensions. *)
Theorem onGenerated_writes_only
  (this : t) (extension : Extension.t) (sources : list (string * string))
  (st : state) :
  let resolved := _resolveAddonRelativeSources extension sources in
  let o := onGenerated this extension sources st in
  (∀ path, path ∈ Obj.keys resolved ↔
           path ≠ "__proto__" ∧
           ∃ filePath, filePath ∈ Obj.keys sources ∧
                       path = Path.join (Extension.getName extension) filePath) ∧
  (∀ path content, (path, content) ∈ resolved →
                   ∃ filePath, (filePath, content) ∈ sources ∧
                               path = Path.join (Extension.getName extension)
                                        filePath) ∧
  (returned o = true → wrote this resolved st (stateOf o)) ∧
  (∃ done rest, resolved = done ++ rest ∧ wrote this done st (stateOf o)) ∧
  (∀ k, k ∉ map (keyOf this) (Obj.keys resolved) →
        fileAt (disk (stateOf o)) k = fileAt (disk st) k) ∧
  (∀ k content, fileAt (disk st) k = Some content →
                is_Some (fileAt (disk (stateOf o)) k)) ∧
  (∃ added, _files (stateOf o) = _files st ++ added) ∧
  (Path.isAbsolute (_root this) = true →
   plain (Extension.getName extension) →
   (∀ filePath, filePath ∈ Obj.keys sources →
                Forall plain (Js.split "/" filePath)) →
   (∀ filePath, filePath ∈ Obj.keys sources →
                keyOf this (Path.join (Extension.getName extension) filePath)
                = Path.segments (_root this)
                    ++ Extension.getName extension :: Js.split "/" filePath) ∧
   ∀ k, (∀ rest, k ≠ Path.segments (_root this)
                      ++ Extension.getName extension :: rest) →
        fileAt (disk (stateOf o)) k = fileAt (disk st) k).
Proof.
  intros resolved o.
  destruct (forEach_writes_done this resolved st)
    as (done & rest & Hsplit & Hw & Hret).
  fold (_writeSources this resolved st) in Hw, Hret.
  change (_writeSources this resolved st) with o in Hw, Hret.
  assert (Hframe : ∀ k, k ∉ map (keyOf this) (Obj.keys resolved) →
                        fileAt (disk (stateOf o)) k = fileAt (disk st) k).
  { intros k Hk. destruct Hw as (Hd & _). rewrite Hd.
    rewrite lastWritten_none; [done|].
    intros Hin. apply Hk. unfold Obj.keys. rewrite Hsplit.
    rewrite map_map, map_app. apply elem_of_app. by left. }
  split; [apply resolve_keys|]. split; [apply resolve_entries|].
  split; [|split; [|split; [|split; [|split]]]].
  - intros Hr. specialize (Hret Hr). subst rest.
    rewrite app_nil_r in Hsplit. by rewrite Hsplit.
  - by exists done, rest.
  - exact Hframe.
  - intros k content Hk. destruct Hw as (Hd & _). rewrite Hd, Hk.
    by destruct (lastWritten this done k).
  - destruct (wrote_files_grow this done st _ Hw) as (added & Hf & _).
    by exists added.
  - intros Habs Hname Hpaths. split.
    { intros filePath Hin. by apply keyOf_namespaced; [| |apply Hpaths]. }
    intros k Hout. apply Hframe.
    intros Hin. apply list_elem_of_fmap in Hin as (path & -> & Hpath).
    apply resolve_keys in Hpath as (_ & filePath & Hfile & ->).
    apply (Hout (Js.split "/" filePath)).
    by apply keyOf_namespaced; [| |apply Hpaths].
Qed.

Lemma onGenerated_writes_only_witness :
  wrote Sample.provider [("foo/bar.js", "content")]
    (initial Sample.populated)
    (stateOf
       (onGenerated Sample.provider Sample.foo [("bar.js", "content")]
          (initial Sample.populated))) ∧
  ∀ k, (∀ rest, k ≠ ["project"; "out"] ++ "foo" :: rest) →
       fileAt
         (disk (stateOf
                  (onGenerated Sample.provider Sample.foo
                     [("bar.js", "content")] (initial Sample.populated)))) k
       = fileAt (disk (initial Sample.populated)) k.
Proof.
  destruct (onGenerated_writes_only Sample.provider Sample.foo
              [("bar.js", "content")] (initial Sample.populated))
    as (_ & _ & Hret & _ & _ & _ & _ & Hspace).
  split.
  - apply Hret. vm_compute. reflexivity.
  - apply Hspace.
    + vm_compute. reflexivity.
    + repeat split; vm_compute; congruence.
    + intros filePath Hin. apply list_elem_of_singleton in Hin as ->.
      apply (bool_decide_unpack _). vm_compute. exact I.
Defined.

(** C8, as stated, fails: after a build of the sample project, a
    notification of [foo] with the file [../define.js] returns, and
    the file is written over the [define] module, at the top of the
    root and not in the directory of [foo]; and a file whose joined
    path is [__proto__] is written nowhere. *)
Lemma onGenerated_rewrites_define :
  returned
    (onGenerated Sample.provider Sample.foo [("../define.js", "x")]
       SampleRuns.once)
  = true ∧
  fileAt (disk SampleRuns.once) ["project"; "out"; "define.js"]
  = Some (Defines.content (BuildConfig.define (_buildConfig Sample.provider))) ∧
  fileAt
    (disk (stateOf
             (onGenerated Sample.provider Sample.foo [("../define.js", "x")]
                SampleRuns.once)))
    ["project"; "out"; "define.js"]
  = Some "x" ∧
  fileAt
    (disk (stateOf
             (onGenerated Sample.provider Sample.foo [("../define.js", "x")]
                SampleRuns.once)))
    ["project"; "out"; "foo"; "define.js"]
  = None ∧
  Defines.content (BuildConfig.define (_buildConfig Sample.provider)) ≠ "x" ∧
  _resolveAddonRelativeSources Sample.foo [("../__proto__", "x")] = [] ∧
  onGenerated Sample.provider Sample.foo [("../__proto__", "x")] SampleRuns.once
  = Returned SampleRuns.once.
Proof. repeat split; vm_compute; congruence. Qed.

(** ** Building twice *)

(** C1: when [buildCode] has returned, a second [buildCode] on the
    same provider that returns leaves every file of the build, the
    base application, the entry file and the [define] module among
    them, with the content it had after the first; and on a
    well-formed disk with an absolute output root the second
    [buildCode] does return. *)
Theorem buildCode_twice (this : t) (st0 st1 : state) :
  buildCode this st0 = Returned st1 →
  (∀ st2,
      buildCode this st1 = Returned st2 →
      (∀ kv, kv ∈ buildWrites this →
             is_Some (Fs.readFile (filenameOf this kv.1) (disk st1)) ∧
             Fs.readFile (filenameOf this kv.1) (disk st2)
             = Fs.readFile (filenameOf this kv.1) (disk st1)) ∧
      (∀ src, src ∈ ["base-application.js"; "app.js"; "define.js"] →
              is_Some (Fs.readFile (filenameOf this src) (disk st1)) ∧
              Fs.readFile (filenameOf this src) (disk st2)
              = Fs.readFile (filenameOf this src) (disk st1)) ∧
      Fs.readFile (filenameOf this "define.js") (disk st2)
      = Some (Defines.content (BuildConfig.define (_buildConfig this)))) ∧
  (wellFormed (disk st0) →
   Path.isAbsolute (_root this) = true →
   ∃ st2, buildCode this st1 = Returned st2).
Proof.
  intros H1. split; [|intros Hwf Habs; by apply (buildCode_returns_again this st0)].
  intros st2 H2.
  assert (Hall : ∀ kv, kv ∈ buildWrites this →
             is_Some (Fs.readFile (filenameOf this kv.1) (disk st1)) ∧
             Fs.readFile (filenameOf this kv.1) (disk st2)
             = Fs.readFile (filenameOf this kv.1) (disk st1)).
  { intros kv Hin. pose proof (lastWritten_some this _ kv Hin) as Hsome.
    rewrite !readFile_filename
      by by apply (buildCode_no_slash this st0 st1 H1).
    rewrite (buildCode_content this st0 st1 _ H1 Hsome).
    rewrite (buildCode_content this st1 st2 _ H2 Hsome). done. }
  split; [exact Hall|]. split.
  - intros src Hin. unfold buildWrites, baseAppWrites, definesWrites in Hall.
    rewrite !elem_of_cons in Hin. destruct Hin as [->|[->|[->|Hin]]].
    + apply (Hall ("base-application.js", baseApplicationText this)).
      apply elem_of_app. left. apply elem_of_cons. by left.
    + apply (Hall ("app.js", appText this)).
      apply elem_of_app. left. rewrite !elem_of_cons. tauto.
    + apply (Hall ("define.js",
                   Defines.content (BuildConfig.define (_buildConfig this)))).
      apply elem_of_app. right. apply elem_of_app. right.
      apply elem_of_cons. by left.
    + by apply elem_of_nil in Hin.
  - rewrite readFile_filename.
    2:{ apply (buildCode_no_slash this st0 st1 H1
                 ("define.js",
                  Defines.content (BuildConfig.define (_buildConfig this)))).
        apply elem_of_app. right. apply elem_of_app. right.
        apply elem_of_cons. by left. }
    assert (Hlast : lastWritten this (buildWrites this) (keyOf this "define.js")
                    = Some (Defines.content
                              (BuildConfig.define (_buildConfig this)))).
    { unfold buildWrites, definesWrites. rewrite app_assoc.
      apply lastWritten_last. }
    rewrite (buildCode_content this st1 st2 _ H2); [done|]. by rewrite Hlast.
Qed.

Lemma buildCode_twice_witness :
  ((∀ kv, kv ∈ buildWrites Sample.provider →
          is_Some (Fs.readFile (filenameOf Sample.provider kv.1)
                     (disk SampleRuns.once)) ∧
          Fs.readFile (filenameOf Sample.provider kv.1) (disk SampleRuns.twice)
          = Fs.readFile (filenameOf Sample.provider kv.1)
              (disk SampleRuns.once)) ∧
   (∀ src, src ∈ ["base-application.js"; "app.js"; "define.js"] →
           is_Some (Fs.readFile (filenameOf Sample.provider src)
                      (disk SampleRuns.once)) ∧
           Fs.readFile (filenameOf Sample.provider src) (disk SampleRuns.twice)
           = Fs.readFile (filenameOf Sample.provider src)
               (disk SampleRuns.once)) ∧
   Fs.readFile (filenameOf Sample.provider "define.js") (disk SampleRuns.twice)
   = Some (Defines.content (BuildConfig.define (_buildConfig Sample.provider)))) ∧
  ∃ st2, buildCode Sample.provider SampleRuns.once = Returned st2.
Proof.
  destruct (buildCode_twice Sample.provider (initial Sample.populated)
              SampleRuns.once) as [Hsame Hagain].
  { vm_compute. reflexivity. }
  split.
  - apply (Hsame SampleRuns.twice). vm_compute. reflexivity.
  - apply Hagain.
    + apply (bool_decide_unpack (wellFormed _)). vm_compute. exact I.
    + vm_compute. reflexivity.
Defined.

(** * Further properties *)

(** ** One write *)

Lemma mkdirs_exists todo : ∀ above (d d' : gmap (list string) entry),
  above = [] ∨ d !! above = Some EDir →
  Fs.mkdirs above todo d = Ok d' →
  Fs.lookup d' (above ++ todo) = Some EDir.
Proof.
  induction todo as [|seg rest IH]; intros above d d' Habove Hmk.
  - injection Hmk as <-. rewrite app_nil_r.
    destruct Habove as [->|H]; [done|]. by destruct above.
  - simpl in Hmk.
    replace (above ++ seg :: rest) with ((above ++ [seg]) ++ rest)
      by by rewrite <- app_assoc.
    destruct (d !! (above ++ [seg])) as [[c|]|] eqn:Hd; [done| |].
    + by apply (IH _ d d' (or_intror Hd)).
    + apply (IH _ (<[above ++ [seg] := EDir]> d) d'); [|done].
      right. apply lookup_insert_eq.
Qed.

Lemma writeFile_returned_dir this src content st st' :
  _writeFile this src content st = Returned st' →
  ∃ d1,
    Fs.existsSync (Path.dirname (filenameOf this src)) d1 = true ∧
    Fs.writeFileSync (filenameOf this src) content d1 = Ok (disk st').
Proof.
  intros H. pose proof H as Hinv.
  apply writeFile_returned in Hinv as (d1 & Hdir & Hw).
  unfold _writeFile in H. fold (filenameOf this src) in H.
  destruct (Fs.existsSync (Path.dirname (filenameOf this src)) (disk st))
    eqn:Hex.
  - exists (disk st). split.
    + exact Hex.
    + cbn [andThen] in H. unfold onDisk at 1 in H.
      destruct (Fs.writeFileSync (filenameOf this src) content (disk st))
        as [d2|e] eqn:Hw2; [|done].
      cbn [andThen] in H.
      destruct (Js.includes (filenameOf this src) (_files (setDisk d2 st)));
        injection H as <-; done.
  - unfold onDisk at 1 in H.
    destruct (Fs.ensureDirSync (Path.dirname (filenameOf this src)) (disk st))
      as [d0|e] eqn:Hmk; [|done].
    exists d0. split.
    + unfold Fs.ensureDirSync in Hmk.
      apply mkdirs_exists in Hmk; [|by left]. simpl in Hmk.
      unfold Fs.existsSync. by rewrite (named_dir _ _ Hmk).
    + cbn [andThen] in H. unfold onDisk at 1 in H. cbn [disk setDisk] in H.
      destruct (Fs.writeFileSync (filenameOf this src) content d0)
        as [d2|e] eqn:Hw2; [|done].
      cbn [andThen] in H.
      destruct (Js.includes (filenameOf this src)
                  (_files (setDisk d2 (setDisk d0 st))));
        injection H as <-; done.
Qed.

(** X1: when [_writeFile] returns, the file reads back the content
    written, every file at another path reads as before, and the
    directory of the file is there. *)
Theorem writeFile_read_back
  (this : t) (src content : string) (st st' : state) :
  _writeFile this src content st = Returned st' →
  Fs.readFile (filenameOf this src) (disk st') = Some content ∧
  (∀ p, Path.segments p ≠ keyOf this src →
        Fs.readFile p (disk st') = Fs.readFile p (disk st)) ∧
  Fs.existsSync (Path.dirname (filenameOf this src)) (disk st') = true.
Proof.
  intros H.
  pose proof (writeFile_outcome this src content st) as Hw.
  rewrite H in Hw. destruct Hw as (Hfiles & _).
  split; [|split].
  - rewrite readFile_filename by apply (writeFile_no_slash _ _ _ _ _ H).
    rewrite Hfiles. simpl. by rewrite decide_True.
  - intros p Hp. rewrite !readFile_fileAt.
    destruct (Js.endsWith p "/"); [done|].
    rewrite Hfiles. simpl. by rewrite decide_False.
  - apply writeFile_returned_dir in H as (d1 & Hex & Hwrite).
    apply existsSync_true in Hex as [x Hx].
    apply named_Ok in Hx as [Hx Hslash].
    apply writeFileSync_inv in Hwrite as (_ & Hk & _ & Hnodir & ->).
    unfold Fs.existsSync, Fs.named.
    destruct (Path.segments (Path.dirname (filenameOf this src)))
      as [|y dir]; [done|].
    simpl in *.
    destruct (decide (Path.segments (filenameOf this src) = y :: dir))
      as [Heq|Hne].
    + rewrite Heq in *. rewrite lookup_insert_eq.
      destruct x as [c|]; [|done]. by rewrite Hslash.
    + rewrite lookup_insert_ne by done. rewrite Hx.
      destruct x as [c|]; [|done]. by rewrite Hslash.
Qed.

Lemma writeFile_read_back_witness :
  Fs.readFile (filenameOf Sample.provider "deep/new.js")
    (disk (stateOf (_writeFile Sample.provider "deep/new.js" "text"
                      (initial Sample.populated))))
  = Some "text" ∧
  (∀ p, Path.segments p ≠ keyOf Sample.provider "deep/new.js" →
        Fs.readFile p
          (disk (stateOf (_writeFile Sample.provider "deep/new.js" "text"
                            (initial Sample.populated))))
        = Fs.readFile p (disk (initial Sample.populated))) ∧
  Fs.existsSync (Path.dirname (filenameOf Sample.provider "deep/new.js"))
    (disk (stateOf (_writeFile Sample.provider "deep/new.js" "text"
                      (initial Sample.populated))))
  = true.
Proof.
  apply (writeFile_read_back Sample.provider "deep/new.js" "text"
           (initial Sample.populated)).
  vm_compute. reflexivity.
Defined.

(** X2: when [_writeFile] throws, no file has changed, the list of
    written files is as it was and no event was sent. *)
Theorem writeFile_throw_keeps
  (this : t) (src content : string) (st st' : state) (e : error) :
  _writeFile this src content st = Threw e st' →
  (∀ p, Fs.readFile p (disk st') = Fs.readFile p (disk st)) ∧
  _files st' = _files st ∧
  emitted st' = emitted st.
Proof.
  intros H.
  pose proof (writeFile_outcome this src content st) as Hw.
  rewrite H in Hw. destruct Hw as (Hfiles & Hreg & Hev).
  split; [|split].
  - intros p. rewrite !readFile_fileAt.
    destruct (Js.endsWith p "/"); [done|]. apply (Hfiles (Path.segments p)).
  - exact Hreg.
  - simpl in Hev. by rewrite app_nil_r in Hev.
Qed.

Lemma writeFile_throw_keeps_witness :
  (∀ p, Fs.readFile p
          (disk (stateOf (_writeFile Sample.provider "stale.js/inner.js" "text"
                            (initial Sample.populated))))
        = Fs.readFile p (disk (initial Sample.populated))) ∧
  _files (stateOf (_writeFile Sample.provider "stale.js/inner.js" "text"
                     (initial Sample.populated)))
  = _files (initial Sample.populated) ∧
  emitted (stateOf (_writeFile Sample.provider "stale.js/inner.js" "text"
                      (initial Sample.populated)))
  = emitted (initial Sample.populated).
Proof.
  apply (writeFile_throw_keeps Sample.provider "stale.js/inner.js" "text"
           (initial Sample.populated) _ ENOTDIR).
  vm_compute. reflexivity.
Defined.

(** ** What a call writes *)


Lemma writeFile_returned_static this src content st st' :
  _writeFile this src content st = Returned st' →
  Js.endsWith (filenameOf this src) "/" = false.
Proof.
  intros H. apply writeFile_returned in H as (d1 & _ & Hw).
  by apply writeFileSync_inv in Hw as (? & _).
Qed.

(** A run of writes: the writes done, each of which returned, and the
    writes left when one threw. *)
Lemma forEach_writes_split this l : ∀ st,
  ∃ done rest,
    l = done ++ rest ∧
    wrote this done st
      (stateOf (forEach (fun kv => _writeFile this kv.1 kv.2) l st)) ∧
    Forall (fun kv => Js.endsWith (filenameOf this kv.1) "/" = false) done ∧
    (returned (forEach (fun kv => _writeFile this kv.1 kv.2) l st) = true →
     rest = []) ∧
    (returned (forEach (fun kv => _writeFile this kv.1 kv.2) l st) = false →
     rest ≠ []).
Proof.
  induction l as [|[src content] l IH]; intros st.
  - exists [], []. split; [done|]. split; [apply wrote_refl|]. by repeat split.
  - simpl forEach.
    pose proof (writeFile_outcome this src content st) as H1.
    destruct (_writeFile this src content st) as [st1|e st1] eqn:Hrun.
    + cbn [andThen]. destruct (IH st1) as (done & rest & -> & Hw & Hs & Hr & Ht).
      exists ((src, content) :: done), rest. split; [done|]. split.
      * apply (wrote_app this [(src, content)] done _ _ _ H1 Hw).
      * split; [|by split]. constructor; [|done].
        by apply (writeFile_returned_static this src content st st1).
    + cbn [andThen]. exists [], ((src, content) :: l).
      split; [done|]. split; [exact H1|]. by repeat split.
Qed.

Lemma perform_shape this c st :
  perform this c st
  = match c with
    | CallClean | CallBuildCode =>
        clean this st ;;;
        forEach (fun kv => _writeFile this kv.1 kv.2) (plannedWrites this c)
    | _ => forEach (fun kv => _writeFile this kv.1 kv.2)
             (plannedWrites this c) st
    end.
Proof.
  destruct c; cbn [perform plannedWrites].
  - by destruct (clean this st).
  - apply buildCode_unfold.
  - apply generateBaseApp_writes.
  - apply generateExtensionsCode_writes.
  - apply generateDefines_writes.
  - reflexivity.
Qed.

(** Any call: it writes from the state its [clean] leaves, some first
    part of its writes, all of them when it returns. *)
Lemma perform_split this c st :
  ∃ done rest,
    plannedWrites this c = done ++ rest ∧
    wrote this done (afterClean this c st) (stateOf (perform this c st)) ∧
    Forall (fun kv => Js.endsWith (filenameOf this kv.1) "/" = false) done ∧
    (returned (perform this c st) = true → rest = []).
Proof.
  rewrite perform_shape.
  assert (Hwrites : ∀ s,
    ∃ done rest,
      plannedWrites this c = done ++ rest ∧
      wrote this done s
        (stateOf (forEach (fun kv => _writeFile this kv.1 kv.2)
                    (plannedWrites this c) s)) ∧
      Forall (fun kv => Js.endsWith (filenameOf this kv.1) "/" = false) done ∧
      (returned (forEach (fun kv => _writeFile this kv.1 kv.2)
                   (plannedWrites this c) s) = true → rest = [])).
  { intros s.
    destruct (forEach_writes_split this (plannedWrites this c) s)
      as (done & rest & H1 & H2 & H3 & H4 & _).
    by exists done, rest. }
  assert (Hclean :
    ∃ done rest,
      plannedWrites this c = done ++ rest ∧
      wrote this done (stateOf (clean this st))
        (stateOf (clean this st ;;;
                  forEach (fun kv => _writeFile this kv.1 kv.2)
                    (plannedWrites this c))) ∧
      Forall (fun kv => Js.endsWith (filenameOf this kv.1) "/" = false) done ∧
      (returned (clean this st ;;;
                 forEach (fun kv => _writeFile this kv.1 kv.2)
                   (plannedWrites this c)) = true → rest = [])).
  { destruct (clean this st) as [sa|e sa]; cbn [andThen stateOf].
    - apply Hwrites.
    - exists [], (plannedWrites this c). split; [done|].
      split; [apply wrote_refl|]. split; [constructor|]. intros Hf. done. }
  destruct c; cbn [afterClean]; (apply Hclean || apply Hwrites).
Qed.

Lemma afterClean_files this c st :
  (_files (afterClean this c st) = [] ∨
   _files (afterClean this c st) = _files st) ∧
  emitted (afterClean this c st) = emitted st.
Proof.
  destruct c; cbn [afterClean]; try (split; [by right | done]);
    apply clean_files.
Qed.

Lemma elem_of_Set_add_fold l acc f :
  f ∈ fold_left Js.Set_add l acc → f ∈ acc ∨ f ∈ l.
Proof.
  rewrite Set_add_fold, elem_of_app, list_elem_of_filter,
    firstOccurrences_elem. tauto.
Qed.

(** ** The list of written files, call by call *)

Lemma firstOccurrences_app a l :
  firstOccurrences (a ++ l)
  = firstOccurrences a ++ filter (fun y => y ∉ a) (firstOccurrences l).
Proof.
  induction a as [|x a IH]; simpl.
  - symmetry. apply filter_all. intros y _. apply not_elem_of_nil.
  - rewrite IH, filter_app, list_filter_filter. do 2 f_equal.
    apply list_filter_iff. intros y. rewrite not_elem_of_cons. tauto.
Qed.

Lemma Set_add_firstOccurrences a l :
  fold_left Js.Set_add l (firstOccurrences a) = firstOccurrences (a ++ l).
Proof.
  rewrite Set_add_fold, firstOccurrences_app. f_equal.
  apply list_filter_iff. intros y. by rewrite firstOccurrences_elem.
Qed.

(** What [clean] does to the list of written files: it empties it when
    it found the root and returned, and leaves it as it is when it did
    not find the root or threw. *)
Lemma clean_registry this st :
  _files (stateOf (clean this st))
  = if Fs.pathExistsSync (_root this) (disk st) && returned (clean this st)
    then [] else _files st.
Proof.
  unfold clean.
  destruct (Fs.pathExistsSync (_root this) (disk st)); [|done].
  cbn [negb andb].
  destruct (Fs.readdirSync (_root this) (disk st)) as [names|err]; [|done].
  pose proof (forEach_cleanEntry_files this names st) as [Hf _].
  by destruct (forEach (cleanEntry this) names st) as [st1|err st1].
Qed.

Lemma afterClean_registry this c st :
  _files (afterClean this c st) = if cleaned this c st then [] else _files st.
Proof. destruct c; cbn [afterClean cleaned]; try done; apply clean_registry. Qed.

(** One call: the paths it has written are those of the writes it has
    made, and the list of written files is the list it started from,
    or the empty list after a [clean] that found the root and
    returned, with these paths added, each once. *)
Lemma perform_registry this c st :
  ∃ done,
    wrote this done (afterClean this c st) (stateOf (perform this c st)) ∧
    writtenBy this c st = filenamesOf this done ∧
    _files (stateOf (perform this c st))
    = fold_left Js.Set_add (writtenBy this c st)
        (if cleaned this c st then [] else _files st).
Proof.
  destruct (perform_split this c st) as (done & rest & _ & Hw & _).
  exists done. split; [exact Hw|].
  destruct Hw as (_ & Hreg & Hev).
  destruct (afterClean_files this c st) as [_ Hevmid].
  assert (Hby : writtenBy this c st = filenamesOf this done).
  { unfold writtenBy. rewrite Hev, Hevmid, drop_app_length.
    apply changedPaths_eventsOf. }
  split; [exact Hby|]. by rewrite Hby, Hreg, afterClean_registry.
Qed.

Lemma session_registry this calls : ∀ st since,
  _files st = firstOccurrences since →
  _files (session this calls st)
  = firstOccurrences (writtenSinceClean this calls st since).
Proof.
  induction calls as [|c calls IH]; intros st since Hst; [done|].
  cbn [session fold_left writtenSinceClean].
  change (fold_left (fun st c => stateOf (perform this c st)) calls
            (stateOf (perform this c st)))
    with (session this calls (stateOf (perform this c st))).
  apply IH. destruct (perform_registry this c st) as (done & _ & _ & ->).
  rewrite <- Set_add_firstOccurrences.
  destruct (cleaned this c st); [done | by rewrite Hst].
Qed.

(** C3, as the code has it: after every call of a session, whether it
    returned or threw, the list of written files has no path twice,
    and it is the paths written since the most recent [clean] that
    found the output root and returned (since the start of the session
    when there was none), each once, in the order they were first
    written; the paths a call has written are those of the writes it
    has made. The list changes in two places only: a write that
    returns adds its path, unless the list has it, and a write that
    throws adds nothing; a [clean] that finds the output root and
    returns leaves the list empty, and a [clean] that does not find
    the root, which returns with the state as it was, or that throws,
    leaves the list as it was. Writing a path a second time leaves the
    list as it is. *)
Theorem registry_tracks_writes :
  (∀ this calls d, NoDup (_files (session this calls (initial d)))) ∧
  (∀ this calls d,
      _files (session this calls (initial d))
      = firstOccurrences (writtenSinceClean this calls (initial d) [])) ∧
  (∀ this c st,
      ∃ done,
        wrote this done (afterClean this c st) (stateOf (perform this c st)) ∧
        writtenBy this c st = filenamesOf this done) ∧
  (∀ this src content st,
      _files (stateOf (_writeFile this src content st))
      = if returned (_writeFile this src content st)
        then Js.Set_add (_files st) (filenameOf this src)
        else _files st) ∧
  (∀ this st,
      _files (stateOf (clean this st))
      = if Fs.pathExistsSync (_root this) (disk st) && returned (clean this st)
        then [] else _files st) ∧
  (∀ this st,
      Fs.pathExistsSync (_root this) (disk st) = false →
      clean this st = Returned st) ∧
  (∀ this src content content' st st1 st2,
      _writeFile this src content st = Returned st1 →
      _writeFile this src content' st1 = Returned st2 →
      filenameOf this src ∈ _files st1 ∧ _files st2 = _files st1).
Proof.
  split; [|split; [|split; [|split; [|split; [|split]]]]].
  - intros this calls d. apply session_NoDup. constructor.
  - intros this calls d. by apply session_registry.
  - intros this c st.
    destruct (perform_registry this c st) as (done & Hw & Hby & _).
    by exists done.
  - intros this src content st.
    pose proof (writeFile_outcome this src content st) as Hw.
    by destruct (_writeFile this src content st) as [st1|e st1];
      destruct Hw as (_ & Hf & _).
  - intros this st. apply clean_registry.
  - intros this st H. unfold clean. by rewrite H.
  - intros this src content content' st st1 st2 H1 H2.
    pose proof (writeFile_outcome this src content st) as Hw1.
    pose proof (writeFile_outcome this src content' st1) as Hw2.
    rewrite H1 in Hw1. rewrite H2 in Hw2.
    destruct Hw1 as (_ & Hf1 & _). destruct Hw2 as (_ & Hf2 & _).
    simpl in Hf1, Hf2. unfold Js.Set_add in Hf1, Hf2.
    assert (Hin : filenameOf this src ∈ _files st1).
    { rewrite Hf1. destruct (Js.includes _ (_files st)) eqn:Hi.
      - by apply includes_true.
      - apply elem_of_app. right. by apply list_elem_of_singleton. }
    split; [done|]. rewrite Hf2.
    by rewrite (proj2 (includes_true _ _) Hin).
Qed.

(** On a disk whose output root is a regular file, after a notification
    that wrote above the root, [clean] throws and the list of written
    files is the path written. *)
Lemma registry_tracks_writes_witness :
  _files
    (session Sample.provider [SampleRuns.stray; CallClean]
       (initial SampleMore.blocked))
  = firstOccurrences
      (writtenSinceClean Sample.provider [SampleRuns.stray; CallClean]
         (initial SampleMore.blocked) []) ∧
  writtenSinceClean Sample.provider [SampleRuns.stray; CallClean]
    (initial SampleMore.blocked) []
  = ["/project/stray.js"].
Proof.
  destruct registry_tracks_writes as (_ & Hsince & _).
  split.
  - apply (Hsince Sample.provider [SampleRuns.stray; CallClean]
             SampleMore.blocked).
  - vm_compute. reflexivity.
Defined.

(** C3, as stated, fails: on a disk without the output root, after a
    notification of [foo] with the file [../../stray.js] (written at
    [/project/stray.js], above the root), the root is still not there,
    [clean] returns at once, and the list of written files still holds
    that path. *)
Lemma registry_kept_when_root_missing :
  Fs.pathExistsSync (_root Sample.provider)
    (disk (session Sample.provider [SampleRuns.stray] (initial Sample.bare)))
  = false ∧
  returned
    (clean Sample.provider
       (session Sample.provider [SampleRuns.stray] (initial Sample.bare)))
  = true ∧
  _files
    (session Sample.provider [SampleRuns.stray; CallClean]
       (initial Sample.bare))
  = ["/project/stray.js"] ∧
  _files
    (session Sample.provider [SampleRuns.stray; CallClean]
       (initial Sample.bare))
  ≠ [].
Proof. repeat split; vm_compute; congruence. Qed.


(** X4: with an absolute output root, every path in the list of
    written files of a session is in one form, a separator before each
    of its segments, so that two of them that name the same file are
    the same text: no file is listed under two spellings of its path. *)
Theorem registry_canonical (this : t) (calls : list call)
  (d : gmap (list string) entry) :
  Path.isAbsolute (_root this) = true →
  Forall canonical (_files (session this calls (initial d))) ∧
  ∀ f g, f ∈ _files (session this calls (initial d)) →
         g ∈ _files (session this calls (initial d)) →
         Path.segments f = Path.segments g → f = g.
Proof.
  intros Habs.
  assert (Hgen : ∀ st, Forall canonical (_files st) →
                       Forall canonical (_files (session this calls st))).
  { induction calls as [|c calls IH]; intros st Hst; [done|].
    simpl. apply IH.
    destruct (perform_split this c st)
      as (done & rest & _ & (_ & Hreg & _) & Hstatic & _).
    destruct (afterClean_files this c st) as [Hmid _].
    apply Forall_forall. intros f Hin. rewrite Hreg in Hin.
    apply elem_of_Set_add_fold in Hin as [Hin|Hin].
    - destruct Hmid as [Hm|Hm]; rewrite Hm in Hin;
        [by apply elem_of_nil in Hin|].
      by apply (proj1 (Forall_forall _ _) Hst).
    - apply list_elem_of_fmap in Hin as (kv & -> & Hkv).
      pose proof (proj1 (Forall_forall _ _) Hstatic kv Hkv) as Hend.
      apply (filename_shape (_root this) kv.1 Habs Hend). }
  assert (Hall : Forall canonical (_files (session this calls (initial d))))
    by (apply Hgen; constructor).
  split; [exact Hall|]. intros f g Hf Hg Hsame.
  rewrite (proj1 (Forall_forall _ _) Hall f Hf).
  rewrite (proj1 (Forall_forall _ _) Hall g Hg).
  by rewrite Hsame.
Qed.

Lemma registry_canonical_witness :
  Forall canonical
    (_files (session Sample.provider [CallBuildCode; SampleRuns.stray]
               (initial Sample.populated))) ∧
  ∀ f g,
    f ∈ _files (session Sample.provider [CallBuildCode; SampleRuns.stray]
                  (initial Sample.populated)) →
    g ∈ _files (session Sample.provider [CallBuildCode; SampleRuns.stray]
                  (initial Sample.populated)) →
    Path.segments f = Path.segments g → f = g.
Proof.
  apply (registry_canonical Sample.provider
           [CallBuildCode; SampleRuns.stray] Sample.populated).
  vm_compute. reflexivity.
Defined.

(** ** What a build leaves in the state *)

(** X5: when [buildCode] returns, called with an empty list of written
    files or with the output root there, the list of written files is
    the paths of the writes of the build, each once, in the order they
    were first written, and the events sent are those of these writes,
    in their order: the base application, then the extensions, then
    the [define] module. *)
Theorem buildCode_registry (this : t) (st st' : state) :
  buildCode this st = Returned st' →
  _files st = [] ∨ Fs.pathExistsSync (_root this) (disk st) = true →
  _files st' = firstOccurrences (filenamesOf this (buildWrites this)) ∧
  emitted st' = emitted st ++ eventsOf this (buildWrites this).
Proof.
  intros Hrun Hstart.
  destruct (perform_split this CallBuildCode st)
    as (done & rest & Hsplit & (_ & Hreg & Hev) & _ & Hret).
  cbn [perform plannedWrites afterClean] in *. rewrite Hrun in *.
  cbn [stateOf returned] in *. rewrite (Hret eq_refl), app_nil_r in Hsplit.
  subst done.
  rewrite buildCode_unfold in Hrun.
  destruct (clean this st) as [sa|e sa] eqn:Hclean; [|done].
  cbn [stateOf] in *.
  assert (Hsa : _files sa = [] ∧ emitted sa = emitted st).
  { destruct (Fs.pathExistsSync (_root this) (disk st)) eqn:Hex.
    - by apply (clean_returned_files this st sa Hclean).
    - unfold clean in Hclean. rewrite Hex in Hclean. injection Hclean as <-.
      by destruct Hstart. }
  destruct Hsa as [Hnil Hsame]. split.
  - rewrite Hreg, Hnil. apply Set_from_firstOccurrences.
  - by rewrite Hev, Hsame.
Qed.

Lemma buildCode_registry_witness :
  _files SampleRuns.once
  = firstOccurrences (filenamesOf Sample.provider (buildWrites Sample.provider)) ∧
  emitted SampleRuns.once
  = emitted (initial Sample.populated)
    ++ eventsOf Sample.provider (buildWrites Sample.provider).
Proof.
  apply (buildCode_registry Sample.provider (initial Sample.populated)
           SampleRuns.once).
  - vm_compute. reflexivity.
  - left. reflexivity.
Defined.

(** X6: when [buildCode] throws, either [clean] threw, or [clean]
    returned and the build stopped at one of its writes: the writes
    before it are done and stay done, in the files, in the list of
    written files and in the events, and nothing of the rest is
    written. Nothing is rolled back. *)
Theorem buildCode_no_rollback (this : t) (st st' : state) (e : error) :
  buildCode this st = Threw e st' →
  clean this st = Threw e st' ∨
  ∃ sa done rest,
    clean this st = Returned sa ∧
    buildWrites this = done ++ rest ∧
    rest ≠ [] ∧
    wrote this done sa st'.
Proof.
  intros Hrun. rewrite buildCode_unfold in Hrun.
  destruct (clean this st) as [sa|e' sa] eqn:Hclean; cbn [andThen] in Hrun.
  - right.
    destruct (forEach_writes_split this (buildWrites this) sa)
      as (done & rest & Hsplit & Hw & _ & _ & Hthrew).
    rewrite Hrun in Hw, Hthrew. exists sa, done, rest.
    split; [done|]. split; [done|]. split; [by apply Hthrew | exact Hw].
  - left. exact Hrun.
Qed.

Lemma buildCode_no_rollback_witness :
  clean SampleMore.failing (initial Sample.populated)
  = Threw ENOTDIR
      (stateOf (buildCode SampleMore.failing (initial Sample.populated))) ∨
  ∃ sa done rest,
    clean SampleMore.failing (initial Sample.populated) = Returned sa ∧
    buildWrites SampleMore.failing = done ++ rest ∧
    rest ≠ [] ∧
    wrote SampleMore.failing done sa
      (stateOf (buildCode SampleMore.failing (initial Sample.populated))).
Proof.
  apply (buildCode_no_rollback SampleMore.failing (initial Sample.populated)).
  vm_compute. reflexivity.
Defined.

(** ** The files of the base application *)

Lemma keyOf_plain this n :
  Path.isAbsolute (_root this) = true → plain n →
  keyOf this n = Path.segments (_root this) ++ [n].
Proof. intros Habs Hn. by apply segments_join_plain. Qed.

Lemma plain_base_application : plain "base-application.js".
Proof. repeat split; vm_compute; congruence. Qed.

Lemma plain_app : plain "app.js".
Proof. repeat split; vm_compute; congruence. Qed.

Lemma plain_package_info : plain "package-info.js".
Proof. repeat split; vm_compute; congruence. Qed.

(** What [generateBaseApp] leaves when it returns. *)
Lemma generateBaseApp_spec (this : t) (st st' : state) :
  Path.isAbsolute (_root this) = true →
  generateBaseApp this st = Returned st' →
  disk st' !! (Path.segments (_root this) ++ ["base-application.js"])
  = Some (EFile (baseApplicationText this)) ∧
  disk st' !! (Path.segments (_root this) ++ ["app.js"])
  = Some (EFile (appText this)) ∧
  disk st' !! (Path.segments (_root this) ++ ["package-info.js"])
  = Some (EFile (packageInfoText this)) ∧
  ∀ k, k ∉ [Path.segments (_root this) ++ ["base-application.js"];
            Path.segments (_root this) ++ ["app.js"];
            Path.segments (_root this) ++ ["package-info.js"]] →
       fileAt (disk st') k = fileAt (disk st) k.
Proof.
  intros Habs Hrun. rewrite generateBaseApp_writes in Hrun.
  pose proof (forEach_writes this (baseAppWrites this) st) as Hw.
  rewrite Hrun in Hw. destruct Hw as (Hfiles & _).
  assert (Hlast : ∀ k,
    lastWritten this (baseAppWrites this) k
    = if decide (Path.segments (_root this) ++ ["package-info.js"] = k)
      then Some (packageInfoText this)
      else if decide (Path.segments (_root this) ++ ["app.js"] = k)
      then Some (appText this)
      else if decide (Path.segments (_root this) ++ ["base-application.js"] = k)
      then Some (baseApplicationText this)
      else None).
  { intros k. unfold baseAppWrites. cbn [lastWritten fst snd].
    rewrite (keyOf_plain this _ Habs plain_base_application).
    rewrite (keyOf_plain this _ Habs plain_app).
    rewrite (keyOf_plain this _ Habs plain_package_info).
    repeat case_decide; done. }
  assert (Hat : ∀ k content, fileAt (disk st') k = Some content →
                             disk st' !! k = Some (EFile content)).
  { intros k content. unfold fileAt, Fs.lookup.
    destruct k; [done|]. by destruct (disk st' !! (s :: k)) as [[c|]|];
      intros; simplify_eq. }
  assert (Hne : ∀ a b : string, a ≠ b →
                  Path.segments (_root this) ++ [a]
                  ≠ Path.segments (_root this) ++ [b]).
  { intros a b Hab Heq. apply app_inv_head in Heq. congruence. }
  split; [|split; [|split]].
  - apply Hat. rewrite Hfiles, Hlast.
    rewrite decide_False by (by apply Hne).
    rewrite decide_False by (by apply Hne).
    by rewrite decide_True.
  - apply Hat. rewrite Hfiles, Hlast.
    rewrite decide_False by (by apply Hne).
    by rewrite decide_True.
  - apply Hat. rewrite Hfiles, Hlast. by rewrite decide_True.
  - intros k Hk. rewrite !not_elem_of_cons in Hk.
    destruct Hk as (H1 & H2 & H3 & _).
    rewrite Hfiles, Hlast. by rewrite !decide_False by done.
Qed.

(** X7: with an absolute output root, when [generateBaseApp] returns,
    the three files are at the top of the root, each with its rendered
    text: the bootstrap file, the entry file and the package
    information; every file at another path reads as before. *)
Theorem generateBaseApp_files (this : t) (st st' : state) :
  Path.isAbsolute (_root this) = true →
  generateBaseApp this st = Returned st' →
  disk st' !! (Path.segments (_root this) ++ ["base-application.js"])
  = Some (EFile (baseApplicationText this)) ∧
  disk st' !! (Path.segments (_root this) ++ ["app.js"])
  = Some (EFile (appText this)) ∧
  disk st' !! (Path.segments (_root this) ++ ["package-info.js"])
  = Some (EFile (packageInfoText this)) ∧
  ∀ k, k ∉ [Path.segments (_root this) ++ ["base-application.js"];
            Path.segments (_root this) ++ ["app.js"];
            Path.segments (_root this) ++ ["package-info.js"]] →
       fileAt (disk st') k = fileAt (disk st) k.
Proof. apply generateBaseApp_spec. Qed.

Lemma generateBaseApp_files_witness :
  disk (stateOf (generateBaseApp Sample.provider (initial Sample.bare)))
    !! (Path.segments (_root Sample.provider) ++ ["base-application.js"])
  = Some (EFile (baseApplicationText Sample.provider)) ∧
  disk (stateOf (generateBaseApp Sample.provider (initial Sample.bare)))
    !! (Path.segments (_root Sample.provider) ++ ["app.js"])
  = Some (EFile (appText Sample.provider)) ∧
  disk (stateOf (generateBaseApp Sample.provider (initial Sample.bare)))
    !! (Path.segments (_root Sample.provider) ++ ["package-info.js"])
  = Some (EFile (packageInfoText Sample.provider)) ∧
  ∀ k, k ∉ [Path.segments (_root Sample.provider) ++ ["base-application.js"];
            Path.segments (_root Sample.provider) ++ ["app.js"];
            Path.segments (_root Sample.provider) ++ ["package-info.js"]] →
       fileAt
         (disk (stateOf (generateBaseApp Sample.provider (initial Sample.bare))))
         k
       = fileAt (disk (initial Sample.bare)) k.
Proof.
  apply (generateBaseApp_files Sample.provider (initial Sample.bare)).
  - vm_compute. reflexivity.
  - vm_compute. reflexivity.
Defined.

(** ** The path of the entry module *)

(** C7, as the code has it: for every build configuration the entry
    template is rendered with the name of the project joined by
    [path.join] to the path of the entry module relative to the source
    root, less a trailing [.js] (a path that does not end so is kept
    as it is), and with an absolute output root that text is what
    [generateBaseApp] leaves in [app.js]; for a project whose name is
    a plain name and whose entry module lies below the source root,
    the path is the name, a separator, and the relative path, less
    the trailing [.js]. *)
Theorem appPath_name_and_relative (this : t) :
  let project := BuildConfig.project (_buildConfig this) in
  let resolve := PathHelper.resolveAbsolutePath (_pathHelper this) in
  let joined :=
    Path.join (Project.name project)
      (Path.relative (resolve (Project.src project))
         (resolve (Project.entry project))) in
  appText this
  = render this "app.js.tpl" (VObject [("path", VString (stripJs joined))]) ∧
  (∀ st st',
      Path.isAbsolute (_root this) = true →
      generateBaseApp this st = Returned st' →
      disk st' !! (Path.segments (_root this) ++ ["app.js"])
      = Some (EFile (render this "app.js.tpl"
                       (VObject [("path", VString (stripJs joined))])))) ∧
  (∀ base, stripJs (base +:+ ".js") = base) ∧
  (∀ s, Js.endsWith s ".js" = false → stripJs s = s) ∧
  (∀ rest,
      plain (Project.name project) →
      rest ≠ [] →
      Path.segments (resolve (Project.entry project))
      = Path.segments (resolve (Project.src project)) ++ rest →
      Path.relative (resolve (Project.src project))
        (resolve (Project.entry project))
      = Js.join "/" rest ∧
      stripJs joined
      = stripJs (Project.name project +:+ "/" +:+ Js.join "/" rest)).
Proof.
  intros project resolve joined.
  split; [reflexivity|]. split; [|split; [|split]].
  - intros st st' Habs Hrun.
    by destruct (generateBaseApp_spec this st st' Habs Hrun) as (_ & Happ & _).
  - intros base. unfold stripJs. by rewrite stripSuffix_app.
  - intros s Hs. unfold stripJs, Js.endsWith in *.
    by destruct (Js.stripSuffix s ".js").
  - intros rest Hname Hrest Hsegs.
    assert (Hplain : Forall plain rest).
    { pose proof (segments_plain (resolve (Project.entry project))) as H.
      rewrite Hsegs in H. by apply Forall_app in H as [_ ?]. }
    assert (Hrel : Path.relative (resolve (Project.src project))
                     (resolve (Project.entry project)) = Js.join "/" rest).
    { unfold Path.relative. by rewrite Hsegs, stripCommon_prefix. }
    split; [exact Hrel|]. unfold joined. rewrite Hrel. f_equal.
    destruct (exists_last Hrest) as (l & x & ->).
    assert (Hjoin : Js.join "/" (l ++ [x]) ≠ "").
    { apply join_nonempty.
      apply Forall_app in Hplain as [_ Hx]. apply Forall_cons in Hx as [Hx _].
      apply Hx. }
    unfold Path.join.
    destruct (String.eqb_spec (Project.name project) "") as [He|_];
      [by destruct Hname as [? _]|].
    destruct (String.eqb_spec (Js.join "/" (l ++ [x])) "") as [He|_]; [done|].
    rewrite <- join_cons_nonempty by (by destruct l).
    change (Project.name project :: l ++ [x])
      with ((Project.name project :: l) ++ [x]).
    apply normalize_plain_relative. simpl. by constructor.
Qed.

Lemma appPath_name_and_relative_witness :
  Path.relative "/project/src" "/project/src/main.js" = Js.join "/" ["main.js"] ∧
  stripJs (Path.join "app" (Path.relative "/project/src" "/project/src/main.js"))
  = stripJs ("app" +:+ "/" +:+ Js.join "/" ["main.js"]).
Proof.
  destruct (appPath_name_and_relative Sample.provider)
    as (_ & _ & _ & _ & Hbelow).
  apply (Hbelow ["main.js"]).
  - repeat split; vm_compute; congruence.
  - discriminate.
  - vm_compute. reflexivity.
Defined.

(** ** The files of the extensions *)

Lemma Obj_set_ordinary k v o :
  ordinaryKey k → Obj.set k v o = Obj.put k v o.
Proof.
  intros [Hne Hidx]. unfold Obj.set. rewrite Hidx.
  by destruct (String.eqb_spec k "__proto__").
Qed.

Lemma Obj_put_fresh k v o :
  k ∉ Obj.keys o → Obj.put k v o = o ++ [(k, v)].
Proof.
  unfold Obj.keys. induction o as [|[k' v'] r IH]; simpl; [done|].
  rewrite not_elem_of_cons. intros [Hne Hr].
  destruct (String.eqb_spec k' k) as [->|_]; [done|]. by rewrite IH.
Qed.

Lemma Obj_set_fresh k v o :
  ordinaryKey k → k ∉ Obj.keys o → Obj.set k v o = o ++ [(k, v)].
Proof.
  intros Hk Hnew. rewrite Obj_set_ordinary by done. by apply Obj_put_fresh.
Qed.

Lemma Obj_set_nil k v : k ≠ "__proto__" → Obj.set k v [] = [(k, v)].
Proof.
  intros Hne. unfold Obj.set.
  destruct (String.eqb_spec k "__proto__"); [done|].
  by destruct (Obj.arrayIndex k).
Qed.

Lemma keys_put_has k v o :
  k ∈ Obj.keys o → Obj.keys (Obj.put k v o) = Obj.keys o.
Proof.
  unfold Obj.keys. induction o as [|[k' v'] r IH]; simpl; intros Hin.
  - by apply elem_of_nil in Hin.
  - destruct (String.eqb_spec k' k) as [->|Hne]; [done|]. simpl. f_equal.
    apply IH. apply elem_of_cons in Hin as [->|Hin]; done.
Qed.

Lemma Obj_put_keys_NoDup k v o :
  NoDup (Obj.keys o) → NoDup (Obj.keys (Obj.put k v o)).
Proof.
  intros Hnd. destruct (decide (k ∈ Obj.keys o)) as [Hin|Hnew].
  - by rewrite keys_put_has.
  - rewrite Obj_put_fresh by done. unfold Obj.keys in *. rewrite map_app.
    apply NoDup_app. split; [done|]. split; [|apply NoDup_singleton].
    intros x Hx Hx'. apply list_elem_of_singleton in Hx'. by subst x.
Qed.

Lemma insertIndex_keys_NoDup n k v o :
  k ∉ Obj.keys o → NoDup (Obj.keys o) →
  NoDup (Obj.keys (Obj.insertIndex n k v o)).
Proof.
  unfold Obj.keys. induction o as [|[k' v'] r IH]; simpl; intros Hnew Hnd.
  - apply NoDup_singleton.
  - apply not_elem_of_cons in Hnew as [Hne Hnew].
    assert (Hall : NoDup (k :: k' :: map fst r)).
    { constructor; [|done]. rewrite not_elem_of_cons. by split. }
    destruct (Obj.arrayIndex k') as [m|]; [destruct (m <? n)%N|]; try done.
    apply NoDup_cons in Hnd as [Hk' Hnd]. simpl. constructor; [|by apply IH].
    intros Hin. apply (keys_insertIndex n k v r k') in Hin as [Heq|Hin]; done.
Qed.

Lemma Obj_set_keys_NoDup k v o :
  NoDup (Obj.keys o) → NoDup (Obj.keys (Obj.set k v o)).
Proof.
  intros Hnd. unfold Obj.set. destruct (String.eqb k "__proto__"); [done|].
  destruct (Obj.arrayIndex k) as [n|]; [|by apply Obj_put_keys_NoDup].
  destruct (Js.includes k (Obj.keys o)) eqn:Hin.
  - by apply Obj_put_keys_NoDup.
  - apply insertIndex_keys_NoDup; [|done]. by apply includes_false.
Qed.

Lemma Obj_put_last k v o : (k, v) ∈ Obj.put k v o.
Proof.
  induction o as [|[k' v'] r IH]; simpl.
  - by apply list_elem_of_singleton.
  - destruct (String.eqb k' k); apply elem_of_cons; [by left | by right].
Qed.

Lemma Obj_set_last k v o : k ≠ "__proto__" → (k, v) ∈ Obj.set k v o.
Proof.
  intros Hne. unfold Obj.set.
  destruct (String.eqb_spec k "__proto__") as [He|_]; [done|].
  destruct (Obj.arrayIndex k) as [n|];
    [destruct (Js.includes k (Obj.keys o))|].
  - apply Obj_put_last.
  - apply elem_of_insertIndex. by left.
  - apply Obj_put_last.
Qed.

(** The order of the keys. *)
Lemma keysOrdered_snoc l k :
  Obj.arrayIndex k = None → keysOrdered l → keysOrdered (l ++ [k]).
Proof.
  intros Hk. induction l as [|x l IH]; simpl; [done|].
  intros [Hx Hl]. split; [|by apply IH].
  apply Forall_app. split; [done|]. constructor; [|done].
  unfold keyBefore. rewrite Hk. by destruct (Obj.arrayIndex x).
Qed.

Lemma keyBefore_index_trans k k' x n m :
  Obj.arrayIndex k = Some n → Obj.arrayIndex k' = Some m → (n <= m)%N →
  keyBefore k' x → keyBefore k x.
Proof.
  unfold keyBefore. intros -> -> Hle.
  destruct (Obj.arrayIndex x) as [b|]; [lia | done].
Qed.

Lemma keyBefore_index_first k k' x n :
  Obj.arrayIndex k = Some n → Obj.arrayIndex k' = None →
  keyBefore k' x → keyBefore k x.
Proof.
  unfold keyBefore. intros -> ->. by destruct (Obj.arrayIndex x).
Qed.

Lemma insertIndex_ordered n k v o :
  Obj.arrayIndex k = Some n →
  keysOrdered (Obj.keys o) →
  keysOrdered (Obj.keys (Obj.insertIndex n k v o)).
Proof.
  intros Hk. unfold Obj.keys.
  induction o as [|[k' v'] r IH]; simpl; [done|].
  intros [Hk' Hr].
  destruct (Obj.arrayIndex k') as [m|] eqn:Hidx;
    [destruct (N.ltb_spec m n) as [Hlt|Hge]|]; simpl.
  - split; [|by apply IH].
    apply Forall_forall. intros x Hx.
    apply (keys_insertIndex n k v r x) in Hx as [->|Hx].
    + unfold keyBefore. rewrite Hidx, Hk. lia.
    + by apply (proj1 (Forall_forall _ _) Hk').
  - split; [|done]. constructor.
    + unfold keyBefore. by rewrite Hk, Hidx.
    + eapply Forall_impl; [exact Hk'|]. intros x.
      by apply (keyBefore_index_trans k k' x n m).
  - split; [|done]. constructor.
    + unfold keyBefore. by rewrite Hk, Hidx.
    + eapply Forall_impl; [exact Hk'|]. intros x.
      by apply (keyBefore_index_first k k' x n).
Qed.

Lemma Obj_put_ordered k v o :
  (k ∈ Obj.keys o ∨ Obj.arrayIndex k = None) →
  keysOrdered (Obj.keys o) → keysOrdered (Obj.keys (Obj.put k v o)).
Proof.
  intros Hk Ho. destruct (decide (k ∈ Obj.keys o)) as [Hin|Hnew].
  - by rewrite keys_put_has.
  - destruct Hk as [?|Hk]; [done|].
    rewrite Obj_put_fresh by done. unfold Obj.keys in *. rewrite map_app.
    by apply keysOrdered_snoc.
Qed.

Lemma Obj_set_ordered k v o :
  keysOrdered (Obj.keys o) → keysOrdered (Obj.keys (Obj.set k v o)).
Proof.
  intros Ho. unfold Obj.set. destruct (String.eqb k "__proto__"); [done|].
  destruct (Obj.arrayIndex k) as [n|] eqn:Hidx.
  - destruct (Js.includes k (Obj.keys o)) eqn:Hin.
    + apply Obj_put_ordered; [|done]. left. by apply includes_true.
    + by apply insertIndex_ordered.
  - apply Obj_put_ordered; [by right | done].
Qed.

(** The keys that are not array indices stay in the order they were
    added in. *)
Lemma insertIndex_others n k v o :
  Obj.arrayIndex k = Some n →
  filter (fun x => Obj.arrayIndex x = None) (Obj.keys (Obj.insertIndex n k v o))
  = filter (fun x => Obj.arrayIndex x = None) (Obj.keys o).
Proof.
  intros Hk. unfold Obj.keys.
  assert (Hskip : ∀ l, filter (fun x => Obj.arrayIndex x = None) (k :: l)
                       = filter (fun x => Obj.arrayIndex x = None) l).
  { intros l. apply filter_cons_False. by rewrite Hk. }
  induction o as [|[k' v'] r IH]; simpl; [apply Hskip|].
  destruct (Obj.arrayIndex k') as [m|] eqn:Hidx;
    [destruct (m <? n)%N|]; simpl; try apply Hskip.
  rewrite !filter_cons_False by by rewrite Hidx. exact IH.
Qed.

Lemma Obj_set_others k v o :
  filter (fun x => Obj.arrayIndex x = None) (Obj.keys (Obj.set k v o))
  = if decide (ordinaryKey k)
    then Js.Set_add (filter (fun x => Obj.arrayIndex x = None) (Obj.keys o)) k
    else filter (fun x => Obj.arrayIndex x = None) (Obj.keys o).
Proof.
  unfold Obj.set. destruct (String.eqb_spec k "__proto__") as [->|Hne].
  - rewrite decide_False; [done|]. by intros [? _].
  - destruct (Obj.arrayIndex k) as [n|] eqn:Hidx.
    + rewrite decide_False by (intros [_ ?]; congruence).
      destruct (Js.includes k (Obj.keys o)) eqn:Hin.
      * rewrite keys_put_has; [done|]. by apply includes_true.
      * by apply insertIndex_others.
    + rewrite decide_True by done. unfold Js.Set_add.
      destruct (decide (k ∈ Obj.keys o)) as [Hin|Hnew].
      * rewrite keys_put_has by done.
        rewrite (proj2 (includes_true _ _)); [done|].
        by apply list_elem_of_filter.
      * rewrite Obj_put_fresh by done.
        rewrite (proj2 (includes_false _ _)).
        2:{ intros Hin. by apply list_elem_of_filter in Hin as [_ ?]. }
        unfold Obj.keys. rewrite map_app, filter_app. f_equal.
        simpl. by rewrite filter_cons_True, filter_nil.
Qed.

Lemma resolve_fold_distinct addon sources : ∀ acc,
  Forall ordinaryKey
    (map (fun kv => Path.join (Extension.getName addon) kv.1) sources) →
  NoDup (Obj.keys acc ++
         map (fun kv => Path.join (Extension.getName addon) kv.1) sources) →
  fold_left
    (fun result kv =>
       Obj.set (Path.join (Extension.getName addon) kv.1) kv.2 result)
    sources acc
  = acc ++ map (fun kv => (Path.join (Extension.getName addon) kv.1, kv.2))
             sources.
Proof.
  induction sources as [|[p c] r IH]; intros acc Hord Hnd; simpl.
  - by rewrite app_nil_r.
  - simpl in Hnd, Hord. apply Forall_cons in Hord as [Hp Hord].
    apply NoDup_app in Hnd as (Hacc & Hdisj & Hr).
    rewrite Obj_set_fresh; [|done|].
    2:{ intros Hin. apply (Hdisj _ Hin). apply elem_of_cons. by left. }
    rewrite IH; [|done|].
    + by rewrite <- app_assoc.
    + unfold Obj.keys in *. rewrite map_app. simpl.
      rewrite <- app_assoc. simpl. apply NoDup_app. split; [done|]. split.
      * intros x Hx Hin. by apply (Hdisj x Hx).
      * exact Hr.
Qed.

(** A key with a separator in it is no array index, nor [__proto__]. *)
Lemma digitsValue_slash s : ∀ acc,
  hasSlash s = true → Obj.digitsValue acc s = None.
Proof.
  induction s as [|a r IH]; intros acc; simpl; [done|].
  unfold Path.isSlash. destruct (Ascii.eqb_spec a "/") as [->|_]; [done|].
  simpl. intros Hr. destruct (Obj.isDigit a); [by apply IH | done].
Qed.

Lemma ordinaryKey_slash k : hasSlash k = true → ordinaryKey k.
Proof.
  intros Hk. split; [by intros ->|].
  destruct k as [|a r]; [done|]. unfold Obj.arrayIndex.
  rewrite (digitsValue_slash _ 0%N Hk).
  by destruct (Ascii.eqb a "0" && negb (String.eqb r "")).
Qed.

Lemma hasSlash_app a b : hasSlash (a +:+ "/" +:+ b) = true.
Proof.
  induction a as [|x a IH]; [done|].
  change (hasSlash (String x (a +:+ "/" +:+ b)) = true). simpl.
  by rewrite IH, orb_true_r.
Qed.

(** X8: the mapping [_resolveAddonRelativeSources] returns never has a
    path twice, nor the path [__proto__], which [Object.assign] drops;
    its paths are in the order of [Object.keys]: the array indices
    first, in ascending order, then the other paths in the order the
    sources first gave them; the last source given is in it, whatever
    came before under the same joined path, unless that is
    [__proto__]; and when the joined paths are all different and none
    is an array index or [__proto__], the result is the sources in
    their order, each at its joined path with its content. *)
Theorem resolve_namespaced (addon : Extension.t)
  (sources : list (string * string)) :
  let joined :=
    map (fun kv => Path.join (Extension.getName addon) kv.1) sources in
  NoDup (Obj.keys (_resolveAddonRelativeSources addon sources)) ∧
  ("__proto__" ∉ Obj.keys (_resolveAddonRelativeSources addon sources)) ∧
  keysOrdered (Obj.keys (_resolveAddonRelativeSources addon sources)) ∧
  filter (fun k => Obj.arrayIndex k = None)
    (Obj.keys (_resolveAddonRelativeSources addon sources))
  = firstOccurrences (filter ordinaryKey joined) ∧
  (∀ filePath content,
      Path.join (Extension.getName addon) filePath ≠ "__proto__" →
      (Path.join (Extension.getName addon) filePath, content)
      ∈ _resolveAddonRelativeSources addon (sources ++ [(filePath, content)])) ∧
  (NoDup joined → Forall ordinaryKey joined →
   _resolveAddonRelativeSources addon sources
   = map (fun kv => (Path.join (Extension.getName addon) kv.1, kv.2)) sources).
Proof.
  intros joined.
  assert (Hinv : ∀ (P : list (string * string) → Prop),
    P [] → (∀ k v o, P o → P (Obj.set k v o)) →
    P (_resolveAddonRelativeSources addon sources)).
  { intros P Hnil Hstep. unfold _resolveAddonRelativeSources.
    generalize (@nil (string * string)) Hnil.
    induction sources as [|kv r IH]; intros acc Hacc; [done|].
    simpl. apply IH. by apply Hstep. }
  split; [|split; [|split; [|split; [|split]]]].
  - apply Hinv; [constructor|]. intros k v o. apply Obj_set_keys_NoDup.
  - apply Hinv; [apply not_elem_of_nil|]. intros k v o Ho Hin.
    apply keys_Obj_set in Hin as [[Heq Hne]|Hin]; [by subst k | done].
  - apply Hinv; [done|]. intros k v o. apply Obj_set_ordered.
  - rewrite <- Set_from_firstOccurrences.
    unfold _resolveAddonRelativeSources, Js.Set_from, joined.
    change (@nil string)
      with (filter (fun k => Obj.arrayIndex k = None)
              (Obj.keys (@nil (string * string)))).
    generalize (@nil (string * string)). clear Hinv.
    induction sources as [|[p c] r IH]; intros acc; [done|].
    simpl. rewrite IH, Obj_set_others.
    destruct (decide (ordinaryKey (Path.join (Extension.getName addon) p)))
      as [Hp|Hp].
    + by rewrite filter_cons_True.
    + by rewrite filter_cons_False.
  - intros filePath content Hne. unfold _resolveAddonRelativeSources.
    rewrite fold_left_app. simpl. by apply Obj_set_last.
  - intros Hnd Hord. unfold _resolveAddonRelativeSources.
    by rewrite resolve_fold_distinct.
Qed.

Lemma resolve_namespaced_witness :
  _resolveAddonRelativeSources Sample.foo [("a.js", "1"); ("lib/b.js", "2")]
  = map (fun kv => (Path.join (Extension.getName Sample.foo) kv.1, kv.2))
      [("a.js", "1"); ("lib/b.js", "2")].
Proof.
  destruct (resolve_namespaced Sample.foo [("a.js", "1"); ("lib/b.js", "2")])
    as (_ & _ & _ & _ & _ & Hdistinct).
  apply Hdistinct.
  - apply (bool_decide_unpack _). vm_compute. exact I.
  - apply (bool_decide_unpack _). vm_compute. exact I.
Defined.

Lemma string_app_inv_head a b c : a +:+ b = a +:+ c → b = c.
Proof.
  induction a as [|x a IH]; [done|].
  intros H. apply IH. by injection H.
Qed.

Lemma join_plain_string name filePath :
  plain name → Forall plain (Js.split "/" filePath) →
  Path.join name filePath = name +:+ "/" +:+ filePath.
Proof.
  intros Hname Hall. rewrite join_plain_relative by done.
  rewrite join_cons_nonempty by apply split_nonempty.
  by rewrite join_split.
Qed.

Lemma NoDup_fmap_eq {A B} (f : A → B) (l : list A) x y :
  NoDup (map f l) → x ∈ l → y ∈ l → f x = f y → x = y.
Proof.
  induction l as [|z l IH]; intros Hnd Hx Hy Heq.
  - by apply elem_of_nil in Hx.
  - simpl in Hnd. apply NoDup_cons in Hnd as [Hz Hnd].
    apply elem_of_cons in Hx as [->|Hx]; apply elem_of_cons in Hy as [->|Hy].
    + done.
    + exfalso. apply Hz. rewrite Heq. apply list_elem_of_fmap. by exists y.
    + exfalso. apply Hz. rewrite <- Heq. apply list_elem_of_fmap. by exists x.
    + by apply IH.
Qed.

Lemma lastWritten_unique this writes kv :
  kv ∈ writes →
  (∀ kv', kv' ∈ writes → keyOf this kv'.1 = keyOf this kv.1 → kv' = kv) →
  lastWritten this writes (keyOf this kv.1) = Some kv.2.
Proof.
  induction writes as [|kv0 r IH]; intros Hin Huniq.
  - by apply elem_of_nil in Hin.
  - simpl. destruct (lastWritten this r (keyOf this kv.1)) as [c|] eqn:Hr.
    + assert (Hsome : ∃ kv', kv' ∈ r ∧ keyOf this kv'.1 = keyOf this kv.1 ∧
                             kv'.2 = c).
      { clear IH Hin Huniq. induction r as [|kv1 r IHr]; [done|].
        simpl in Hr. destruct (lastWritten this r (keyOf this kv.1)) as [c'|].
        - injection Hr as ->. destruct (IHr eq_refl) as (kv' & H1 & H2 & H3).
          exists kv'. split; [apply elem_of_cons; by right | done].
        - case_decide; [|done]. injection Hr as <-.
          exists kv1. split; [apply elem_of_cons; by left | done]. }
      destruct Hsome as (kv' & Hin' & Hkey & <-).
      f_equal. f_equal. apply Huniq; [apply elem_of_cons; by right | done].
    + apply elem_of_cons in Hin as [->|Hin].
      * by rewrite decide_True.
      * assert (Hsome : @None string = Some kv.2); [|done].
        apply IH; [done|]. intros kv' Hkv'. apply Huniq.
        apply elem_of_cons. by right.
Qed.

(** X9: with an absolute output root, extensions with plain names, no
    two the same, each giving sources at different paths of plain
    names: when [generateExtensionsCode] returns, every source of
    every extension is a file below the directory of its extension,
    at its path, with its content. *)
Theorem generateExtensionsCode_files (this : t) (st st' : state) :
  Path.isAbsolute (_root this) = true →
  Forall (fun extension => plain (Extension.getName extension))
    (AddonLoader.getExtensions (_addonLoader this)) →
  NoDup (map Extension.getName (AddonLoader.getExtensions (_addonLoader this))) →
  (∀ extension,
      extension ∈ AddonLoader.getExtensions (_addonLoader this) →
      NoDup (Obj.keys (Extension.generateCode extension (_buildConfig this))) ∧
      ∀ filePath,
        filePath ∈ Obj.keys (Extension.generateCode extension (_buildConfig this)) →
        Forall plain (Js.split "/" filePath)) →
  generateExtensionsCode this st = Returned st' →
  ∀ extension filePath content,
    extension ∈ AddonLoader.getExtensions (_addonLoader this) →
    (filePath, content) ∈ Extension.generateCode extension (_buildConfig this) →
    disk st' !! (Path.segments (_root this)
                   ++ Extension.getName extension :: Js.split "/" filePath)
    = Some (EFile content).
Proof.
  intros Habs Hnames Hdistinct Hsources Hrun extension filePath content Hext Hsrc.
  rewrite generateExtensionsCode_writes in Hrun.
  pose proof (forEach_writes this (extensionWrites this) st) as Hw.
  rewrite Hrun in Hw. destruct Hw as (Hfiles & _).
  assert (Hplain : ∀ x, x ∈ AddonLoader.getExtensions (_addonLoader this) →
                        plain (Extension.getName x)).
  { intros x Hx. by apply (proj1 (Forall_forall _ _) Hnames). }
  assert (Hpaths : ∀ x p c,
    x ∈ AddonLoader.getExtensions (_addonLoader this) →
    (p, c) ∈ Extension.generateCode x (_buildConfig this) →
    Forall plain (Js.split "/" p)).
  { intros x p c Hx Hp. apply (proj2 (Hsources x Hx)).
    unfold Obj.keys. apply list_elem_of_fmap. by exists (p, c). }
  assert (Hresolved : ∀ x,
    x ∈ AddonLoader.getExtensions (_addonLoader this) →
    _resolveAddonRelativeSources x (Extension.generateCode x (_buildConfig this))
    = map (fun kv => (Path.join (Extension.getName x) kv.1, kv.2))
        (Extension.generateCode x (_buildConfig this))).
  { intros x Hx. destruct (Hsources x Hx) as [Hnd Hpl].
    apply resolve_fold_distinct.
    { apply Forall_forall. intros key Hkey.
      apply list_elem_of_fmap in Hkey as ([p c] & -> & Hpc). simpl.
      rewrite join_plain_string; [apply ordinaryKey_slash, hasSlash_app| |].
      - by apply Hplain.
      - apply Hpl. unfold Obj.keys. apply list_elem_of_fmap. by exists (p, c). }
    simpl.
    rewrite <- (map_map fst (Path.join (Extension.getName x))).
    apply NoDup_fmap_2_strong; [|exact Hnd].
    intros p q Hp Hq Heq.
    rewrite !join_plain_string in Heq
      by (by apply Hplain || by apply Hpl).
    apply string_app_inv_head in Heq. by injection Heq. }
  assert (Horigin : ∀ kv, kv ∈ extensionWrites this ↔
    ∃ x p c, x ∈ AddonLoader.getExtensions (_addonLoader this) ∧
             (p, c) ∈ Extension.generateCode x (_buildConfig this) ∧
             kv = (Path.join (Extension.getName x) p, c)).
  { intros kv. unfold extensionWrites. rewrite list_elem_of_In, in_flat_map.
    split.
    - intros (x & Hx & Hkv). apply list_elem_of_In in Hx, Hkv.
      rewrite (Hresolved x Hx) in Hkv.
      apply list_elem_of_fmap in Hkv as ([p c] & -> & Hpc).
      by exists x, p, c.
    - intros (x & p & c & Hx & Hpc & ->). exists x.
      split; [by apply list_elem_of_In|]. apply list_elem_of_In.
      rewrite (Hresolved x Hx). apply list_elem_of_fmap. by exists (p, c). }
  set (kv := (Path.join (Extension.getName extension) filePath, content)).
  assert (Hkey : keyOf this kv.1
                 = Path.segments (_root this)
                     ++ Extension.getName extension :: Js.split "/" filePath).
  { apply keyOf_namespaced; [done|by apply Hplain|].
    by apply (Hpaths extension filePath content). }
  assert (Hin : kv ∈ extensionWrites this).
  { apply Horigin. by exists extension, filePath, content. }
  assert (Hlast : lastWritten this (extensionWrites this) (keyOf this kv.1)
                  = Some content).
  { apply (lastWritten_unique this _ kv Hin).
    intros kv' Hkv' Hsame. apply Horigin in Hkv' as (x & p & c & Hx & Hpc & ->).
    change (keyOf this (Path.join (Extension.getName x) p) = keyOf this kv.1)
      in Hsame.
    rewrite Hkey in Hsame.
    rewrite keyOf_namespaced in Hsame
      by (done || by apply Hplain || by apply (Hpaths x p c)).
    apply app_inv_head in Hsame. injection Hsame as Hname Hsplit.
    assert (x = extension) as ->
      by by apply (NoDup_fmap_eq Extension.getName _ _ _ Hdistinct).
    assert (p = filePath) as ->
      by by rewrite <- (join_split p), Hsplit, join_split.
    assert ((filePath, c) = (filePath, content)) as Hpair.
    { apply (NoDup_fmap_eq fst _ _ _ (proj1 (Hsources extension Hext))); done. }
    by injection Hpair as ->. }
  rewrite <- Hkey.
  specialize (Hfiles (keyOf this kv.1)). rewrite Hlast in Hfiles.
  unfold fileAt, Fs.lookup in Hfiles.
  destruct (keyOf this kv.1) as [|s k]; [done|].
  by destruct (disk st' !! (s :: k)) as [[c|]|]; simplify_eq.
Qed.

Lemma generateExtensionsCode_files_witness :
  disk (stateOf (generateExtensionsCode Sample.provider
                   (initial Sample.populated)))
    !! (Path.segments (_root Sample.provider)
          ++ Extension.getName Sample.foo :: Js.split "/" "bar.js")
  = Some (EFile "content").
Proof.
  apply (generateExtensionsCode_files Sample.provider
           (initial Sample.populated)
           (stateOf (generateExtensionsCode Sample.provider
                       (initial Sample.populated)))).
  - vm_compute. reflexivity.
  - repeat constructor; vm_compute; congruence.
  - apply (bool_decide_unpack _). vm_compute. exact I.
  - intros extension Hin. apply list_elem_of_singleton in Hin as ->.
    split.
    + apply (bool_decide_unpack _). vm_compute. exact I.
    + intros filePath Hp. apply list_elem_of_singleton in Hp as ->.
      apply (bool_decide_unpack _). vm_compute. exact I.
  - vm_compute. reflexivity.
  - apply list_elem_of_singleton. reflexivity.
  - apply list_elem_of_singleton. reflexivity.
Defined.

(** ** Tags and printing *)

Lemma firstOccurrences_same l tag :
  l ≠ [] → (∀ x, x ∈ l → x = tag) → firstOccurrences l = [tag].
Proof.
  induction l as [|x r IH]; intros Hne Hall; [done|].
  assert (x = tag) as -> by (apply Hall, elem_of_cons; by left).
  simpl. f_equal. destruct r as [|y r]; [done|].
  rewrite IH; [|done|intros z Hz; apply Hall, elem_of_cons; by right].
  by rewrite filter_cons_False, filter_nil by (intros H; by apply H).
Qed.

(** X10: an array that is not empty and whose elements all have one
    tag has the type [Array] of that tag alone. *)
Theorem homogeneous_array_tag (items : list value) (tag : string) :
  items ≠ [] →
  (∀ x, x ∈ items → Defines.getGCCType x = tag) →
  Defines.getGCCType (VArray items) = "Array<" +:+ tag +:+ ">".
Proof.
  intros Hne Hall. rewrite getGCCType_array.
  destruct items as [|x items]; [done|].
  rewrite getArrayContentsType_first_occurrence.
  rewrite (firstOccurrences_same _ tag); [done|done|].
  intros t Ht. apply list_elem_of_fmap in Ht as (y & -> & Hy). by apply Hall.
Qed.

Lemma homogeneous_array_tag_witness :
  Defines.getGCCType (VArray [VNumber 1; VNumber 2; VNumber 3])
  = "Array<" +:+ "number" +:+ ">".
Proof.
  apply (homogeneous_array_tag [VNumber 1; VNumber 2; VNumber 3] "number").
  - discriminate.
  - intros x Hx. rewrite !elem_of_cons in Hx.
    destruct Hx as [->|[->|[->|Hx]]]; try reflexivity.
    by apply elem_of_nil in Hx.
Defined.

(** X11: the tag decides the printing as the shape of the value does:
    the tag is [Object] for the plain objects alone, [number] for the
    numbers alone and [Function] for the functions alone; so a plain
    object is printed as a block of its members, each under its own
    tag, a number in decimal, a function as its text as it is, and
    any other value as [JSON.stringify] gives it ([undefined] as the
    word). *)
Theorem printValue_by_shape :
  (∀ v, Defines.getGCCType v = "Object" ↔ ∃ entries, v = VObject entries) ∧
  (∀ v, Defines.getGCCType v = "number" ↔ ∃ n, v = VNumber n) ∧
  (∀ v, Defines.getGCCType v = "Function" ↔ ∃ text, v = VFunction text) ∧
  (∀ v, Defines.printTypeTag (Defines.getGCCType v) = "@struct" ↔
        ∃ entries, v = VObject entries) ∧
  (∀ v,
      Defines.printValue (Defines.getGCCType v) v
      = match v with
        | VObject entries =>
            Js.join Js.nl
              ["{";
               Defines.indent
                 (Js.join ("," +:+ Js.nl +:+ Js.nl)
                    (map (fun kv =>
                            Defines.printJsdoc
                              [Defines.printTypeTag (Defines.getGCCType kv.2)]
                            +:+ kv.1 +:+ ": " +:+
                            Defines.printValue (Defines.getGCCType kv.2) kv.2)
                       entries));
               "}"]
        | VNumber n => numberToString n
        | VFunction text => text
        | _ => default "undefined" (Json.stringify v)
        end).
Proof.
  assert (Hobj : ∀ v, Defines.getGCCType v = "Object" ↔
                      ∃ entries, v = VObject entries).
  { intros v. destruct v as [| | | | | |array|entries];
      try (split; [discriminate | by intros [? ?]]).
    split; [by eexists | reflexivity]. }
  split; [exact Hobj|]. split; [|split; [|split]].
  - intros v. destruct v as [| | | | | |array|entries];
      try (split; [discriminate | by intros [? ?]]).
    split; [by eexists | reflexivity].
  - intros v. destruct v as [| | | | | |array|entries];
      try (split; [discriminate | by intros [? ?]]).
    split; [by eexists | reflexivity].
  - intros v. rewrite <- Hobj. unfold Defines.printTypeTag.
    destruct (String.eqb_spec (Defines.getGCCType v) "Object") as [He|Hne].
    + done.
    + split; [|done].
      change ("@const {" +:+ Defines.getGCCType v +:+ "}")
        with (String "@" ("const {" +:+ Defines.getGCCType v +:+ "}")).
      discriminate.
  - intros v. by destruct v as [| | | | | |array|entries].
Qed.

(** ** Indentation *)

Lemma split_free c s : hasChar c s = false → Js.split c s = [s].
Proof.
  induction s as [|a r IH]; simpl; [done|].
  intros H. apply orb_false_iff in H as [Ha Hr]. by rewrite Ha, (IH Hr).
Qed.

Lemma split_app_char c a b :
  Js.split c (a +:+ String c b) = Js.split c a ++ Js.split c b.
Proof.
  induction a as [|x a IH]; simpl.
  - by rewrite Ascii.eqb_refl.
  - destruct (Ascii.eqb x c); simpl.
    + by rewrite <- IH.
    + change (String.app a (String c b)) with (a +:+ String c b).
      rewrite IH.
      destruct (Js.split c a) as [|y t] eqn:Hs; [by apply split_nonempty in Hs|].
      done.
Qed.

Lemma split_no_char c s : Forall (fun x => hasChar c x = false) (Js.split c s).
Proof.
  induction s as [|a r IH]; simpl; [by repeat constructor|].
  destruct (Ascii.eqb a c) eqn:Ha.
  - by constructor.
  - destruct (Js.split c r) as [|x t].
    + constructor; [|done]. simpl. by rewrite Ha.
    + apply Forall_cons in IH as [Hx Ht]. constructor; [|done].
      simpl. by rewrite Ha.
Qed.

(** X12: [indent] puts one tab before every line of a text, the empty
    lines among them, and changes nothing else: the lines of the
    indented text are the lines of the text, each after a tab. *)
Theorem indent_lines (s : string) :
  Js.split "010"%char (Defines.indent s)
  = map (fun line => Js.tab +:+ line) (Js.split "010"%char s).
Proof.
  unfold Defines.indent.
  pose proof (split_no_char "010"%char s) as Hfree.
  pose proof (split_nonempty "010"%char s) as Hne.
  induction (Js.split "010"%char s) as [|x l IH]; [done|].
  apply Forall_cons in Hfree as [Hx Hl].
  destruct l as [|y l].
  - simpl Js.join. apply split_free.
    change (hasChar "010"%char x = false). exact Hx.
  - change (Js.join (Js.nl +:+ Js.tab) (x :: y :: l))
      with (x +:+ String "010"%char
                    (Js.tab +:+ Js.join (Js.nl +:+ Js.tab) (y :: l))).
    rewrite <- string_app_assoc, split_app_char, IH by done.
    rewrite split_free by (change (hasChar "010"%char x = false); exact Hx).
    done.
Qed.

(** ** Cleaning *)

Lemma below_refl R : Fs.below R R = Some [].
Proof. induction R as [|x R IH]; simpl; [done|]. by rewrite String.eqb_refl. Qed.

Lemma visibleUnder_root R : visibleUnder R R = false.
Proof. unfold visibleUnder. by rewrite below_refl. Qed.

Lemma clean_keeps_root this st st' :
  (∀ k, disk st' !! k
        = if visibleUnder (Path.segments (_root this)) k then None
          else disk st !! k) →
  Fs.lookup (disk st') (Path.segments (_root this))
  = Fs.lookup (disk st) (Path.segments (_root this)).
Proof.
  intros Hall. unfold Fs.lookup.
  destruct (Path.segments (_root this)) as [|x R] eqn:HR; [done|].
  by rewrite Hall, visibleUnder_root.
Qed.

(** X13: cleaning twice is cleaning once: on a well-formed disk, for an
    absolute root, the state a [clean] returns is one that a second
    [clean] returns as it is. *)
Theorem clean_idempotent (this : t) (st st1 : state) :
  wellFormed (disk st) →
  Path.isAbsolute (_root this) = true →
  clean this st = Returned st1 →
  clean this st1 = Returned st1.
Proof.
  intros Hwf Habs Hrun.
  destruct (clean_cases this st)
    as [[Hex Hret]|[[Hex Hroot]|(_ & _ & _ & Hthrow)]].
  - rewrite Hret in Hrun. injection Hrun as <-. exact Hret.
  - destruct (clean_spec this st Hwf Habs Hroot)
      as (st' & Hrun' & Hall & _ & Hf & He).
    rewrite Hrun in Hrun'. injection Hrun' as <-.
    destruct (clean_returned_wellFormed this st st1 Hwf Habs Hrun) as [Hwf1 _].
    assert (Hroot1 : Fs.lookup (disk st1) (Path.segments (_root this))
                     = Some EDir).
    { by rewrite (clean_keeps_root this st st1 Hall). }
    destruct (clean_spec this st1 Hwf1 Habs Hroot1)
      as (st2 & Hrun2 & Hall2 & _ & Hf2 & He2).
    rewrite Hrun2. f_equal.
    assert (Hdisk : disk st2 = disk st1).
    { apply map_eq. intros k. rewrite Hall2.
      destruct (visibleUnder (Path.segments (_root this)) k) eqn:Hv; [|done].
      by rewrite Hall, Hv. }
    destruct st2, st1. simpl in *. congruence.
  - by rewrite Hthrow in Hrun.
Qed.

Lemma clean_idempotent_witness :
  clean Sample.provider
    (stateOf (clean Sample.provider (initial Sample.populated)))
  = Returned (stateOf (clean Sample.provider (initial Sample.populated))).
Proof.
  apply (clean_idempotent Sample.provider (initial Sample.populated)).
  - apply (bool_decide_unpack _). vm_compute. exact I.
  - reflexivity.
  - vm_compute. reflexivity.
Defined.

(** X14: on a well-formed disk of regular files and directories, for
    an absolute root in the form [path.resolve] leaves a path in (a
    separator before each segment and nothing else), the errors of the
    file system modelled are thrown by [clean] in one case alone: the
    root names a regular file; the error is then the [ENOTDIR] of
    [readdirSync], and nothing has changed: not the disk, not the list
    of written files, and no event is sent. When a root with a
    trailing separator names a regular file, [pathExistsSync] does not
    find it and [clean] returns at once. *)
Theorem clean_throws_only_on_file_root (this : t) (st st' : state) (e : error) :
  wellFormed (disk st) →
  Path.isAbsolute (_root this) = true →
  (canonical (_root this) →
   clean this st = Threw e st' ↔
   (∃ content,
       Fs.lookup (disk st) (Path.segments (_root this))
       = Some (EFile content)) ∧
   Js.endsWith (_root this) "/" = false ∧
   e = ENOTDIR ∧ st' = st) ∧
  ((∃ content,
       Fs.lookup (disk st) (Path.segments (_root this))
       = Some (EFile content)) →
   Js.endsWith (_root this) "/" = true →
   clean this st = Returned st).
Proof.
  intros Hwf Habs.
  destruct (clean_cases this st)
    as [[Hex Hret]|[[Hex Hroot]|(Hex & [c Hroot] & Hend & Hthrow)]].
  - split; [intros _|intros _ _; exact Hret].
    rewrite Hret. split; [done|]. intros ([c Hc] & Hend & _).
    unfold Fs.pathExistsSync, Fs.existsSync, Fs.named in Hex.
    by rewrite Hc, Hend in Hex.
  - destruct (clean_spec this st Hwf Habs Hroot) as (st2 & Hrun & _).
    split; [intros _|intros [c Hc]; congruence].
    rewrite Hrun. split; [done|]. intros ([c Hc] & _). congruence.
  - split; [intros _|intros _ Hend'; congruence].
    rewrite Hthrow. split.
    + intros H. injection H as <- <-. split; [by exists c|done].
    + by intros (_ & _ & -> & ->).
Qed.

Lemma clean_throws_only_on_file_root_witness :
  clean Sample.provider (initial SampleMore.blocked)
  = Threw ENOTDIR (initial SampleMore.blocked) ∧
  clean SampleMore.slashed (initial SampleMore.blocked)
  = Returned (initial SampleMore.blocked).
Proof.
  split.
  - destruct (clean_throws_only_on_file_root Sample.provider
                (initial SampleMore.blocked) (initial SampleMore.blocked)
                ENOTDIR) as [Hthrows _].
    + apply (bool_decide_unpack _). vm_compute. exact I.
    + reflexivity.
    + apply Hthrows; [vm_compute; reflexivity|]. split; [by exists ""|done].
  - destruct (clean_throws_only_on_file_root SampleMore.slashed
                (initial SampleMore.blocked) (initial SampleMore.blocked)
                ENOTDIR) as [_ Hreturns].
    + apply (bool_decide_unpack _). vm_compute. exact I.
    + reflexivity.
    + apply Hreturns; [by exists ""|]. vm_compute. reflexivity.
Defined.

(** ** The entry module beside the source root *)

Lemma stripCommon_app base xs ys :
  Path.stripCommon (base ++ xs) (base ++ ys) = Path.stripCommon xs ys.
Proof.
  induction base as [|b base IH]; [done|]. simpl. by rewrite String.eqb_refl.
Qed.

Lemma normalize_up name l x :
  plain name → Forall plain (l ++ [x]) →
  Path.normalize (Js.join "/" (name :: ".." :: l ++ [x]))
  = Js.join "/" (l ++ [x]).
Proof.
  intros Hname Hall.
  assert (Hx : plain x).
  { apply Forall_app in Hall as [_ Hx]. by apply Forall_cons in Hx as [? _]. }
  assert (Hne : Js.join "/" (l ++ [x]) ≠ "") by (apply join_nonempty, Hx).
  assert (Hne' : Js.join "/" ((name :: ".." :: l) ++ [x]) ≠ "")
    by (apply join_nonempty, Hx).
  assert (Hslash : Forall (fun s => hasSlash s = false)
                     (name :: ".." :: l ++ [x])).
  { constructor; [apply Hname|]. constructor; [done|].
    eapply Forall_impl; [exact Hall|]. by intros s (_ & _ & _ & ?). }
  unfold Path.normalize.
  destruct (String.eqb_spec (Js.join "/" (name :: ".." :: l ++ [x])) "");
    [done|].
  assert (Hend : Js.endsWith (Js.join "/" (name :: ".." :: l ++ [x])) "/"
                 = false)
    by apply (endsWith_slash_join (name :: ".." :: l) x Hx).
  rewrite Hend.
  rewrite split_join by done.
  rewrite isAbsolute_join by done. simpl negb.
  assert (Hsegs : Path.normalizeSegments true (name :: ".." :: l ++ [x])
                  = l ++ [x]).
  { unfold Path.normalizeSegments.
    change (fold_left (Path.step true) (name :: ".." :: l ++ [x]) [])
      with (fold_left (Path.step true) (l ++ [x])
              (Path.step true (Path.step true [] name) "..")).
    rewrite (step_plain true [] name) by done.
    assert (Hup : Path.step true [name] ".." = []).
    { unfold Path.step. simpl.
      destruct (String.eqb_spec name "..") as [Hn|_]; [|done].
      by destruct Hname as (_ & _ & ? & _). }
    rewrite Hup, fold_step_plain by done.
    by rewrite app_nil_r, rev_involutive. }
  rewrite Hsegs.
  destruct (String.eqb_spec (Js.join "/" (l ++ [x])) ""); done.
Qed.

(** X15: for an entry module that lies beside the source root, not
    below it (the two part ways at the last segment of the source
    root), the path the entry template is rendered with has no project
    name in it: [path.relative] starts with [..], and [path.join]
    resolves it against the name. The path is the one from the
    directory of the source root to the entry module, less a trailing
    [.js]. *)
Theorem appPath_outside_source (this : t) (base rest : list string)
  (dir : string) :
  let project := BuildConfig.project (_buildConfig this) in
  let resolve := PathHelper.resolveAbsolutePath (_pathHelper this) in
  plain (Project.name project) →
  rest ≠ [] →
  head rest ≠ Some dir →
  Path.segments (resolve (Project.src project)) = base ++ [dir] →
  Path.segments (resolve (Project.entry project)) = base ++ rest →
  Path.relative (resolve (Project.src project)) (resolve (Project.entry project))
  = Js.join "/" (".." :: rest) ∧
  mainPath this = Js.join "/" rest ∧
  appPath this = stripJs (Js.join "/" rest).
Proof.
  intros project resolve Hname Hrest Hhead Hsrc Hentry.
  assert (Hplain : Forall plain rest).
  { pose proof (segments_plain (resolve (Project.entry project))) as H.
    rewrite Hentry in H. by apply Forall_app in H as [_ ?]. }
  assert (Hrel : Path.relative (resolve (Project.src project))
                   (resolve (Project.entry project))
                 = Js.join "/" (".." :: rest)).
  { unfold Path.relative. rewrite Hsrc, Hentry, stripCommon_app.
    destruct rest as [|r rest]; [done|]. simpl Path.stripCommon.
    destruct (String.eqb_spec dir r) as [->|_]; [by destruct Hhead|]. done. }
  assert (Hmain : mainPath this = Js.join "/" rest).
  { unfold mainPath. fold project resolve. rewrite Hrel.
    destruct (exists_last Hrest) as (l & x & ->).
    unfold Path.join.
    destruct (String.eqb_spec (Project.name project) "") as [He|_];
      [by destruct Hname as [? _]|].
    destruct (String.eqb_spec (Js.join "/" (".." :: l ++ [x])) "") as [He|_].
    { exfalso. by apply (join_nonempty (".." :: l) x) in He;
        [|apply Forall_app in Hplain as [_ Hx];
          apply Forall_cons in Hx as [Hx _]; apply Hx]. }
    rewrite <- join_cons_nonempty by discriminate.
    by apply normalize_up. }
  split; [exact Hrel|]. split; [exact Hmain|].
  unfold appPath. by rewrite Hmain.
Qed.

Lemma appPath_outside_source_witness :
  Path.relative "/project/src" "/project/lib/main.js"
  = Js.join "/" [".."; "lib"; "main.js"] ∧
  mainPath SampleMore.outside = Js.join "/" ["lib"; "main.js"] ∧
  appPath SampleMore.outside = stripJs (Js.join "/" ["lib"; "main.js"]).
Proof.
  apply (appPath_outside_source SampleMore.outside
           ["project"] ["lib"; "main.js"] "src").
  - repeat split; vm_compute; congruence.
  - discriminate.
  - discriminate.
  - vm_compute. reflexivity.
  - vm_compute. reflexivity.
Defined.

(** ** The written files are on the disk *)

Lemma writeFile_stateOf_wellFormed this src content st :
  wellFormed (disk st) →
  wellFormed (disk (stateOf (_writeFile this src content st))).
Proof.
  intros Hwf.
  destruct (_writeFile this src content st) as [st'|e st'] eqn:H.
  - by destruct (writeFile_wellFormed this src content st st' Hwf H).
  - cbn [stateOf]. unfold _writeFile in H. fold (filenameOf this src) in H.
    destruct (Fs.existsSync (Path.dirname (filenameOf this src)) (disk st)).
    + cbn [andThen] in H. unfold onDisk at 1 in H.
      destruct (Fs.writeFileSync (filenameOf this src) content (disk st))
        as [d2|e2].
      * cbn [andThen] in H.
        by destruct (Js.includes (filenameOf this src) (_files (setDisk d2 st))).
      * cbn [andThen] in H. by injection H as <- <-.
    + unfold onDisk at 1 in H.
      destruct (Fs.ensureDirSync (Path.dirname (filenameOf this src)) (disk st))
        as [d0|e0] eqn:Hmk.
      * cbn [andThen] in H. unfold onDisk at 1 in H. cbn [disk setDisk] in H.
        destruct (Fs.writeFileSync (filenameOf this src) content d0)
          as [d2|e2].
        -- cbn [andThen] in H.
           by destruct (Js.includes (filenameOf this src)
                          (_files (setDisk d2 (setDisk d0 st)))).
        -- cbn [andThen] in H. injection H as <- <-. cbn [disk setDisk].
           unfold Fs.ensureDirSync in Hmk.
           apply (mkdirs_spec _ [] _ _ Hwf) in Hmk as [? _]; [done| |by left].
           apply segments_plain.
      * cbn [andThen] in H. by injection H as <- <-.
Qed.

Lemma forEach_writes_stateOf_wellFormed this writes : ∀ st,
  wellFormed (disk st) →
  wellFormed
    (disk (stateOf (forEach (fun kv => _writeFile this kv.1 kv.2) writes st))).
Proof.
  induction writes as [|[src content] r IH]; intros st Hwf; [done|].
  simpl forEach.
  pose proof (writeFile_stateOf_wellFormed this src content st Hwf) as H1.
  destruct (_writeFile this src content st) as [st1|e st1];
    cbn [andThen stateOf] in *; [by apply IH | done].
Qed.

(** What [clean] leaves, whether it returned or threw: the state it was
    given, or a state with an empty list of written files. *)
Lemma clean_stateOf this st :
  wellFormed (disk st) →
  Path.isAbsolute (_root this) = true →
  wellFormed (disk (stateOf (clean this st))) ∧
  (stateOf (clean this st) = st ∨ _files (stateOf (clean this st)) = []).
Proof.
  intros Hwf Habs.
  destruct (clean_cases this st)
    as [[_ Hret]|[[_ Hroot]|(_ & _ & _ & Hthrow)]].
  - rewrite Hret. split; [done | by left].
  - destruct (clean_spec this st Hwf Habs Hroot) as (st2 & Hrun & _ & _ & Hf & _).
    destruct (clean_returned_wellFormed this st st2 Hwf Habs Hrun) as [Hwf2 _].
    rewrite Hrun. split; [done | by right].
  - rewrite Hthrow. split; [done | by left].
Qed.

Lemma wrote_registered this done st st' :
  wrote this done st st' →
  Forall (fun kv => Js.endsWith (filenameOf this kv.1) "/" = false) done →
  (∀ f, f ∈ _files st → is_Some (Fs.readFile f (disk st))) →
  ∀ f, f ∈ _files st' → is_Some (Fs.readFile f (disk st')).
Proof.
  intros (Hd & Hf & _) Hslash Hinv f Hin.
  rewrite Hf in Hin.
  apply elem_of_Set_add_fold in Hin as [Hin|Hin].
  - specialize (Hinv f Hin). rewrite readFile_fileAt in *.
    destruct (Js.endsWith f "/"); [done|]. rewrite Hd.
    by destruct (lastWritten this done (Path.segments f)).
  - apply list_elem_of_fmap in Hin as (kv & -> & Hkv).
    destruct (lastWritten_some this done kv Hkv) as [c Hc].
    rewrite readFile_filename
      by by apply (proj1 (Forall_forall _ _) Hslash).
    by rewrite Hd, Hc.
Qed.

Lemma perform_stateOf_wellFormed this c st :
  wellFormed (disk st) →
  Path.isAbsolute (_root this) = true →
  wellFormed (disk (stateOf (perform this c st))).
Proof.
  intros Hwf Habs. rewrite perform_shape.
  assert (Hclean : wellFormed
    (disk (stateOf (clean this st ;;;
                    forEach (fun kv => _writeFile this kv.1 kv.2)
                      (plannedWrites this c))))).
  { destruct (clean_stateOf this st Hwf Habs) as [Hwf1 _].
    destruct (clean this st) as [sa|e sa]; cbn [andThen stateOf] in *;
      [by apply forEach_writes_stateOf_wellFormed | done]. }
  destruct c; try exact Hclean; by apply forEach_writes_stateOf_wellFormed.
Qed.

Lemma afterClean_registered this c st :
  wellFormed (disk st) →
  Path.isAbsolute (_root this) = true →
  (∀ f, f ∈ _files st → is_Some (Fs.readFile f (disk st))) →
  ∀ f, f ∈ _files (afterClean this c st) →
       is_Some (Fs.readFile f (disk (afterClean this c st))).
Proof.
  intros Hwf Habs Hinv.
  assert (Hclean : ∀ f, f ∈ _files (stateOf (clean this st)) →
            is_Some (Fs.readFile f (disk (stateOf (clean this st))))).
  { destruct (clean_stateOf this st Hwf Habs) as [_ [->| ->]]; [done|].
    intros f Hf. by apply elem_of_nil in Hf. }
  destruct c; cbn [afterClean]; done.
Qed.

(** X16: the list of written files names files that are there: from a
    well-formed disk, for an absolute root, whatever the calls made and
    whichever of them threw, every path in the list is a regular file
    on the disk the calls leave, and that disk is well-formed. *)
Theorem registry_files_exist (this : t) (calls : list call) (st : state) :
  wellFormed (disk st) →
  Path.isAbsolute (_root this) = true →
  (∀ f, f ∈ _files st → is_Some (Fs.readFile f (disk st))) →
  wellFormed (disk (session this calls st)) ∧
  ∀ f, f ∈ _files (session this calls st) →
       is_Some (Fs.readFile f (disk (session this calls st))).
Proof.
  intros Hwf Habs. revert st Hwf.
  induction calls as [|c calls IH]; intros st Hwf Hinv; [done|].
  cbn [session fold_left].
  change (fold_left (fun st c => stateOf (perform this c st)) calls
            (stateOf (perform this c st)))
    with (session this calls (stateOf (perform this c st))).
  apply IH.
  - by apply perform_stateOf_wellFormed.
  - destruct (perform_split this c st) as (done & rest & _ & Hw & Hslash & _).
    apply (wrote_registered this done _ _ Hw Hslash).
    by apply afterClean_registered.
Qed.

Lemma registry_files_exist_witness :
  wellFormed
    (disk (session Sample.provider
             [CallBuildCode; SampleRuns.stray; CallGenerateDefines]
             (initial Sample.populated))) ∧
  ∀ f, f ∈ _files (session Sample.provider
                     [CallBuildCode; SampleRuns.stray; CallGenerateDefines]
                     (initial Sample.populated)) →
       is_Some
         (Fs.readFile f
            (disk (session Sample.provider
                     [CallBuildCode; SampleRuns.stray; CallGenerateDefines]
                     (initial Sample.populated)))).
Proof.
  apply (registry_files_exist Sample.provider
           [CallBuildCode; SampleRuns.stray; CallGenerateDefines]
           (initial Sample.populated)).
  - apply (bool_decide_unpack _). vm_compute. exact I.
  - reflexivity.
  - intros f Hf. by apply elem_of_nil in Hf.
Defined.

(** ** Sources that reach above the root *)

Lemma join_up_twice name l x :
  plain name → Forall plain (l ++ [x]) →
  Path.join name (Js.join "/" (".." :: ".." :: l ++ [x]))
  = Js.join "/" (".." :: l ++ [x]).
Proof.
  intros Hname Hall.
  assert (Hx : plain x).
  { apply Forall_app in Hall as [_ Hx]. by apply Forall_cons in Hx as [? _]. }
  assert (Hslash : Forall (fun s => hasSlash s = false)
                     (name :: ".." :: ".." :: l ++ [x])).
  { constructor; [apply Hname|]. constructor; [done|]. constructor; [done|].
    eapply Forall_impl; [exact Hall|]. by intros s (_ & _ & _ & ?). }
  assert (Hne : ∀ pre, Js.join "/" (pre ++ l ++ [x]) ≠ "").
  { intros pre. rewrite app_assoc. apply join_nonempty, Hx. }
  unfold Path.join.
  destruct (String.eqb_spec name "") as [He|_]; [by destruct Hname as [? _]|].
  destruct (String.eqb_spec (Js.join "/" (".." :: ".." :: l ++ [x])) "")
    as [He|_]; [by apply (Hne [".."; ".."]) in He|].
  rewrite <- join_cons_nonempty by discriminate.
  unfold Path.normalize.
  destruct (String.eqb_spec
              (Js.join "/" (name :: ".." :: ".." :: l ++ [x])) "") as [He|_];
    [by apply (Hne [name; ".."; ".."]) in He|].
  assert (Hend : Js.endsWith
                   (Js.join "/" (name :: ".." :: ".." :: l ++ [x])) "/"
                 = false)
    by apply (endsWith_slash_join (name :: ".." :: ".." :: l) x Hx).
  rewrite Hend, split_join by done.
  rewrite isAbsolute_join by done. simpl negb.
  assert (Hsegs : Path.normalizeSegments true
                    (name :: ".." :: ".." :: l ++ [x])
                  = ".." :: l ++ [x]).
  { unfold Path.normalizeSegments.
    change (fold_left (Path.step true) (name :: ".." :: ".." :: l ++ [x]) [])
      with (fold_left (Path.step true) (l ++ [x])
              (Path.step true
                 (Path.step true (Path.step true [] name) "..") "..")).
    rewrite (step_plain true [] name) by done.
    assert (Hup : Path.step true [name] ".." = []).
    { unfold Path.step. simpl.
      destruct (String.eqb_spec name "..") as [Hn|_]; [|done].
      by destruct Hname as (_ & _ & ? & _). }
    rewrite Hup.
    change (Path.step true [] "..") with [".."].
    rewrite fold_step_plain by done.
    by rewrite rev_app_distr, rev_involutive. }
  rewrite Hsegs.
  destruct (String.eqb_spec (Js.join "/" (".." :: l ++ [x])) "") as [He|_];
    [by apply (Hne [".."]) in He | done].
Qed.

Lemma segments_join_up root R last l x :
  Path.isAbsolute root = true →
  Path.segments root = R ++ [last] →
  Forall plain (l ++ [x]) →
  Path.segments (Path.join root (Js.join "/" (".." :: l ++ [x])))
  = R ++ l ++ [x].
Proof.
  intros Habs Hroot Hall.
  assert (Hx : plain x).
  { apply Forall_app in Hall as [_ H]. by apply Forall_cons in H as [? _]. }
  assert (Hslash : Forall (fun s => hasSlash s = false) (".." :: l ++ [x])).
  { constructor; [done|].
    eapply Forall_impl; [exact Hall|]. by intros s (_ & _ & _ & ?). }
  assert (Hj : Js.join "/" (".." :: l ++ [x]) ≠ "")
    by apply (join_nonempty (".." :: l) x), Hx.
  assert (Hlast : plain last).
  { pose proof (segments_plain root) as H. rewrite Hroot in H.
    apply Forall_app in H as [_ H]. by apply Forall_cons in H as [? _]. }
  assert (HR : Forall plain R).
  { pose proof (segments_plain root) as H. rewrite Hroot in H.
    by apply Forall_app in H as [? _]. }
  destruct root as [|c root]; [done|].
  unfold Path.join.
  destruct (String.eqb_spec (String c root) ""); [done|].
  destruct (String.eqb_spec (Js.join "/" (".." :: l ++ [x])) ""); [done|].
  unfold Path.normalize.
  destruct (String.eqb_spec
              (String c root +:+ "/" +:+ Js.join "/" (".." :: l ++ [x])) "");
    [done|].
  change (Path.isAbsolute
            (String c root +:+ "/" +:+ Js.join "/" (".." :: l ++ [x])))
    with (Path.isAbsolute (String c root)).
  rewrite Habs. simpl negb.
  assert (Hend : Js.endsWith
                   (String c root +:+ "/" +:+ Js.join "/" (".." :: l ++ [x]))
                   "/"
                 = false).
  { rewrite endsWith_app; [|done|done|simpl; lia].
    rewrite (endsWith_app "/" (Js.join "/" (".." :: l ++ [x])));
      [|done|done|].
    - by apply (endsWith_slash_join (".." :: l) x).
    - destruct (Js.join "/" (".." :: l ++ [x])); [done|simpl; lia]. }
  rewrite Hend, split_app, split_join by done.
  assert (Hnorm : Path.normalizeSegments false
                    (Js.split "/" (String c root) ++ ".." :: l ++ [x])
                  = R ++ l ++ [x]).
  { unfold Path.normalizeSegments. rewrite fold_left_app.
    assert (Hacc : fold_left (Path.step false) (Js.split "/" (String c root)) []
                   = last :: rev R).
    { apply (f_equal (@rev string)) in Hroot.
      unfold Path.segments, Path.normalizeSegments in Hroot.
      rewrite rev_involutive, rev_app_distr in Hroot. exact Hroot. }
    rewrite Hacc.
    change (fold_left (Path.step false) (".." :: l ++ [x]) (last :: rev R))
      with (fold_left (Path.step false) (l ++ [x])
              (Path.step false (last :: rev R) "..")).
    assert (Hup : Path.step false (last :: rev R) ".." = rev R).
    { unfold Path.step. simpl.
      destruct (String.eqb_spec last "..") as [Hn|_]; [|done].
      by destruct Hlast as (_ & _ & ? & _). }
    rewrite Hup, fold_step_plain by done.
    by rewrite rev_app_distr, !rev_involutive. }
  rewrite Hnorm.
  destruct (String.eqb_spec (Js.join "/" (R ++ l ++ [x])) "") as [He|_].
  { exfalso. rewrite app_assoc in He. revert He. apply join_nonempty, Hx. }
  apply segments_slash_join. by apply Forall_app.
Qed.

Lemma below_sibling R last r rest :
  r ≠ last → Fs.below (R ++ [last]) (R ++ r :: rest) = None.
Proof.
  intros Hne. induction R as [|y R IH]; simpl.
  - destruct (String.eqb_spec last r) as [->|_]; done.
  - by rewrite String.eqb_refl.
Qed.

(** X17: the listener of an extension does not keep its writes below
    the root: a source whose path starts with [../..] leaves the
    directory of the extension and the root. For a root with a parent
    directory and an extension with a plain name, the source at
    [../../] and then a path of plain names is written at that path
    below the parent of the root, in no directory of the root unless
    the path starts with the name of the root. *)
Theorem generated_source_above_root
  (this : t) (extension : Extension.t) (above rest : list string)
  (last content : string) (st st' : state) :
  Path.isAbsolute (_root this) = true →
  Path.segments (_root this) = above ++ [last] →
  plain (Extension.getName extension) →
  Forall plain rest →
  rest ≠ [] →
  onGenerated this extension
    [(Js.join "/" (".." :: ".." :: rest), content)] st = Returned st' →
  fileAt (disk st') (above ++ rest) = Some content ∧
  (head rest ≠ Some last →
   Fs.below (Path.segments (_root this)) (above ++ rest) = None).
Proof.
  intros Habs Hroot Hname Hplain Hrest Hrun.
  destruct (exists_last Hrest) as (l & x & ->).
  split.
  - unfold onGenerated, _writeSources, _resolveAddonRelativeSources in Hrun.
    cbn [fold_left fst snd] in Hrun.
    rewrite join_up_twice in Hrun by done.
    rewrite Obj_set_nil in Hrun.
    2:{ destruct (l ++ [x]) as [|y r] eqn:Hl; [by destruct l|].
        rewrite join_cons_nonempty by done. discriminate. }
    cbn [forEach fst snd] in Hrun.
    pose proof (writeFile_outcome this (Js.join "/" (".." :: l ++ [x]))
                  content st) as Hw.
    destruct (_writeFile this (Js.join "/" (".." :: l ++ [x])) content st)
      as [s1|e s1]; [|done].
    cbn [andThen] in Hrun. injection Hrun as <-.
    destruct Hw as (Hd & _).
    rewrite Hd. cbn [lastWritten fst snd].
    unfold keyOf, filenameOf.
    rewrite (segments_join_up (_root this) above last l x) by done.
    by rewrite decide_True.
  - intros Hhead. rewrite Hroot.
    destruct (l ++ [x]) as [|r rest] eqn:Hl; [by destruct l|].
    apply below_sibling. intros ->. by apply Hhead.
Qed.

Lemma generated_source_above_root_witness :
  fileAt
    (disk (stateOf (onGenerated Sample.provider Sample.foo
                      [(Js.join "/" [".."; ".."; "stray.js"], "x")]
                      (initial Sample.populated))))
    (["project"] ++ ["stray.js"]) = Some "x" ∧
  (head ["stray.js"] ≠ Some "out" →
   Fs.below (Path.segments (_root Sample.provider))
     (["project"] ++ ["stray.js"]) = None).
Proof.
  apply (generated_source_above_root Sample.provider Sample.foo
           ["project"] ["stray.js"] "out" "x" (initial Sample.populated)).
  - reflexivity.
  - vm_compute. reflexivity.
  - repeat split; vm_compute; congruence.
  - repeat constructor; vm_compute; congruence.
  - discriminate.
  - vm_compute. reflexivity.
Defined.
